(** * Dashboard.py: collocation graphs, taxonomies and page control flow

    A shallow embedding of the data transformations of [Dashboard.py]
    (and of the date guard it shares with [pages/About_the_data.py]),
    with the properties the dashboard's specification states about them.

    Conventions of the embedding:
    - a pandas DataFrame is the list of its rows, in row order;
    - a Python [dict] is a [gmap], a Python [set] a [gset]; a dictionary
      is gone through in the order of the map, not in the order of
      insertion, and no property below depends on that order;
    - a networkx graph is its adjacency dictionary [adj] (node to
      neighbour to edge data) together with its node dictionary;
    - a Python exception is a value of [exn] returned in [result];
    - a [str] is a [string] of code points; [lower], [casefold] and
      [split] are given on the ASCII range, other code points being
      letters without case. *)

From Stdlib Require Import QArith Qcanon Ascii.
From stdpp Require Import gmap strings list fin_maps numbers sorting pretty.

#[local] Set Warnings "-register-all,-clear-no-such-hyp".

Close Scope Qc_scope.
Close Scope Q_scope.
Open Scope string_scope.
Open Scope list_scope.
Open Scope nat_scope.

(** ** Values *)

(** A cell of a DataFrame column, also the value of an edge attribute:
    [f_xy] is an integer column, [pmi] a float column (a finite float
    is the rational it denotes; only its order and equality are used). *)
Inductive cell :=
  | CInt (n : Z)
  | CFloat (q : Qc).

#[global] Instance cell_eq_dec : EqDecision cell.
Proof. solve_decision. Defined.

Definition cell_Q (c : cell) : Q :=
  match c with
  | CInt n => inject_Z n
  | CFloat q => this q
  end.

(** The exceptions the embedded code can raise. *)
Inductive exn :=
  | NameError (name : string)
  | KeyError (key : string)
  | ValueError (msg : string).

Inductive result (A : Type) :=
  | Ok (a : A)
  | Raise (e : exn).
Arguments Ok {A} a.
Arguments Raise {A} e.

#[global] Instance result_ret : MRet result := λ A a, Ok a.

#[global] Instance result_bind : MBind result := λ A B k m,
  match m with
  | Ok a => k a
  | Raise e => Raise e
  end.

(** ** Bigram tables *)

(** A row once the [date] column is dropped: columns [x], [y], [f_xy], [pmi]. *)
Record row := Row {
  col_x : string;
  col_y : string;
  col_f_xy : Z;
  col_pmi : Qc
}.

#[global] Instance row_eq_dec : EqDecision row.
Proof. solve_decision. Defined.

(** A bigram record: (date, x, y, f_xy, pmi). *)
Record bigram := Bigram {
  col_date : string;
  col_rest : row
}.

(** The [type] argument of [get_nx_collocation_graph]: the name of the
    metric column. *)
Inductive metric :=
  | f_xy
  | pmi.

Definition metric_name (type : metric) : string :=
  match type with
  | f_xy => "f_xy"
  | pmi => "pmi"
  end.

(** [df[type]] on one row. *)
Definition column (type : metric) (r : row) : cell :=
  match type with
  | f_xy => CInt (col_f_xy r)
  | pmi => CFloat (col_pmi r)
  end.

(** ** The pandas operations used by the collocation builder *)
Module pd.

(** [bigrams.drop(['date'], axis=1)] *)
Definition drop_date (df : list bigram) : list row := col_rest <$> df.

(** [df.drop_duplicates()]: the first occurrence of every row is kept. *)
Fixpoint drop_duplicates_from (seen : list row) (df : list row) : list row :=
  match df with
  | [] => []
  | r :: rs =>
      if decide (r ∈ seen) then drop_duplicates_from seen rs
      else r :: drop_duplicates_from (r :: seen) rs
  end.

Definition drop_duplicates (df : list row) : list row :=
  drop_duplicates_from [] df.

(** [df.rename(columns={"x": "y", "y": "x"})]: the two labels trade
    places, so that after [pd.concat], which aligns columns by label,
    the old [y] is read as [x] and the old [x] as [y]. *)
Definition rename_x_y (r : row) : row :=
  {| col_x := col_y r; col_y := col_x r;
     col_f_xy := col_f_xy r; col_pmi := col_pmi r |}.

(** The order of [sort_values(['x', type], ascending=False)]: [r1] may
    stay in front of [r2] when its [x] is larger (strings compare by
    code point), or when the [x] are equal and its metric is not smaller. *)
Definition precedes (type : metric) (r1 r2 : row) : bool :=
  match String.compare (col_x r1) (col_x r2) with
  | Gt => true
  | Lt => false
  | Eq => Qle_bool (cell_Q (column type r2)) (cell_Q (column type r1))
  end.

Fixpoint insert_sorted (type : metric) (r : row) (df : list row) : list row :=
  match df with
  | [] => [r]
  | r' :: rs =>
      if precedes type r r' then r :: r' :: rs
      else r' :: insert_sorted type r rs
  end.

(** [sort_values] on several columns is a stable sort: rows with equal
    keys keep their relative order. *)
Definition sort_values (type : metric) (df : list row) : list row :=
  foldr (insert_sorted type) [] df.

(** Number of rows of the group of [w], that is, with [x = w]. *)
Definition group_size (w : string) (df : list row) : nat :=
  length (filter (λ r, col_x r = w) df).

(** [groupby('x').head(n)] for [n >= 0]: a row is kept when fewer than
    [n] rows of its group come before it ([cumcount < n]). *)
Fixpoint head_first (n : nat) (seen : list row) (df : list row) : list row :=
  match df with
  | [] => []
  | r :: rs =>
      if decide (group_size (col_x r) seen < n)%nat
      then r :: head_first n (r :: seen) rs
      else head_first n (r :: seen) rs
  end.

(** [groupby('x').head(n)] for [n < 0]: all but the last [-n] rows of
    each group, so a row is kept when at least [-n] rows of its group
    come after it. *)
Fixpoint head_but_last (k : nat) (df : list row) : list row :=
  match df with
  | [] => []
  | r :: rs =>
      if decide (k ≤ group_size (col_x r) rs)%nat
      then r :: head_but_last k rs
      else head_but_last k rs
  end.

Definition groupby_x_head (n : Z) (df : list row) : list row :=
  if decide (0 ≤ n)%Z then head_first (Z.to_nat n) [] df
  else head_but_last (Z.to_nat (- n)) df.

End pd.

(** ** The networkx undirected graph *)
Module nx.

(** [nx.Graph]: [node] is the node dictionary (the collocation builder
    sets no node attribute, so only its keys matter), [adj] maps a node
    to its neighbours and each neighbour to the edge's attribute
    dictionary. *)
Record Graph := mkGraph {
  node : gset string;
  adj : gmap string (gmap string (gmap string cell))
}.

(** [nx.Graph()] *)
Definition empty : Graph := {| node := ∅; adj := ∅ |}.

(** [graph.add_node(n)] *)
Definition add_node (n : string) (g : Graph) : Graph :=
  match adj g !! n with
  | Some _ => {| node := {[n]} ∪ node g; adj := adj g |}
  | None => {| node := {[n]} ∪ node g; adj := <[n := ∅]> (adj g) |}
  end.

(** [graph[u][v]], the empty dictionary when there is no such edge *)
Definition edge_data (g : Graph) (u v : string) : gmap string cell :=
  default ∅ (adj g !! u ≫= (.!! v)).

(** [graph.add_edge(u, v); graph[u][v].update(attr)]: both end points
    become nodes, the attributes are merged into the data of the edge,
    and the one data dictionary is stored under [adj[u][v]] and
    [adj[v][u]]. *)
Definition add_edge (u v : string) (attr : gmap string cell) (g : Graph) : Graph :=
  let g := add_node v (add_node u g) in
  let datadict := attr ∪ edge_data g u v in
  let adj1 := <[u := <[v := datadict]> (default ∅ (adj g !! u))]> (adj g) in
  let adj2 := <[v := <[u := datadict]> (default ∅ (adj1 !! v))]> adj1 in
  {| node := node g; adj := adj2 |}.

(** [nx.from_pandas_edgelist(df, 'x', 'y', edge_attr=[type])] *)
Definition from_pandas_edgelist (df : list row) (type : metric) : Graph :=
  foldl (λ g r, add_edge (col_x r) (col_y r)
                  {[ metric_name type := column type r ]} g) empty df.

(** [graph.has_edge(u, v)] *)
Definition has_edge (g : Graph) (u v : string) : Prop :=
  is_Some (adj g !! u ≫= (.!! v)).

#[global] Instance has_edge_dec g u v : Decision (has_edge g u v).
Proof. unfold has_edge. apply _. Defined.

(** [graph.degree[n]]: the number of neighbours, a self-loop counting twice. *)
Definition degree (g : Graph) (n : string) : nat :=
  let nbrs := default ∅ (adj g !! n) in
  size nbrs + (if decide (is_Some (nbrs !! n)) then 1 else 0).

(** [graph.edges(data=True)]: every node in turn reports the edges to
    its neighbours, except to the nodes that have reported before it, so
    that each edge is listed once. *)
Definition edges_of (seen : list string) (n : string)
    (nbrs : gmap string (gmap string cell))
    : list (string * string * gmap string cell) :=
  (λ vd, (n, vd.1, vd.2)) <$> filter (λ vd, vd.1 ∉ seen) (map_to_list nbrs).

Fixpoint edges_from (seen : list string)
    (items : list (string * gmap string (gmap string cell)))
    : list (string * string * gmap string cell) :=
  match items with
  | [] => []
  | (n, nbrs) :: rest => edges_of seen n nbrs ++ edges_from (n :: seen) rest
  end.

Definition edges (g : Graph) : list (string * string * gmap string cell) :=
  edges_from [] (map_to_list (adj g)).

(** [nx.DiGraph]: the node dictionary with the attributes of every
    node, and the successors of every node (the edges of the taxonomy
    graph carry no data). *)
Record DiGraph := mkDiGraph {
  di_node : gmap nat (gmap string string);
  di_succ : gmap nat (gset nat)
}.

Definition di_empty : DiGraph := {| di_node := ∅; di_succ := ∅ |}.

(** [graph.add_node(n, **attr)]: a new node gets the attributes, a
    known node has them updated. *)
Definition di_add_node (n : nat) (attr : gmap string string) (g : DiGraph)
    : DiGraph :=
  match di_succ g !! n with
  | None => {| di_node := <[n := attr]> (di_node g);
               di_succ := <[n := ∅]> (di_succ g) |}
  | Some _ => {| di_node := <[n := attr ∪ default ∅ (di_node g !! n)]> (di_node g);
                 di_succ := di_succ g |}
  end.

(** An end point of a new edge that is not yet a node becomes one,
    without attributes. *)
Definition di_touch (n : nat) (g : DiGraph) : DiGraph :=
  match di_succ g !! n with
  | None => {| di_node := <[n := ∅]> (di_node g);
               di_succ := <[n := ∅]> (di_succ g) |}
  | Some _ => g
  end.

(** [graph.add_edge(u, v)] *)
Definition di_add_edge (u v : nat) (g : DiGraph) : DiGraph :=
  let g := di_touch v (di_touch u g) in
  {| di_node := di_node g;
     di_succ := <[u := {[v]} ∪ default ∅ (di_succ g !! u)]> (di_succ g) |}.

(** [graph.has_node(n)] *)
Definition di_has_node (g : DiGraph) (n : nat) : Prop := is_Some (di_node g !! n).

#[global] Instance di_has_node_dec g n : Decision (di_has_node g n).
Proof. unfold di_has_node. apply _. Defined.

Definition successors (g : DiGraph) (n : nat) : gset nat :=
  default ∅ (di_succ g !! n).

(** The successors of the nodes of [frontier]. *)
Definition children (g : DiGraph) (frontier : gset nat) : gset nat :=
  ⋃ (successors g <$> elements frontier).

(** Breadth-first search, one layer in each turn: the nodes reached for
    the first time from [frontier] join [visited] and are the next
    frontier; the search ends when a layer is empty. *)
Fixpoint bfs (g : DiGraph) (fuel : nat) (visited frontier : gset nat)
    : gset nat :=
  match fuel with
  | 0 => visited
  | S fuel =>
      let next := children g frontier ∖ visited in
      if decide (next = ∅) then visited
      else bfs g fuel (visited ∪ next) next
  end.

(** Every node that is the head of an edge. *)
Definition heads (g : DiGraph) : gset nat :=
  ⋃ ((map_to_list (di_succ g)).*2).

(** [nx.descendants(graph, source)]: the nodes that the search from
    [source] reaches, [source] itself left out.  Each layer but the
    last has a node not seen before, all of them heads of edges, so
    the search ends within the fuel given. *)
Definition descendants (g : DiGraph) (source : nat) : gset nat :=
  bfs g (S (size (heads g))) {[source]} {[source]} ∖ {[source]}.

(** [u -> v] is an edge. *)
Definition di_edge (g : DiGraph) (u v : nat) : Prop := v ∈ successors g u.

End nx.

(** ** get_nx_collocation_graph *)

(** The table [df_collocates] from which the graph is made: the rows of
    the focus words, each focus word in column [x], sorted and cut to
    the [top] first rows of every group. *)
Definition df_collocates (bigrams : list bigram) (words : list string)
    (type : metric) (top : Z) : list row :=
  let df := pd.drop_duplicates (pd.drop_date bigrams) in
  let x_collocates := filter (λ r, col_x r ∈ words) df in
  let y_collocates := pd.rename_x_y <$> filter (λ r, col_y r ∈ words) df in
  let df_collocates := pd.sort_values type (x_collocates ++ y_collocates) in
  pd.groupby_x_head top df_collocates.

Definition get_nx_collocation_graph (bigrams : list bigram) (words : list string)
    (type : metric) (top : Z) : nx.Graph :=
  let df_collocates := df_collocates bigrams words type top in
  match df_collocates with
  | [] => foldl (λ graph word, nx.add_node word graph) nx.empty words
  | _ => nx.from_pandas_edgelist df_collocates type
  end.

(** The scenario of the specification. *)
Definition scenario_bigrams : list bigram :=
  [ Bigram "2020-04-13" (Row "truth" "hoax" 5 (Q2Qc 1.2));
    Bigram "2020-04-13" (Row "hoax" "lies" 9 (Q2Qc 0.4)) ].

(** The collocates that the word [w] contributes from the source
    column: the [y] of the rows of its group. *)
Definition collocates_of (df : list row) (w : string) : list string :=
  col_y <$> filter (λ r, col_x r = w) df.

(** A table in which every word of [ws] occurs once, each time with the
    same neighbour [n]. *)
Definition star_row (n w : string) : row := Row w n 1 (Q2Qc 1).

Definition star_bigrams (ws : list string) (n : string) : list bigram :=
  (λ w, Bigram "2020-04-13" (star_row n w)) <$> ws.

(** [k] focus words: w0, w1, ... *)
Definition numbered_words (k : nat) : list string :=
  (λ i : nat, String "w" (pretty i)) <$> seq 0 k.

(** The edges that [graph.edges] lists between [u] and [v], in either
    orientation. *)
Definition joins (u v : string) (e : string * string * gmap string cell) : Prop :=
  (e.1.1 = u ∧ e.1.2 = v) ∨ (e.1.1 = v ∧ e.1.2 = u).

#[global] Instance joins_dec u v e : Decision (joins u v e).
Proof. unfold joins. apply _. Defined.

Definition edges_between (g : nx.Graph) (u v : string)
    : list (string * string * gmap string cell) :=
  filter (joins u v) (nx.edges g).

(** A table in which two focus words share a neighbour. *)
Definition shared_neighbour_bigrams : list bigram :=
  [ Bigram "2020-04-13" (Row "truth" "hoax" 5 (Q2Qc 1.2));
    Bigram "2020-04-14" (Row "hoax" "lies" 9 (Q2Qc 0.4)) ].

(** A table in which one pair occurs in both orders. *)
Definition both_orders_bigrams : list bigram :=
  [ Bigram "2020-04-13" (Row "truth" "hoax" 5 (Q2Qc 1.2));
    Bigram "2020-04-14" (Row "hoax" "truth" 3 (Q2Qc 0.4)) ].

(** An undirected adjacency: the data stored for [u], [v] is the data
    stored for [v], [u]. *)
Definition undirected (g : nx.Graph) : Prop :=
  ∀ u v, nx.adj g !! u ≫= (.!! v) = nx.adj g !! v ≫= (.!! u).

(** ** Strings *)

(** The characters of a string. *)
Fixpoint chars (s : string) : list ascii :=
  match s with
  | EmptyString => []
  | String c s => c :: chars s
  end.

Definition is_upper (c : ascii) : bool :=
  (65 <=? nat_of_ascii c) && (nat_of_ascii c <=? 90).

Definition lower_char (c : ascii) : ascii :=
  if is_upper c then ascii_of_nat (nat_of_ascii c + 32) else c.

(** [s.lower()] *)
Fixpoint lower (s : string) : string :=
  match s with
  | EmptyString => EmptyString
  | String c s => String (lower_char c) (lower s)
  end.

(** [str.casefold]: on the ASCII range, the lower-case string. *)
Definition casefold (s : string) : string := lower s.

(** The characters at which [s.split()] cuts: tab, line feed, vertical
    tab, form feed, carriage return, the four separators 28 to 31, and
    the space. *)
Definition is_space (c : ascii) : bool :=
  let n := nat_of_ascii c in
  ((9 <=? n) && (n <=? 13)) || ((28 <=? n) && (n <=? 32)).

(** [s.split()]: the maximal runs of characters that are not white
    space; [word] is the run being read. *)
Fixpoint split_from (word : string) (s : string) : list string :=
  match s with
  | EmptyString => if decide (word = "") then [] else [word]
  | String c s' =>
      if is_space c
      then (if decide (word = "") then split_from "" s'
            else word :: split_from "" s')
      else split_from (word +:+ String c "") s'
  end.

Definition split (s : string) : list string := split_from "" s.

(** [s.replace(c, '')] for a one-character [c]. *)
Fixpoint remove_char (c : ascii) (s : string) : string :=
  match s with
  | EmptyString => EmptyString
  | String c' s => if decide (c' = c) then remove_char c s
                   else String c' (remove_char c s)
  end.

(** [sorted(l, key=key)]: a stable sort, strings compared by code point. *)
Fixpoint insert_by (key : string → string) (a : string) (l : list string)
    : list string :=
  match l with
  | [] => [a]
  | b :: l' =>
      if String.leb (key a) (key b) then a :: b :: l'
      else b :: insert_by key a l'
  end.

Definition sorted (key : string → string) (l : list string) : list string :=
  foldr (insert_by key) [] l.

(** ** Taxonomies *)

(** An entry of a taxonomy file as [yaml.load] returns it: a dictionary
    in which each of the keys [category], [vocabulary] and
    [subcategories] may be absent.  The entries of [subcategories] are
    gone through in order, be they the items of a list or the values of
    a dictionary. *)
Inductive yaml :=
  | Yaml (category : option string) (vocabulary : option (list string))
         (subcategories : option (list yaml)).

(** [{'name': ..., 'uuid': ...}]; [uuid.uuid4()] draws a random
    identifier, and the embedding names a draw by its rank, the draws of
    one run being pairwise distinct. *)
Record term := Term {
  name : string;
  uuid : nat
}.

(** An entry after [tidy_taxonomies]. *)
Inductive taxonomy :=
  | Taxonomy (category : option term) (vocabulary : option (list term))
             (subcategories : option (list taxonomy)).

Definition stopwords : list string := ["and"; "&"; "or"].

(** The words appended for the strings of one [vocabulary] list, in order. *)
Definition vocabulary_words (vocabulary : list string) : list string :=
  filter (λ word, word ∉ stopwords)
    ((λ word, remove_char "*"%char (lower word)) <$> (vocabulary ≫= split)).

(** Each word draws the next identifier. *)
Definition draw_uuids (words : list string) (next : nat) : list term :=
  zip_with Term words (seq next (length words)).

(** Equality of two arguments by content, as the cache compares them
    (it keys a call on a hash of the content of its argument; the keys
    of an entry are taken in one order). *)
Fixpoint yaml_eqb (a b : yaml) : bool :=
  match a, b with
  | Yaml category vocabulary subcategories,
    Yaml category' vocabulary' subcategories' =>
      bool_decide (category = category') &&
      bool_decide (vocabulary = vocabulary') &&
      match subcategories, subcategories' with
      | Some l, Some l' =>
          (fix eqb_list (l l' : list yaml) : bool :=
             match l, l' with
             | [], [] => true
             | a :: l, b :: l' => yaml_eqb a b && eqb_list l l'
             | _, _ => false
             end) l l'
      | None, None => true
      | _, _ => false
      end
  end.

Definition yaml_list_eqb : list yaml → list yaml → bool :=
  fix eqb_list (l l' : list yaml) : bool :=
    match l, l' with
    | [] , [] => true
    | a :: l, b :: l' => yaml_eqb a b && eqb_list l l'
    | _, _ => false
    end.

(** [tidy_taxonomies] is wrapped by [@st.cache], and calls itself under
    that name: a call whose argument equals, by content, the argument
    of a call that has returned is answered with the list that call
    returned, and the body does not run.  The state of a run is what
    the cache holds, the latest call first, and the rank of the next
    draw of [uuid.uuid4()]. *)
Record tidy_state := TidyState {
  tidy_cache : list (list yaml * list taxonomy);
  tidy_next : nat
}.

Fixpoint cache_get (data : list yaml)
    (cache : list (list yaml * list taxonomy)) : option (list taxonomy) :=
  match cache with
  | [] => None
  | (key, processed) :: cache =>
      if yaml_list_eqb key data then Some processed else cache_get data cache
  end.

(** One turn of the loop of [tidy_taxonomies]: the category and the
    words draw their identifiers, and the call for the subcategories
    goes through the cache. *)
Fixpoint tidy_taxonomy (value : yaml) (s : tidy_state) : taxonomy * tidy_state :=
  match value with
  | Yaml category vocabulary subcategories =>
      let '(category', next) :=
        match category with
        | Some c => (Some (Term (lower c) (tidy_next s)), S (tidy_next s))
        | None => (None, tidy_next s)
        end in
      let '(vocabulary', next) :=
        match vocabulary with
        | Some strings =>
            let words := vocabulary_words strings in
            (Some (draw_uuids words next), next + length words)
        | None => (None, next)
        end in
      let s := TidyState (tidy_cache s) next in
      match subcategories with
      | Some data =>
          match cache_get data (tidy_cache s) with
          | Some processed => (Taxonomy category' vocabulary' (Some processed), s)
          | None =>
              let '(processed, s) :=
                (fix tidy_list (data : list yaml) (s : tidy_state) :=
                   match data with
                   | [] => ([], s)
                   | value :: data =>
                       let '(taxonomy, s) := tidy_taxonomy value s in
                       let '(processed, s) := tidy_list data s in
                       (taxonomy :: processed, s)
                   end) data s in
              (Taxonomy category' vocabulary' (Some processed),
               TidyState ((data, processed) :: tidy_cache s) (tidy_next s))
          end
      | None => (Taxonomy category' vocabulary' None, s)
      end
  end.

(** The loop of the body. *)
Definition tidy_loop : list yaml → tidy_state → list taxonomy * tidy_state :=
  fix tidy_list (data : list yaml) (s : tidy_state) :=
    match data with
    | [] => ([], s)
    | value :: data =>
        let '(taxonomy, s) := tidy_taxonomy value s in
        let '(processed, s) := tidy_list data s in
        (taxonomy :: processed, s)
    end.

(** A call of [tidy_taxonomies(data)] in the state [s]: answered from
    the cache, or by the body, whose result is then stored. *)
Definition tidy_taxonomies_in (data : list yaml) (s : tidy_state)
    : list taxonomy * tidy_state :=
  match cache_get data (tidy_cache s) with
  | Some processed => (processed, s)
  | None =>
      let '(processed, s) := tidy_loop data s in
      (processed, TidyState ((data, processed) :: tidy_cache s) (tidy_next s))
  end.

(** [tidy_taxonomies(data)] as the first call with these files: the
    cache is empty and the first draw has rank 0.  (A later call with
    the same argument is answered from the cache with the same list.) *)
Definition tidy_taxonomies (data : list yaml) : list taxonomy :=
  (tidy_taxonomies_in data (TidyState [] 0)).1.

(** The arguments of the calls of [tidy_taxonomies] that the body makes
    for an entry, in order: the [subcategories] lists at every depth. *)
Fixpoint calls_of_entry (value : yaml) : list (list yaml) :=
  match value with
  | Yaml category vocabulary subcategories =>
      match subcategories with
      | Some l =>
          l :: (fix calls (l : list yaml) :=
                  match l with
                  | [] => []
                  | value :: l => calls_of_entry value ++ calls l
                  end) l
      | None => []
      end
  end.

Definition calls_of_loop : list yaml → list (list yaml) :=
  fix calls (l : list yaml) :=
    match l with
    | [] => []
    | value :: l => calls_of_entry value ++ calls l
    end.

(** The arguments of all the calls that [tidy_taxonomies(data)] leads to. *)
Definition calls_of (data : list yaml) : list (list yaml) :=
  data :: calls_of_loop data.

(** *** The body on its own *)

(** One turn of the loop when every call runs the body, none being
    answered from the cache: every entry has draws of its own.  [next]
    is the rank of the next draw of [uuid.uuid4()], returned updated. *)
Fixpoint body_taxonomy (value : yaml) (next : nat) : taxonomy * nat :=
  match value with
  | Yaml category vocabulary subcategories =>
      let '(category', next) :=
        match category with
        | Some c => (Some (Term (lower c) next), S next)
        | None => (None, next)
        end in
      let '(vocabulary', next) :=
        match vocabulary with
        | Some strings =>
            let words := vocabulary_words strings in
            (Some (draw_uuids words next), next + length words)
        | None => (None, next)
        end in
      let '(subcategories', next) :=
        match subcategories with
        | Some data =>
            let '(processed, next) :=
              (fix tidy_list (data : list yaml) (next : nat) :=
                 match data with
                 | [] => ([], next)
                 | value :: data =>
                     let '(taxonomy, next) := body_taxonomy value next in
                     let '(processed, next) := tidy_list data next in
                     (taxonomy :: processed, next)
                 end) data next in
            (Some processed, next)
        | None => (None, next)
        end in
      (Taxonomy category' vocabulary' subcategories', next)
  end.

Fixpoint body_taxonomies_from (data : list yaml) (next : nat)
    : list taxonomy * nat :=
  match data with
  | [] => ([], next)
  | value :: data =>
      let '(taxonomy, next) := body_taxonomy value next in
      let '(processed, next) := body_taxonomies_from data next in
      (taxonomy :: processed, next)
  end.

(** The identifiers of an entry, in the order they were drawn. *)
Fixpoint uuids_of (t : taxonomy) : list nat :=
  match t with
  | Taxonomy category vocabulary subcategories =>
      (uuid <$> option_list category) ++
      (uuid <$> default [] vocabulary) ++
      match subcategories with
      | Some l =>
          (fix uuids_list (l : list taxonomy) :=
             match l with
             | [] => []
             | t :: l => uuids_of t ++ uuids_list l
             end) l
      | None => []
      end
  end.

(** The vocabulary words of an entry and of its subcategories. *)
Fixpoint words_of (t : taxonomy) : list string :=
  match t with
  | Taxonomy category vocabulary subcategories =>
      (name <$> default [] vocabulary) ++
      match subcategories with
      | Some l =>
          (fix words_list (l : list taxonomy) :=
             match l with
             | [] => []
             | t :: l => words_of t ++ words_list l
             end) l
      | None => []
      end
  end.

(** A small taxonomy file. *)
Definition vaccines_yaml : list yaml :=
  [ Yaml (Some "Vaccines")
         (Some ["Vaccine* AND Jabs"; "side effects & harm"; "5G  or  Chips"])
         (Some [ Yaml (Some "Brands") (Some ["Pfizer"]) None ]) ].

(** The identifiers and the vocabulary words of a list of entries. *)
Fixpoint uuids_of_list (l : list taxonomy) : list nat :=
  match l with
  | [] => []
  | t :: l => uuids_of t ++ uuids_of_list l
  end.

Fixpoint words_of_list (l : list taxonomy) : list string :=
  match l with
  | [] => []
  | t :: l => words_of t ++ words_of_list l
  end.

(** What the normalisation promises of a vocabulary word: it is in lower
    case, has no asterisk, is no stop-word and is a single word. *)
Definition tidy_word (w : string) : Prop :=
  lower w = w ∧
  ("*"%char ∉ chars w) ∧
  (w ∉ stopwords) ∧
  Forall (λ c, is_space c = false) (chars w).

(** ** get_nx_taxonomies_graph *)

(** [for value in l: state = body(state, value)], an exception ending the loop. *)
Fixpoint for_each {A S : Type} (body : S → A → result S) (l : list A) (s : S)
    : result S :=
  match l with
  | [] => Ok s
  | a :: l => s ← body s a; for_each body l s
  end.

(** [value['category']['uuid']] *)
Definition category_uuid (category : option term) : result nat :=
  match category with
  | Some c => Ok (uuid c)
  | None => Raise (KeyError "category")
  end.

(** One turn of the loop of [get_nx_taxonomies_graph]. *)
Fixpoint nx_taxonomy (parent : option nat) (graph : nx.DiGraph) (value : taxonomy)
    : result nx.DiGraph :=
  match value with
  | Taxonomy category vocabulary subcategories =>
      let graph :=
        match category with
        | Some c =>
            let graph :=
              nx.di_add_node (uuid c)
                {[ "label" := name c; "type" := "category" ]} graph in
            match parent with
            | Some p => nx.di_add_edge p (uuid c) graph
            | None => graph
            end
        | None => graph
        end in
      graph ←
        match vocabulary with
        | Some words =>
            for_each (λ graph word,
              let graph :=
                nx.di_add_node (uuid word)
                  {[ "label" := name word; "type" := "vocabulary" ]} graph in
              c ← category_uuid category;
              Ok (nx.di_add_edge c (uuid word) graph)) words graph
        | None => Ok graph
        end;
      match subcategories with
      | Some data =>
          c ← category_uuid category;
          for_each (nx_taxonomy (Some c)) data graph
      | None => Ok graph
      end
  end.

Definition get_nx_taxonomies_graph_in (data : list taxonomy)
    (graph : nx.DiGraph) (parent : option nat) : result nx.DiGraph :=
  for_each (nx_taxonomy parent) data graph.

(** [get_nx_taxonomies_graph(data)] *)
Definition get_nx_taxonomies_graph (data : list taxonomy) : result nx.DiGraph :=
  get_nx_taxonomies_graph_in data nx.di_empty None.

(** Every entry, at any depth, has a category. *)
Fixpoint categorised (t : taxonomy) : Prop :=
  match t with
  | Taxonomy category vocabulary subcategories =>
      is_Some category ∧
      match subcategories with
      | Some l =>
          (fix all (l : list taxonomy) : Prop :=
             match l with
             | [] => True
             | t :: l => categorised t ∧ all l
             end) l
      | None => True
      end
  end.

(** ** get_taxonomy_vocabularies *)

(** [y['label']] if [y['type'] == 'vocabulary'], for one node. *)
Definition vocabulary_label (y : gmap string string) : result (option string) :=
  match y !! "type" with
  | None => Raise (KeyError "type")
  | Some type =>
      if decide (type = "vocabulary") then
        match y !! "label" with
        | None => Raise (KeyError "label")
        | Some label => Ok (Some label)
        end
      else Ok None
  end.

(** [[y['label'] for x, y in nodes if y['type'] == 'vocabulary']] *)
Fixpoint vocabulary_labels (nodes : list (nat * gmap string string))
    : result (list string) :=
  match nodes with
  | [] => Ok []
  | (x, y) :: nodes =>
      label ← vocabulary_label y;
      labels ← vocabulary_labels nodes;
      Ok (option_list label ++ labels)
  end.

Definition get_taxonomy_vocabularies (graph : nx.DiGraph) (category : option nat)
    : result (list string) :=
  vocabularies ←
    match category with
    | None => vocabulary_labels (map_to_list (nx.di_node graph))
    | Some category =>
        if decide (nx.di_has_node graph category) then
          let nodes := nx.descendants graph category in
          (* [graph.subgraph(nodes).nodes(data=True)] *)
          vocabulary_labels
            (filter (λ xy, xy.1 ∈ nodes) (map_to_list (nx.di_node graph)))
        else Ok []
    end;
  Ok (sorted casefold vocabularies).

(** A taxonomy graph: every node carries a [type] and a [label], as the
    nodes added by [get_nx_taxonomies_graph] do. *)
Definition taxonomy_graph (g : nx.DiGraph) : Prop :=
  map_Forall (λ _ y, is_Some (y !! "type") ∧ is_Some (y !! "label")) (nx.di_node g).

(** The labels of the vocabulary nodes among [nodes]. *)
Definition is_vocabulary (xy : nat * gmap string string) : Prop :=
  xy.2 !! "type" = Some "vocabulary".

#[global] Instance is_vocabulary_dec xy : Decision (is_vocabulary xy).
Proof. unfold is_vocabulary. apply _. Defined.

Definition labels_of (nodes : list (nat * gmap string string)) : list string :=
  (λ xy, default "" (xy.2 !! "label")) <$> filter is_vocabulary nodes.

(** [a] sorts no later than [b] without regard to case. *)
Definition casefold_le (a b : string) : Prop :=
  String.leb (casefold a) (casefold b) = true.

(** The graph of the small taxonomy file. *)
Definition vaccines_graph : nx.DiGraph :=
  match get_nx_taxonomies_graph (tidy_taxonomies vaccines_yaml) with
  | Ok graph => graph
  | Raise _ => nx.di_empty
  end.

(** ** The pages *)

(** What a run of a page script leaves on the page, in order. *)
Inductive element :=
  | Text (call body : string)     (* st.title, st.header, st.markdown, ... *)
  | Input (call key : string)     (* a form or a widget *)
  | Error (message : string)      (* st.error *)
  | Compute (chart : string)      (* a chart or a graph is computed *)
  | Display (chart : string)      (* st.altair_chart, st.pyplot, components.html *)
  | Table (data : string).        (* st.dataframe *)

(** A run goes on with a value, or has been ended by [st.stop()]. *)
Inductive run (A : Type) :=
  | Continue (a : A) (out : list element)
  | Stop (out : list element).
Arguments Continue {A} a out.
Arguments Stop {A} out.

#[global] Instance run_ret : MRet run := λ A a, Continue a [].

#[global] Instance run_bind : MBind run := λ A B k m,
  match m with
  | Continue a out =>
      match k a with
      | Continue b out' => Continue b (out ++ out')
      | Stop out' => Stop (out ++ out')
      end
  | Stop out => Stop out
  end.

Definition emit (e : element) : run unit := Continue () [e].

(** [st.stop()] *)
Definition stop : run unit := Stop [].

(** [if c: body] *)
Definition when (c : bool) (body : run unit) : run unit :=
  if c then body else mret ().

Definition output {A} (r : run A) : list element :=
  match r with
  | Continue _ out => out
  | Stop out => out
  end.

Definition is_chart (e : element) : Prop :=
  match e with
  | Compute _ | Display _ => True
  | _ => False
  end.

Definition date_range_error : string :=
  "Date range selection error: The end date must be later than the start date.".

(** The values of the widgets that steer [Dashboard.py]; a date is the
    number of its day. *)
Record dashboard_settings := {
  data_range_start : Z;
  data_range_end : Z;
  ngramChart : bool;
  ngramPointChart : bool;
  timelineChart : bool;
  ngramData : bool;
  ngramHelp : bool;
  collocChart : bool;
  collocData : bool;
  collocHelp : bool;
  selected_words : list string;
  cf_corpus_subset : option string
}.

Definition some_selected (s : dashboard_settings) : bool :=
  bool_decide (selected_words s ≠ []).

Definition compared (s : dashboard_settings) : bool :=
  bool_decide (cf_corpus_subset s ≠ None).

(** The script of [Dashboard.py] from the side bar on. *)
Definition dashboard (s : dashboard_settings) : run unit :=
  (* side bar *)
  emit (Text "st.title" "Covid Rumours in Historical Context");;
  emit (Text "st.text" "Loading data");;
  emit (Input "st.form" "dashboard_settings");;
  (* [if data_range_start <= data_range_end:] the subsets are selected *)
  emit (Text "st.title" "Dashboard: Tweets Explorer");;
  emit (Text "st.markdown" "Selected tweets and date range");;
  when (bool_decide (data_range_start s > data_range_end s)%Z)
    (emit (Error date_range_error);; stop);;
  emit (Input "st.form" "ngrams_selector");;
  emit (Input "st.selectbox" "selected_taxonomy_category");;
  when (ngramChart s)
    (emit (Text "st.header"
       (if timelineChart s then "Word frequencies and timeline"
        else "Word frequencies"));;
     when (ngramHelp s) (emit (Text "st.markdown" "Help")));;
  when (collocChart s)
    (emit (Text "st.header" "Word collocations");;
     emit (Input "st.multiselect" "selected_collocation_words");;
     emit (Input "st.number_input" "Number of collocates");;
     emit (Input "st.selectbox" "cf_corpus_subset");;
     when (collocHelp s) (emit (Text "st.markdown" "Help")));;
  (* charts *)
  when (ngramChart s)
    (when (some_selected s)
       (when (negb (ngramPointChart s)) (emit (Compute "ngram_line"));;
        when (ngramPointChart s) (emit (Compute "ngram_circle"));;
        (if timelineChart s then emit (Compute "timeline_chart")
         else emit (Compute "ngram_bar")));;
     (if some_selected s then
        emit (Compute "compound_chart");;
        emit (Display "compound_chart");;
        when (ngramData s)
          (emit (Table "selected_unigrams");;
           when (timelineChart s) (emit (Table "selected_timeline_sanitised")))
      else emit (Text "st.info" "No word selected.")));;
  when (collocChart s)
    (when (some_selected s)
       (emit (Compute "collocations");;
        when (compared s) (emit (Compute "cf_collocations"));;
        emit (Compute "collocational_network");;
        when (compared s) (emit (Compute "cf_collocational_network")));;
     (if some_selected s then
        emit (Text "st.markdown" "Collocations in");;
        emit (Display "collocational_network");;
        when (compared s)
          (emit (Text "st.markdown" "Collocations in");;
           emit (Display "cf_collocational_network"));;
        when (collocData s)
          (emit (Table "source_data");;
           when (compared s) (emit (Table "cf_source_data")))
      else emit (Text "st.info" "No words to collocate."))).

(** The script of [pages/About_the_data.py] from the side bar on. *)
Definition about_chart (header chart : string) : run unit :=
  emit (Text "st.header" header);;
  emit (Compute chart);;
  emit (Display chart).

Definition about_the_data (data_range_start data_range_end : Z) : run unit :=
  emit (Text "st.title" "Covid Rumours in Historical Context");;
  emit (Text "st.text" "Loading data");;
  emit (Input "st.form" "metrics_settings");;
  (* [if data_range_start <= data_range_end:] the data are selected *)
  emit (Text "st.title" "About the data");;
  emit (Text "st.markdown" "In total, the corpus contains");;
  emit (Text "st.header" "Summary");;
  emit (Text "st.markdown" "Selected date range");;
  when (bool_decide (data_range_start > data_range_end)%Z)
    (emit (Error date_range_error);; stop);;
  emit (Text "metric" "Tweets");;
  emit (Text "metric" "Retweeted");;
  emit (Text "metric" "Favourited");;
  emit (Text "metric" "Replied");;
  emit (Text "metric" "Quoted");;
  emit (Text "metric" "New user accounts created");;
  about_chart "Tweets" "tweets";;
  about_chart "Retweeted tweets" "retweet_freq";;
  about_chart "Favourites" "favorite_freq";;
  about_chart "Replies" "reply_freq";;
  about_chart "Quotes" "quote_freq";;
  about_chart "Account creation" "account_creation_freq".

(** Settings with the end of the range before its start. *)
Definition reversed_range : dashboard_settings :=
  {| data_range_start := 738000; data_range_end := 737900;
     ngramChart := true; ngramPointChart := false; timelineChart := false;
     ngramData := false; ngramHelp := false;
     collocChart := true; collocData := false; collocHelp := false;
     selected_words := ["truth"; "hoax"]; cf_corpus_subset := None |}.

(** ** load_dataframe *)

(** The names bound at the top level of [Dashboard.py]. *)
Definition module_names : list string :=
  [
    "st"; "components"; "pd"; "alt"; "plt"; "nx"; "yaml"; "uuid";
    "perf_counter"; "Network"; "load_dataframe"; "load_yaml";
    "tidy_taxonomies"; "get_taxonomy_categories"; "get_nx_taxonomies_graph";
    "get_taxonomy_vocabularies"; "get_nx_collocation_graph";
    "get_matplotlib_network"; "get_pyvis_network"; "load_css";
    "data_load_state"; "start"; "df_unigrams"; "df_bigrams"; "df_timeline";
    "dict_taxonomies"; "nx_taxonomies"; "corpus_subset_options";
    "corpus_subset"; "data_range_start"; "data_range_end"; "ngramChart";
    "ngramPointChart"; "timelineChart"; "ngramData"; "ngramHelp";
    "collocChart"; "collocation_type_options"; "collocation_type";
    "collocData"; "collocHelp"; "date_start"; "date_end"; "unigrams";
    "bigrams"; "timeline"; "allwords"; "defaultwords"; "taxonomy_categories";
    "taxonomy_vocabularies"; "selected_words_options";
    "explorer_option_expanded"; "col1"; "col2"; "selected_words";
    "selected_taxonomy_category_options"; "selected_taxonomy_category_index";
    "selected_taxonomy_category"; "ngram_container"; "ngram_chart_container";
    "colloc_container"; "col3"; "selected_collocation_words_options";
    "selected_collocation_words"; "number_of_collocates";
    "cf_corpus_subset_options"; "cf_corpus_subset_index"; "cf_corpus_subset";
    "colloc_chart_container"; "chart_width"; "ngram_mark_opacity";
    "ngram_xscale_domain"; "timeline_xscale_domain"; "ngram_legend_selection";
    "selected_unigrams"; "selected_timeline"; "ngram_line"; "ngram_circle";
    "ngram_chart"; "timeline_point"; "timeline_text"; "timeline_chart";
    "ngram_bar"; "compound_chart"; "selected_timeline_sanitised";
    "visualisation_library"; "words_to_collocate"; "collocations";
    "cf_bigrams"; "cf_collocations"; "collocational_network";
    "cf_collocational_network"; "pyvis_config"; "pyvis_save_path";
    "st_iframe_height"; "node_attributes"; "attributes"; "n";
    "collocational_network_html"; "cf_collocational_network_html";
    "source_data"; "cf_source_data"
  ].

(** The names of the [builtins] module of Python 3. *)
Definition builtin_names : list string :=
  [
    "ArithmeticError"; "AssertionError"; "AttributeError"; "BaseException";
    "BaseExceptionGroup"; "BlockingIOError"; "BrokenPipeError"; "BufferError";
    "BytesWarning"; "ChildProcessError"; "ConnectionAbortedError";
    "ConnectionError"; "ConnectionRefusedError"; "ConnectionResetError";
    "DeprecationWarning"; "EOFError"; "Ellipsis"; "EncodingWarning";
    "EnvironmentError"; "Exception"; "ExceptionGroup"; "False";
    "FileExistsError"; "FileNotFoundError"; "FloatingPointError";
    "FutureWarning"; "GeneratorExit"; "IOError"; "ImportError";
    "ImportWarning"; "IndentationError"; "IndexError"; "InterruptedError";
    "IsADirectoryError"; "KeyError"; "KeyboardInterrupt"; "LookupError";
    "MemoryError"; "ModuleNotFoundError"; "NameError"; "None";
    "NotADirectoryError"; "NotImplemented"; "NotImplementedError"; "OSError";
    "OverflowError"; "PendingDeprecationWarning"; "PermissionError";
    "ProcessLookupError"; "RecursionError"; "ReferenceError";
    "ResourceWarning"; "RuntimeError"; "RuntimeWarning"; "StopAsyncIteration";
    "StopIteration"; "SyntaxError"; "SyntaxWarning"; "SystemError";
    "SystemExit"; "TabError"; "TimeoutError"; "True"; "TypeError";
    "UnboundLocalError"; "UnicodeDecodeError"; "UnicodeEncodeError";
    "UnicodeError"; "UnicodeTranslateError"; "UnicodeWarning"; "UserWarning";
    "ValueError"; "Warning"; "ZeroDivisionError"; "__build_class__";
    "__debug__"; "__doc__"; "__import__"; "__loader__"; "__name__";
    "__package__"; "__spec__"; "abs"; "aiter"; "all"; "anext"; "any"; "ascii";
    "bin"; "bool"; "breakpoint"; "bytearray"; "bytes"; "callable"; "chr";
    "classmethod"; "compile"; "complex"; "copyright"; "credits"; "delattr";
    "dict"; "dir"; "divmod"; "enumerate"; "eval"; "exec"; "exit"; "filter";
    "float"; "format"; "frozenset"; "getattr"; "globals"; "hasattr"; "hash";
    "help"; "hex"; "id"; "input"; "int"; "isinstance"; "issubclass"; "iter";
    "len"; "license"; "list"; "locals"; "map"; "max"; "memoryview"; "min";
    "next"; "object"; "oct"; "open"; "ord"; "pow"; "print"; "property";
    "quit"; "range"; "repr"; "reversed"; "round"; "set"; "setattr"; "slice";
    "sorted"; "staticmethod"; "str"; "sum"; "super"; "tuple"; "type"; "vars";
    "zip"
  ].

(** What a name stands for: a string, or some other object. *)
Inductive value :=
  | VStr (s : string)
  | VObject (name : string).

(** The value of [name] where the local names are [locals]: a local
    name, else a name of the module, else a builtin, else [NameError]. *)
Definition load_name (locals : list (string * value)) (name : string)
    : result value :=
  match (list_to_map locals : gmap string value) !! name with
  | Some v => Ok v
  | None =>
      if decide (name ∈ module_names ++ builtin_names) then Ok (VObject name)
      else Raise (NameError name)
  end.

(** The argument [filepath]: a string, a list, a dictionary or anything else. *)
Inductive filepath_arg :=
  | PathStr (path : string)
  | PathList (paths : list string)
  | PathDict (paths : list (string * string))
  | PathOther.

Section load_dataframe.

(** The tables and the pandas calls of [load_dataframe] are taken as
    they come. *)
Variable DataFrame : Type.
Variable read_csv : value → string → result DataFrame.
Variable reset_index : DataFrame → DataFrame.
Variable concat : list DataFrame → result DataFrame.
Variable set_subset : string → DataFrame → DataFrame.
Variable concat_keys : list DataFrame → list string → result DataFrame.
Variable set_index_subset : DataFrame → DataFrame.

Definition load_dataframe (filepath : filepath_arg) (compression : string)
    : result (option DataFrame) :=
  match filepath with
  | PathStr path =>
      df ← read_csv (VStr path) compression;
      Ok (Some (reset_index df))
  | PathList paths =>
      (* [[pd.read_csv(file, compression=compression) for path in filepath]] *)
      dataframes ← mapM (λ path,
        file ← load_name [("path", VStr path);
                          ("filepath", VObject "filepath");
                          ("compression", VStr compression)] "file";
        read_csv file compression) paths;
      df ← concat dataframes;
      Ok (Some df)
  | PathDict paths =>
      dataframes ← mapM (λ item,
        data ← read_csv (VStr item.2) compression;
        Ok (set_subset item.1 data)) paths;
      df ← concat_keys dataframes paths.*1;
      Ok (Some (set_index_subset df))
  | PathOther => Ok None
  end.

End load_dataframe.

(** [n] has been added to the graph, by [add_node] or as the end of an edge. *)
Definition present (g : nx.DiGraph) (n : nat) : Prop :=
  is_Some (nx.di_succ g !! n).

(** ** Further definitions *)

(** The rows among which [get_nx_collocation_graph] chooses:
    [pd.concat([x_collocates, y_collocates])]. *)
Definition collocate_candidates (bigrams : list bigram) (words : list string)
    : list row :=
  let df := pd.drop_duplicates (pd.drop_date bigrams) in
  let x_collocates := filter (λ r, col_x r ∈ words) df in
  let y_collocates := pd.rename_x_y <$> filter (λ r, col_y r ∈ words) df in
  x_collocates ++ y_collocates.

(** The metric of [r1] is not below the metric of [r2]. *)
Definition metric_ge (type : metric) (r1 r2 : row) : Prop :=
  (cell_Q (column type r2) <= cell_Q (column type r1))%Q.

(** The row [r] is about the pair [u], [v], in one order or the other. *)
Definition row_joins (r : row) (u v : string) : Prop :=
  (col_x r = u ∧ col_y r = v) ∨ (col_x r = v ∧ col_y r = u).

(** ** get_taxonomy_categories *)

Definition is_lower_letter (c : ascii) : bool :=
  (97 <=? nat_of_ascii c) && (nat_of_ascii c <=? 122).

Definition upper_char (c : ascii) : ascii :=
  if is_lower_letter c then ascii_of_nat (nat_of_ascii c - 32) else c.

(** [s.capitalize()]: the first character in upper case, the others in
    lower case. *)
Definition capitalize (s : string) : string :=
  match s with
  | EmptyString => EmptyString
  | String c s => String (upper_char c) (lower s)
  end.

(** [sep.join(l)] *)
Fixpoint join (sep : string) (l : list string) : string :=
  match l with
  | [] => ""
  | [a] => a
  | a :: l => a +:+ sep +:+ join sep l
  end.

(** The list objects of a run, by address.  The parameter [path] of
    [get_taxonomy_categories] holds the address of a list: the call
    [path.clear()] and the call [path.append] change the list at that
    address, for every holder of the address, while the assignment
    [path = path[:...]] makes a new list and changes the variable only. *)
Definition read (h : gmap nat (list string)) (path : nat) : list string :=
  default [] (h !! path).

(** [path[:level]] as a new list object *)
Definition new_list (l : list string) (h : gmap nat (list string))
    : nat * gmap nat (list string) :=
  let address := fresh (dom h) in (address, <[address := l]> h).

(** One turn of the loop of [get_taxonomy_categories]: the dictionary
    [categories], the variable [path] and the list objects before and
    after. *)
Fixpoint taxonomy_category (level : nat) (value : taxonomy)
    (categories : gmap nat string) (path : nat) (h : gmap nat (list string))
    : gmap nat string * nat * gmap nat (list string) :=
  match value with
  | Taxonomy category vocabulary subcategories =>
      let '(categories, path, h) :=
        match category with
        | Some c =>
            let '(path, h) :=
              if decide (level = 0) then (path, <[path := []]> h)
              else if decide (level < length (read h path))
                   then new_list (take level (read h path)) h
                   else (path, h) in
            let h := <[path := read h path ++ [capitalize (name c)]]> h in
            (<[uuid c := join " > " (read h path)]> categories, path, h)
        | None => (categories, path, h)
        end in
      match subcategories with
      | Some data =>
          let '(result, _, h) :=
            (fix loop (data : list taxonomy) (categories : gmap nat string)
                 (path : nat) (h : gmap nat (list string)) :=
               match data with
               | [] => (categories, path, h)
               | value :: data =>
                   let '(categories, path, h) :=
                     taxonomy_category (S level) value categories path h in
                   loop data categories path h
               end) data ∅ path h in
          (* [categories.update(result)] *)
          (result ∪ categories, path, h)
      | None => (categories, path, h)
      end
  end.

Definition taxonomy_categories_loop (level : nat)
    : list taxonomy → gmap nat string → nat → gmap nat (list string) →
      gmap nat string * nat * gmap nat (list string) :=
  fix loop data categories path h :=
    match data with
    | [] => (categories, path, h)
    | value :: data =>
        let '(categories, path, h) :=
          taxonomy_category level value categories path h in
        loop data categories path h
    end.

(** [get_taxonomy_categories(data, path, level)]: the dictionary
    returned and the list objects after the call. *)
Definition get_taxonomy_categories (data : list taxonomy) (path : nat)
    (level : nat) (h : gmap nat (list string))
    : gmap nat string * gmap nat (list string) :=
  let '(categories, _, h) := taxonomy_categories_loop level data ∅ path h in
  (categories, h).

(** The labels as they are meant: the names from the top category down
    to the category, [prefix] being the names above. *)
Fixpoint category_labels (prefix : list string) (value : taxonomy)
    (categories : gmap nat string) : gmap nat string :=
  match value with
  | Taxonomy category vocabulary subcategories =>
      let names :=
        match category with
        | Some c => prefix ++ [capitalize (name c)]
        | None => prefix
        end in
      let categories :=
        match category with
        | Some c => <[uuid c := join " > " names]> categories
        | None => categories
        end in
      match subcategories with
      | Some data =>
          (fix loop (data : list taxonomy) (categories : gmap nat string) :=
             match data with
             | [] => categories
             | value :: data => loop data (category_labels names value categories)
             end) data ∅ ∪ categories
      | None => categories
      end
  end.

Definition category_labels_list (prefix : list string)
    : list taxonomy → gmap nat string → gmap nat string :=
  fix loop data categories :=
    match data with
    | [] => categories
    | value :: data => loop data (category_labels prefix value categories)
    end.

(** The list objects keep their first [level] items. *)
Definition preserved (level : nat) (h h' : gmap nat (list string)) : Prop :=
  ∀ a l, h !! a = Some l → ∃ l', h' !! a = Some l' ∧ take level l' = take level l.

(** A taxonomy of two levels, tidied. *)
Definition vaccines_taxonomy : list taxonomy := tidy_taxonomies vaccines_yaml.

(** The nodes that [get_nx_taxonomies_graph] adds for an entry, with
    their attributes, in the order it adds them. *)
Definition category_attr (c : term) : gmap string string :=
  {[ "label" := name c; "type" := "category" ]}.

Definition vocabulary_attr (word : term) : gmap string string :=
  {[ "label" := name word; "type" := "vocabulary" ]}.

Fixpoint node_items (t : taxonomy) : list (nat * gmap string string) :=
  match t with
  | Taxonomy category vocabulary subcategories =>
      ((λ c, (uuid c, category_attr c)) <$> option_list category) ++
      ((λ word, (uuid word, vocabulary_attr word)) <$> default [] vocabulary) ++
      match subcategories with
      | Some l =>
          (fix items (l : list taxonomy) :=
             match l with
             | [] => []
             | t :: l => node_items t ++ items l
             end) l
      | None => []
      end
  end.

Fixpoint node_items_list (l : list taxonomy) : list (nat * gmap string string) :=
  match l with
  | [] => []
  | t :: l => node_items t ++ node_items_list l
  end.

(** The node dictionary and the successor dictionary have the same keys. *)
Definition consistent (g : nx.DiGraph) : Prop :=
  ∀ n, nx.di_succ g !! n = None ↔ nx.di_node g !! n = None.

(** From [g0] to [g] the nodes [items] have been added, and none removed. *)
Definition built (g0 g : nx.DiGraph) (items : list (nat * gmap string string))
    : Prop :=
  consistent g ∧
  map_to_list (nx.di_node g) ≡ₚ items ++ map_to_list (nx.di_node g0) ∧
  ∀ m, present g0 m → present g m.

(** An entry and the entries below it, at every depth. *)
Fixpoint entries_of (t : taxonomy) : list taxonomy :=
  t ::
  match t with
  | Taxonomy _ _ subcategories =>
      match subcategories with
      | Some l =>
          (fix entries (l : list taxonomy) :=
             match l with
             | [] => []
             | t :: l => entries_of t ++ entries l
             end) l
      | None => []
      end
  end.

Fixpoint entries_of_list (l : list taxonomy) : list taxonomy :=
  match l with
  | [] => []
  | t :: l => entries_of t ++ entries_of_list l
  end.

(** The edges that [get_nx_taxonomies_graph] adds for an entry that is
    processed below [parent]: from the parent to the category, from the
    category to each word of the vocabulary, and those of the
    subcategories below the category. *)
Fixpoint edge_items (parent : option nat) (t : taxonomy) : list (nat * nat) :=
  match t with
  | Taxonomy category vocabulary subcategories =>
      match category with
      | Some c =>
          ((λ p, (p, uuid c)) <$> option_list parent) ++
          ((λ word, (uuid c, uuid word)) <$> default [] vocabulary) ++
          match subcategories with
          | Some l =>
              (fix items (l : list taxonomy) :=
                 match l with
                 | [] => []
                 | t :: l => edge_items (Some (uuid c)) t ++ items l
                 end) l
          | None => []
          end
      | None => []
      end
  end.

Definition edge_items_list (parent : option nat)
    : list taxonomy → list (nat * nat) :=
  fix items (l : list taxonomy) :=
    match l with
    | [] => []
    | t :: l => edge_items parent t ++ items l
    end.

(** From [g0] to [g] the edges [items] have been added, and none removed. *)
Definition linked (g0 g : nx.DiGraph) (items : list (nat * nat)) : Prop :=
  ∀ u v, nx.di_edge g u v ↔ nx.di_edge g0 u v ∨ (u, v) ∈ items.

(** ** The source data of the collocations *)

(** [graph.edges[n][key]] for an edge [n] that [graph.edges()] lists. *)
Definition edge_attribute (key : string)
    (e : string * string * gmap string cell) : result cell :=
  match e.2 !! key with
  | Some x => Ok x
  | None => Raise (KeyError key)
  end.

(** The loop that copies the metric of every edge under the name
    [value]: [attributes[n] = {'value': graph.edges[n][type]}]. *)
Definition edge_values (type : metric) (g : nx.Graph)
    : result (gmap (string * string) (gmap string cell)) :=
  for_each (λ attributes e,
    x ← edge_attribute (metric_name type) e;
    Ok (<[(e.1.1, e.1.2) := {[ "value" := x ]}]> attributes)) (nx.edges g) ∅.

(** [graph[u][v].update(d)], the one step of [nx.set_edge_attributes]:
    the data dictionary of the edge, which [adj[u][v]] and [adj[v][u]]
    share, is updated; a pair that is no edge is passed over. *)
Definition update_edge (g : nx.Graph) (n : string * string)
    (d : gmap string cell) : nx.Graph :=
  match nx.adj g !! n.1 ≫= (.!! n.2) with
  | Some data =>
      let datadict := d ∪ data in
      let adj1 :=
        <[n.1 := <[n.2 := datadict]> (default ∅ (nx.adj g !! n.1))]> (nx.adj g) in
      let adj2 :=
        <[n.2 := <[n.1 := datadict]> (default ∅ (adj1 !! n.2))]> adj1 in
      {| nx.node := nx.node g; nx.adj := adj2 |}
  | None => g
  end.

(** [nx.set_edge_attributes(graph, attributes)] *)
Definition set_edge_attributes
    (attributes : gmap (string * string) (gmap string cell)) (g : nx.Graph)
    : nx.Graph :=
  foldl (λ g nd, update_edge g nd.1 nd.2) g (map_to_list attributes).

(** The table of [nx.to_pandas_edgelist]: a record for every edge, and
    the names of the columns; a record without a value for a column
    has NaN there. *)
Record edgelist := {
  columns : gset string;
  records : list (string * string * gmap string cell)
}.

(** [nx.to_pandas_edgelist(graph)]: the columns are [source], [target]
    and every attribute that some edge has (attributes are taken to
    have other names than these two). *)
Definition to_pandas_edgelist (g : nx.Graph) : edgelist :=
  {| columns := {[ "source"; "target" ]} ∪ ⋃ (dom <$> (nx.edges g).*2);
     records := nx.edges g |}.

(** [df[key]] for a list of column names: a name that is no column
    raises [KeyError]. *)
Definition getitem (key : list string) (df : edgelist) : result edgelist :=
  match filter (λ k, k ∉ columns df) key with
  | [] =>
      Ok {| columns := list_to_set key;
            records := (λ e, (e.1.1, e.1.2, filter (λ kx, kx.1 ∈ key) e.2))
                         <$> records df |}
  | k :: _ => Raise (KeyError k)
  end.

(** The source data table under the collocation network: the graph is
    styled for the display, turned into a table, and the columns
    [source], [target] and the metric are selected. *)
Definition source_data (type : metric) (collocations : nx.Graph)
    : result edgelist :=
  attributes ← edge_values type collocations;
  let collocations := set_edge_attributes attributes collocations in
  getitem ["source"; "target"; metric_name type]
    (to_pandas_edgelist collocations).

(** ** The taxonomy file before it is tidied *)

(** Every entry of the file, at any depth, has a category. *)
Fixpoint yaml_categorised (value : yaml) : Prop :=
  match value with
  | Yaml category vocabulary subcategories =>
      is_Some category ∧
      match subcategories with
      | Some l =>
          (fix all (l : list yaml) : Prop :=
             match l with
             | [] => True
             | value :: l => yaml_categorised value ∧ all l
             end) l
      | None => True
      end
  end.

(** The words that the phrases of an entry, and of the entries below
    it, are made into, in the order of the file. *)
Fixpoint yaml_words (value : yaml) : list string :=
  match value with
  | Yaml category vocabulary subcategories =>
      vocabulary_words (default [] vocabulary) ++
      match subcategories with
      | Some l =>
          (fix words_list (l : list yaml) :=
             match l with
             | [] => []
             | value :: l => yaml_words value ++ words_list l
             end) l
      | None => []
      end
  end.

Fixpoint yaml_words_list (l : list yaml) : list string :=
  match l with
  | [] => []
  | value :: l => yaml_words value ++ yaml_words_list l
  end.

(** ** tidy_taxonomies: the steps of one turn *)

(** [taxonomy['category'] = {'name': ..., 'uuid': ...}], when the entry
    has a category. *)
Definition draw_category (category : option string) (next : nat)
    : option term * nat :=
  match category with
  | Some c => (Some (Term (lower c) next), S next)
  | None => (None, next)
  end.

(** The loops over [value['vocabulary']], when the entry has one. *)
Definition draw_vocabulary (vocabulary : option (list string)) (next : nat)
    : option (list term) * nat :=
  match vocabulary with
  | Some strings =>
      (Some (draw_uuids (vocabulary_words strings) next),
       next + length (vocabulary_words strings))
  | None => (None, next)
  end.

(** A taxonomy in which two categories have equal subcategories. *)
Definition shared_yaml : list yaml :=
  [ Yaml (Some "Conspiracy") None
         (Some [ Yaml (Some "Other") (Some ["misc"]) None ]);
    Yaml (Some "Vaccines") None
         (Some [ Yaml (Some "Other") (Some ["misc"]) None ]) ].

(** No call for one of [calls] is answered from the cache of [s]. *)
Definition misses (calls : list (list yaml)) (s : tidy_state) : Prop :=
  ∀ l, l ∈ calls → cache_get l (tidy_cache s) = None.

(** What a list that [tidy_taxonomies] returns has of its argument. *)
Definition shape_of (data : list yaml) (processed : list taxonomy) : Prop :=
  length processed = length data ∧
  words_of_list processed = yaml_words_list data ∧
  (Forall categorised processed ↔ Forall yaml_categorised data).

(** Every list in the cache has the shape of its argument. *)
Definition cache_sound (s : tidy_state) : Prop :=
  Forall (λ kv, shape_of kv.1 kv.2) (tidy_cache s).

(** * Properties *)

(** ** The adjacency dictionary under [add_node] and [add_edge] *)

Lemma lookup_add_node n g u v :
  nx.adj (nx.add_node n g) !! u ≫= (.!! v) = nx.adj g !! u ≫= (.!! v).
Proof.
  unfold nx.add_node. destruct (nx.adj g !! n) eqn:E; simpl; [done|].
  destruct (decide (n = u)) as [->|Hne].
  - by rewrite lookup_insert_eq, E.
  - by rewrite lookup_insert_ne.
Qed.

Lemma edge_data_add_node n g u v :
  nx.edge_data (nx.add_node n g) u v = nx.edge_data g u v.
Proof. unfold nx.edge_data. by rewrite lookup_add_node. Qed.

Lemma lookup_add_edge a b attr g u v :
  nx.adj (nx.add_edge a b attr g) !! u ≫= (.!! v) =
    if decide ((u = a ∧ v = b) ∨ (u = b ∧ v = a))
    then Some (attr ∪ nx.edge_data g a b)
    else nx.adj g !! u ≫= (.!! v).
Proof.
  unfold nx.add_edge. simpl.
  rewrite !edge_data_add_node.
  set (g2 := nx.add_node b (nx.add_node a g)).
  assert (Hg2 : ∀ u v, nx.adj g2 !! u ≫= (.!! v) = nx.adj g !! u ≫= (.!! v)).
  { intros. unfold g2. by rewrite !lookup_add_node. }
  rewrite <- (Hg2 u v). clearbody g2.
  set (d := attr ∪ nx.edge_data g a b).
  destruct (decide (u = b)) as [->|Hub].
  - rewrite lookup_insert_eq. simpl.
    destruct (decide (v = a)) as [->|Hva].
    + rewrite lookup_insert_eq. by rewrite decide_True by auto.
    + rewrite lookup_insert_ne by done.
      destruct (decide (b = a)) as [->|Hba].
      * rewrite lookup_insert_eq. simpl. rewrite lookup_insert_ne by done.
        rewrite decide_False by intuition congruence.
        destruct (nx.adj g2 !! a); done.
      * rewrite lookup_insert_ne by done.
        rewrite decide_False by intuition congruence.
        destruct (nx.adj g2 !! b); done.
  - rewrite lookup_insert_ne by done.
    destruct (decide (u = a)) as [->|Hua].
    + rewrite lookup_insert_eq. simpl.
      destruct (decide (v = b)) as [->|Hvb].
      * rewrite lookup_insert_eq. by rewrite decide_True by auto.
      * rewrite lookup_insert_ne by done.
        rewrite decide_False by intuition congruence.
        destruct (nx.adj g2 !! a); done.
    + rewrite lookup_insert_ne by done.
      by rewrite decide_False by intuition congruence.
Qed.

Lemma has_edge_add_edge a b attr g u v :
  nx.has_edge (nx.add_edge a b attr g) u v ↔
    nx.has_edge g u v ∨ (u = a ∧ v = b) ∨ (u = b ∧ v = a).
Proof.
  unfold nx.has_edge. rewrite lookup_add_edge.
  case_decide; [|intuition congruence].
  split; [auto|]. intros _. by eexists.
Qed.

Lemma has_edge_from_rows type df g u v :
  nx.has_edge (foldl (λ g r, nx.add_edge (col_x r) (col_y r)
                 {[ metric_name type := column type r ]} g) g df) u v ↔
    nx.has_edge g u v ∨
    ∃ r, r ∈ df ∧ ((col_x r = u ∧ col_y r = v) ∨ (col_x r = v ∧ col_y r = u)).
Proof.
  revert g. induction df as [|r df IH]; intros g; simpl.
  - split; [auto|]. intros [H|(r & Hr & _)]; [done|]. by apply elem_of_nil in Hr.
  - rewrite IH, has_edge_add_edge. split.
    + intros [[H|H]|(r' & Hr' & H)]; [by left| |].
      * right. exists r. split; [left|]. intuition congruence.
      * right. exists r'. split; [by right|done].
    + intros [H|(r' & Hr' & H)]; [by left; left|].
      apply elem_of_cons in Hr' as [->|Hr'].
      * left. right. intuition congruence.
      * right. by exists r'.
Qed.

Lemma no_edge_nodes_only words g u v :
  nx.has_edge (foldl (λ graph word, nx.add_node word graph) g words) u v ↔
    nx.has_edge g u v.
Proof.
  revert g. induction words as [|w words IH]; intros g; simpl; [done|].
  rewrite IH. unfold nx.has_edge. by rewrite lookup_add_node.
Qed.

Lemma has_edge_empty u v : ¬ nx.has_edge nx.empty u v.
Proof. unfold nx.has_edge. simpl. rewrite lookup_empty. simpl. by intros [? ?]. Qed.

(** The edges of the collocation graph are the pairs of [df_collocates]. *)
Lemma has_edge_collocation bigrams words type top u v :
  nx.has_edge (get_nx_collocation_graph bigrams words type top) u v ↔
    ∃ r, r ∈ df_collocates bigrams words type top ∧
         ((col_x r = u ∧ col_y r = v) ∨ (col_x r = v ∧ col_y r = u)).
Proof.
  unfold get_nx_collocation_graph.
  destruct (df_collocates bigrams words type top) as [|r df] eqn:E.
  - rewrite no_edge_nodes_only. split.
    + intros H. by apply has_edge_empty in H.
    + intros (r & Hr & _). by apply elem_of_nil in Hr.
  - unfold nx.from_pandas_edgelist. rewrite has_edge_from_rows.
    split; [|auto]. intros [H|H]; [|done]. by apply has_edge_empty in H.
Qed.

Lemma elem_of_collocates_of df u v :
  v ∈ collocates_of df u ↔ ∃ r, r ∈ df ∧ col_x r = u ∧ col_y r = v.
Proof.
  unfold collocates_of. rewrite list_elem_of_fmap. split.
  - intros (r & -> & Hr). apply list_elem_of_filter in Hr as [? ?]. eauto.
  - intros (r & Hr & Hx & Hy). exists r. split; [done|].
    by apply list_elem_of_filter.
Qed.

(** ** The table operations *)

Lemma elem_of_drop_duplicates_from seen df r :
  r ∈ pd.drop_duplicates_from seen df → r ∈ df.
Proof.
  revert seen. induction df as [|r' df IH]; intros seen; simpl; [done|].
  case_decide.
  - intros H'. right. eauto.
  - intros [->|H']%elem_of_cons; [left|right; eauto].
Qed.

Lemma elem_of_insert_sorted type a df r :
  r ∈ pd.insert_sorted type a df ↔ r = a ∨ r ∈ df.
Proof.
  induction df as [|r' df IH]; simpl.
  - rewrite list_elem_of_singleton, elem_of_nil. tauto.
  - destruct (pd.precedes type a r').
    + by rewrite elem_of_cons.
    + rewrite !elem_of_cons, IH. tauto.
Qed.

Lemma elem_of_sort_values type df r : r ∈ pd.sort_values type df ↔ r ∈ df.
Proof.
  unfold pd.sort_values. induction df as [|r' df IH]; simpl; [done|].
  by rewrite elem_of_insert_sorted, elem_of_cons, IH.
Qed.

Lemma elem_of_head_first n seen df r : r ∈ pd.head_first n seen df → r ∈ df.
Proof.
  revert seen. induction df as [|r' df IH]; intros seen; simpl; [done|].
  case_decide.
  - intros [->|H']%elem_of_cons; [left|right; eauto].
  - intros H'. right. eauto.
Qed.

Lemma elem_of_head_but_last k df r : r ∈ pd.head_but_last k df → r ∈ df.
Proof.
  induction df as [|r' df IH]; simpl; [done|].
  case_decide.
  - intros [->|H']%elem_of_cons; [left|right; eauto].
  - intros H'. right. eauto.
Qed.

Lemma elem_of_groupby_x_head n df r : r ∈ pd.groupby_x_head n df → r ∈ df.
Proof.
  unfold pd.groupby_x_head. case_decide.
  - apply elem_of_head_first.
  - apply elem_of_head_but_last.
Qed.

Lemma group_size_cons w r df :
  pd.group_size w (r :: df) =
    if decide (col_x r = w) then S (pd.group_size w df) else pd.group_size w df.
Proof. unfold pd.group_size. rewrite filter_cons. by case_decide. Qed.

(** [head(n)] leaves at most [n] rows in every group, counting the rows
    of the group that came before. *)
Lemma group_size_head_first n seen df w :
  pd.group_size w (pd.head_first n seen df) ≤ n - pd.group_size w seen.
Proof.
  revert seen. induction df as [|r df IH]; intros seen; cbn [pd.head_first].
  - unfold pd.group_size. simpl. lia.
  - specialize (IH (r :: seen)). rewrite group_size_cons in IH.
    destruct (decide (pd.group_size (col_x r) seen < n)) as [Hlt|Hge].
    + rewrite group_size_cons.
      destruct (decide (col_x r = w)) as [<-|Hx]; lia.
    + destruct (decide (col_x r = w)) as [<-|Hx]; lia.
Qed.

Lemma group_size_groupby_x_head n df w :
  (0 ≤ n)%Z → (Z.of_nat (pd.group_size w (pd.groupby_x_head n df)) ≤ n)%Z.
Proof.
  intros Hn. unfold pd.groupby_x_head. rewrite decide_True by done.
  pose proof (group_size_head_first (Z.to_nat n) [] df w). lia.
Qed.

(** Every row of [df_collocates] has a focus word in column [x], and is a
    row of the table, as it stands or with its two words exchanged. *)
Lemma df_collocates_source bigrams words type top r :
  r ∈ df_collocates bigrams words type top →
  col_x r ∈ words ∧
  ∃ b, b ∈ bigrams ∧ (r = col_rest b ∨ r = pd.rename_x_y (col_rest b)).
Proof.
  unfold df_collocates. intros H%elem_of_groupby_x_head.
  apply elem_of_sort_values in H. apply elem_of_app in H as [H|H].
  - apply list_elem_of_filter in H as [Hx H].
    apply elem_of_drop_duplicates_from in H.
    apply list_elem_of_fmap in H as (b & -> & Hb). eauto.
  - apply list_elem_of_fmap in H as (r' & -> & H).
    apply list_elem_of_filter in H as [Hy H].
    apply elem_of_drop_duplicates_from in H.
    apply list_elem_of_fmap in H as (b & -> & Hb). eauto.
Qed.

Lemma collocates_of_length df w :
  length (collocates_of df w) = pd.group_size w df.
Proof. unfold collocates_of, pd.group_size. by rewrite length_fmap. Qed.

(** ** A neighbour shared by many focus words *)

Lemma filter_at_most_one {A} (P : A → Prop) `{!∀ x, Decision (P x)} (l : list A) :
  NoDup l → (∀ a b, a ∈ l → b ∈ l → P a → P b → a = b) →
  length (filter P l) ≤ 1.
Proof.
  induction 1 as [|a l Hnotin Hnd IH]; intros Huniq; [simpl; lia|].
  rewrite filter_cons. destruct (decide (P a)) as [Ha|Ha].
  - destruct (filter P l) as [|b l'] eqn:E; [simpl; lia|exfalso].
    assert (Hb : b ∈ filter P l) by (rewrite E; left).
    apply list_elem_of_filter in Hb as [HPb Hb].
    assert (a = b) by (apply Huniq; [left|by right|done|done]).
    by subst b.
  - apply IH. intros b c Hb Hc. apply Huniq; by right.
Qed.

Lemma drop_duplicates_from_NoDup seen df :
  NoDup df → (∀ r, r ∈ df → r ∉ seen) → pd.drop_duplicates_from seen df = df.
Proof.
  intros Hnd. revert seen. induction Hnd as [|r df Hr Hnd IH]; intros seen Hseen;
    simpl; [done|].
  rewrite decide_False by (apply Hseen; left).
  f_equal. apply IH. intros r' Hr' [->|?]%elem_of_cons; [done|].
  by apply (Hseen r'); [right|].
Qed.

Lemma filter_all {A} (P : A → Prop) `{!∀ x, Decision (P x)} (l : list A) :
  Forall P l → filter P l = l.
Proof.
  induction 1 as [|a l Ha _ IH]; [done|].
  by rewrite filter_cons, decide_True, IH.
Qed.

Lemma filter_none {A} (P : A → Prop) `{!∀ x, Decision (P x)} (l : list A) :
  Forall (λ a, ¬ P a) l → filter P l = [].
Proof.
  induction 1 as [|a l Ha _ IH]; [done|].
  by rewrite filter_cons, decide_False, IH.
Qed.

Lemma insert_sorted_perm type r df : pd.insert_sorted type r df ≡ₚ r :: df.
Proof.
  induction df as [|r' df IH]; simpl; [done|].
  destruct (pd.precedes type r r'); [done|].
  rewrite IH. apply Permutation_swap.
Qed.

Lemma sort_values_perm type df : pd.sort_values type df ≡ₚ df.
Proof.
  unfold pd.sort_values. induction df as [|r df IH]; simpl; [done|].
  by rewrite insert_sorted_perm, IH.
Qed.

(** [head(n)] keeps the rows of the groups of at most [n] rows. *)
Lemma head_first_keeps n seen df r :
  r ∈ df →
  pd.group_size (col_x r) seen + pd.group_size (col_x r) df ≤ n →
  r ∈ pd.head_first n seen df.
Proof.
  revert seen. induction df as [|r' df IH]; intros seen Hr Hn;
    [by apply elem_of_nil in Hr|].
  rewrite group_size_cons in Hn. cbn [pd.head_first].
  apply elem_of_cons in Hr as [->|Hr].
  - rewrite decide_True in Hn by done. rewrite decide_True by lia. left.
  - assert (r ∈ pd.head_first n (r' :: seen) df).
    { apply IH; [done|]. rewrite group_size_cons.
      destruct (decide (col_x r' = col_x r)); lia. }
    destruct (decide (pd.group_size (col_x r') seen < n)); [by right|done].
Qed.

(** The table of collocates of the star table is the star itself. *)
Lemma df_collocates_star ws n type top r :
  NoDup ws → n ∉ ws → (1 ≤ top)%Z →
  r ∈ df_collocates (star_bigrams ws n) ws type top ↔
    ∃ w, w ∈ ws ∧ r = star_row n w.
Proof.
  intros Hnd Hn Htop.
  set (rows := star_row n <$> ws).
  assert (Hrows : pd.drop_date (star_bigrams ws n) = rows).
  { unfold pd.drop_date, star_bigrams, rows. by rewrite <- list_fmap_compose. }
  assert (Hin : ∀ r, r ∈ rows ↔ ∃ w, w ∈ ws ∧ r = star_row n w).
  { intros r'. unfold rows. rewrite list_elem_of_fmap. naive_solver. }
  assert (Hndr : NoDup rows).
  { apply NoDup_fmap_2; [|done]. by intros w w' [=]. }
  rewrite <- Hin. unfold df_collocates. rewrite Hrows.
  assert (Hdup : pd.drop_duplicates rows = rows).
  { apply drop_duplicates_from_NoDup; [done|intros; apply not_elem_of_nil]. }
  rewrite Hdup.
  rewrite (filter_all (λ r, col_x r ∈ ws) rows), (filter_none (λ r, col_y r ∈ ws) rows).
  2: { apply Forall_forall. by intros r' (w & Hw & ->)%Hin. }
  2: { apply Forall_forall. by intros r' (w & Hw & ->)%Hin. }
  simpl. rewrite app_nil_r. split.
  - intros Hr%elem_of_groupby_x_head. by apply elem_of_sort_values in Hr.
  - intros Hr. unfold pd.groupby_x_head. rewrite decide_True by lia.
    apply head_first_keeps; [by apply elem_of_sort_values|].
    assert (pd.group_size (col_x r) rows ≤ 1).
    { apply filter_at_most_one; [done|].
      intros a b (w & _ & ->)%Hin (w' & _ & ->)%Hin. simpl. congruence. }
    assert (pd.group_size (col_x r) (pd.sort_values type rows) =
            pd.group_size (col_x r) rows).
    { unfold pd.group_size. by rewrite (sort_values_perm type rows). }
    assert (pd.group_size (col_x r) [] = 0) by done.
    lia.
Qed.

(** With [top] at least 1, the shared neighbour of a star has as many
    edges as there are focus words. *)
Lemma degree_star ws n type top :
  NoDup ws → n ∉ ws → (1 ≤ top)%Z →
  nx.degree (get_nx_collocation_graph (star_bigrams ws n) ws type top) n =
    length ws.
Proof.
  intros Hnd Hn Htop.
  set (g := get_nx_collocation_graph (star_bigrams ws n) ws type top).
  assert (Hedge : ∀ v, nx.has_edge g n v ↔ v ∈ ws).
  { intros v. unfold g. rewrite has_edge_collocation. split.
    - intros (r & Hr & Hxy).
      apply df_collocates_star in Hr as (w & Hw & ->); [|done..].
      simpl in Hxy. destruct Hxy as [[? ?]|[? ?]]; congruence.
    - intros Hv. exists (star_row n v). split; [|by right].
      apply df_collocates_star; eauto. }
  unfold nx.degree. unfold nx.has_edge in Hedge.
  destruct (nx.adj g !! n) as [nbrs|] eqn:E; simpl in *.
  - assert (Hdom : dom nbrs = list_to_set ws).
    { apply set_eq. intros v.
      by rewrite elem_of_dom, Hedge, elem_of_list_to_set. }
    rewrite <- size_dom, Hdom, size_list_to_set by done.
    rewrite decide_False by (by rewrite Hedge). lia.
  - destruct ws as [|w ws']; [simpl|].
    + rewrite map_size_empty, lookup_empty.
      rewrite decide_False by (by intros [? ?]). done.
    + assert (Hw : is_Some (None : option (gmap string cell)))
        by (apply (Hedge w); left).
      by destruct Hw.
Qed.

Lemma numbered_words_NoDup k : NoDup (numbered_words k).
Proof.
  unfold numbered_words. apply NoDup_fmap_2; [|apply NoDup_seq].
  intros i j [= Hij]. by apply (inj pretty) in Hij.
Qed.

Lemma numbered_words_length k : length (numbered_words k) = k.
Proof. unfold numbered_words. by rewrite length_fmap, length_seq. Qed.

Lemma numbered_words_other k : "n" ∉ numbered_words k.
Proof.
  unfold numbered_words. by intros (i & [=] & _)%list_elem_of_fmap.
Qed.

(** ** Collocation graphs: the bound of [top] *)

(** C1. For every bigram table, focus-word list, metric and neighbour
    count [top] (a count, so not negative), every focus word contributes
    at most [top] collocates from the source column, only focus words
    contribute any, and the edges of the graph returned by
    [get_nx_collocation_graph] are exactly these contributions: [u] and
    [v] are joined when [v] is one of the collocates of [u] or [u] one of
    the collocates of [v].  The degree of a node is not bounded by [top]:
    for every [top] from 1 on there is a table in which a neighbour
    shared by [top + 1] focus words has a degree above [top]; with
    [top = 1], a neighbour shared by two focus words has degree 2. *)
Theorem top_bounds_collocates_per_focus_word :
  (∀ (bigrams : list bigram) (words : list string) (type : metric) (top : Z),
     (0 ≤ top)%Z →
     let df := df_collocates bigrams words type top in
     let graph := get_nx_collocation_graph bigrams words type top in
     (∀ w, (Z.of_nat (length (collocates_of df w)) ≤ top)%Z) ∧
     (∀ w, w ∉ words → collocates_of df w = []) ∧
     (∀ u v, nx.has_edge graph u v ↔
               v ∈ collocates_of df u ∨ u ∈ collocates_of df v)) ∧
  (∀ (type : metric) (top : Z), (1 ≤ top)%Z →
     ∃ (bigrams : list bigram) (words : list string) (n : string),
       (n ∉ words) ∧
       (top < Z.of_nat (nx.degree
                 (get_nx_collocation_graph bigrams words type top) n))%Z) ∧
  (let graph := get_nx_collocation_graph shared_neighbour_bigrams
                  ["truth"; "lies"] f_xy 1 in
   nx.degree graph "truth" = 1 ∧ nx.degree graph "lies" = 1 ∧
   nx.degree graph "hoax" = 2).
Proof.
  split; [|split].
  - intros bigrams words type top Htop df graph. split; [|split].
    + intros w. rewrite collocates_of_length.
      by apply group_size_groupby_x_head.
    + intros w Hw. destruct (collocates_of df w) as [|v l] eqn:E; [done|].
      assert (Hv : v ∈ collocates_of df w) by (rewrite E; left).
      apply elem_of_collocates_of in Hv as (r & Hr & Hx & _).
      apply df_collocates_source in Hr as [Hr _]. congruence.
    + intros u v. unfold graph. rewrite has_edge_collocation.
      rewrite !elem_of_collocates_of. fold df. split.
      * intros (r & Hr & [[? ?]|[? ?]]); [left|right]; eauto.
      * intros [(r & Hr & ? & ?)|(r & Hr & ? & ?)]; exists r; auto.
  - intros type top Htop.
    set (words := numbered_words (S (Z.to_nat top))).
    exists (star_bigrams words "n"), words, "n".
    split; [apply numbered_words_other|].
    rewrite degree_star;
      [|apply numbered_words_NoDup|apply numbered_words_other|done].
    unfold words. rewrite numbered_words_length. lia.
  - repeat split; by vm_compute.
Qed.

Lemma top_bounds_collocates_per_focus_word_witness :
  (0 ≤ 1)%Z ∧
  (Z.of_nat (length (collocates_of
      (df_collocates scenario_bigrams ["truth"] f_xy 1) "truth")) ≤ 1)%Z.
Proof.
  split; [lia|].
  apply (proj1 top_bounds_collocates_per_focus_word
           scenario_bigrams ["truth"] f_xy 1%Z); lia.
Defined.

(** ** Collocation graphs: focus words without collocates *)

Lemma node_add_nodes words g :
  nx.node (foldl (λ graph word, nx.add_node word graph) g words) =
    list_to_set words ∪ nx.node g.
Proof.
  revert g. induction words as [|w words IH]; intros g; simpl.
  - set_solver.
  - rewrite IH. unfold nx.add_node. destruct (nx.adj g !! w); simpl; set_solver.
Qed.

Lemma adj_add_nodes words g n :
  nx.adj (foldl (λ graph word, nx.add_node word graph) g words) !! n =
    match nx.adj g !! n with
    | Some nbrs => Some nbrs
    | None => if decide (n ∈ words) then Some ∅ else None
    end.
Proof.
  revert g. induction words as [|w words IH]; intros g; simpl.
  - by destruct (nx.adj g !! n).
  - rewrite IH. unfold nx.add_node.
    destruct (nx.adj g !! w) eqn:Ew; simpl.
    + destruct (nx.adj g !! n) eqn:En; [done|].
      assert (n ≠ w) by congruence.
      apply decide_ext. rewrite elem_of_cons. intuition congruence.
    + destruct (decide (w = n)) as [->|Hne].
      * rewrite lookup_insert_eq, Ew. rewrite decide_True; [done|left].
      * rewrite lookup_insert_ne by done.
        destruct (nx.adj g !! n); [done|].
        apply decide_ext. rewrite elem_of_cons. intuition congruence.
Qed.

Lemma edges_from_isolated seen items :
  Forall (λ item, item.2 = ∅) items → nx.edges_from seen items = [].
Proof.
  intros H. revert seen. induction H as [|[n nbrs] items Hn _ IH]; intros seen.
  - done.
  - simpl in *. subst nbrs. rewrite IH. unfold nx.edges_of.
    by rewrite map_to_list_empty.
Qed.

Lemma df_collocates_no_match bigrams words type top :
  (∀ b, b ∈ bigrams →
        (col_x (col_rest b) ∉ words) ∧ (col_y (col_rest b) ∉ words)) →
  df_collocates bigrams words type top = [].
Proof.
  intros Hno. destruct (df_collocates bigrams words type top) as [|r df] eqn:E;
    [done|exfalso].
  assert (Hr : r ∈ df_collocates bigrams words type top) by (rewrite E; left).
  apply df_collocates_source in Hr as (Hx & b & Hb & [->| ->]);
    apply Hno in Hb as [? ?]; done.
Qed.

(** C2. When no row of the bigram table has a focus word in column [x] or
    in column [y], the graph returned by [get_nx_collocation_graph] has
    the focus words as its nodes and nothing else, every focus word is
    isolated (no neighbour, degree 0), and the graph has no edge. *)
Theorem no_match_gives_isolated_focus_words
    (bigrams : list bigram) (words : list string) (type : metric) (top : Z) :
  (∀ b, b ∈ bigrams →
        (col_x (col_rest b) ∉ words) ∧ (col_y (col_rest b) ∉ words)) →
  let graph := get_nx_collocation_graph bigrams words type top in
  nx.node graph = list_to_set words ∧
  dom (nx.adj graph) = list_to_set words ∧
  (∀ w, w ∈ words → nx.adj graph !! w = Some ∅ ∧ nx.degree graph w = 0) ∧
  nx.edges graph = [] ∧
  (∀ u v, ¬ nx.has_edge graph u v).
Proof.
  intros Hno graph.
  assert (Hg : graph = foldl (λ graph word, nx.add_node word graph) nx.empty words).
  { unfold graph, get_nx_collocation_graph.
    by rewrite df_collocates_no_match. }
  assert (Hadj : ∀ n, nx.adj graph !! n = if decide (n ∈ words) then Some ∅ else None).
  { intros n. rewrite Hg, adj_add_nodes. simpl. by rewrite lookup_empty. }
  split; [|split; [|split; [|split]]].
  - rewrite Hg, node_add_nodes. simpl. set_solver.
  - apply set_eq. intros n. rewrite elem_of_dom, Hadj, elem_of_list_to_set.
    case_decide; split; intros H'; done.
  - intros w Hw. unfold nx.degree. rewrite Hadj, decide_True by done.
    split; [done|]. simpl. rewrite map_size_empty, lookup_empty.
    rewrite decide_False; [done|]. by intros [? ?].
  - unfold nx.edges. apply edges_from_isolated. apply Forall_forall.
    intros [n nbrs] Hin%elem_of_map_to_list. rewrite Hadj in Hin.
    case_decide; simpl; congruence.
  - intros u v. rewrite Hg, no_edge_nodes_only. apply has_edge_empty.
Qed.

Lemma no_match_gives_isolated_focus_words_witness :
  nx.node (get_nx_collocation_graph scenario_bigrams ["zzz_not_present"] pmi 7)
    = {["zzz_not_present"]} ∧
  nx.edges (get_nx_collocation_graph scenario_bigrams ["zzz_not_present"] pmi 7)
    = [].
Proof.
  assert (Hno : ∀ b, b ∈ scenario_bigrams →
            (col_x (col_rest b) ∉ ["zzz_not_present"]) ∧
            (col_y (col_rest b) ∉ ["zzz_not_present"])).
  { intros b Hb. unfold scenario_bigrams in Hb.
    rewrite !elem_of_cons, elem_of_nil in Hb.
    destruct Hb as [->|[->|[]]]; simpl;
      rewrite !list_elem_of_singleton; split; discriminate. }
  destruct (no_match_gives_isolated_focus_words
              scenario_bigrams ["zzz_not_present"] pmi 7 Hno)
    as (Hnode & _ & _ & Hedges & _).
  split; [|exact Hedges].
  rewrite Hnode. simpl. apply set_eq. intros n. set_solver.
Defined.

(** ** Collocation graphs: the scenario of the specification *)

(** C3. On the table with rows (truth, hoax, 5, 1.2) and
    (hoax, lies, 9, 0.4), the focus word truth, the metric [f_xy] and
    [top = 1], [get_nx_collocation_graph] returns the graph with the
    nodes truth and hoax and the single edge truth - hoax, whose data is
    [f_xy = 5]. *)
Theorem scenario_truth_hoax :
  let graph := get_nx_collocation_graph scenario_bigrams ["truth"] f_xy 1 in
  nx.node graph = {["truth"; "hoax"]} ∧
  dom (nx.adj graph) = {["truth"; "hoax"]} ∧
  nx.edges graph = [("truth", "hoax", {["f_xy" := CInt 5]})] ∧
  nx.edge_data graph "truth" "hoax" = {["f_xy" := CInt 5]} ∧
  nx.edge_data graph "hoax" "truth" = {["f_xy" := CInt 5]} ∧
  nx.degree graph "truth" = 1 ∧ nx.degree graph "hoax" = 1.
Proof. repeat split; by vm_compute. Qed.

(** ** Collocation graphs: one edge for each pair *)

Lemma length_filter_fmap {A B} (f : A → B) (P : B → Prop)
    `{!∀ y, Decision (P y)} (l : list A) :
  length (filter P (f <$> l)) = length (filter (λ a, P (f a)) l).
Proof.
  induction l as [|a l IH]; [done|].
  rewrite fmap_cons, !filter_cons. destruct (decide (P (f a))); simpl; lia.
Qed.

Lemma elem_of_edges_of seen n nbrs a b d :
  (a, b, d) ∈ nx.edges_of seen n nbrs ↔ a = n ∧ nbrs !! b = Some d ∧ b ∉ seen.
Proof.
  unfold nx.edges_of. rewrite list_elem_of_fmap. split.
  - intros ([w d'] & [= -> -> ->] & H). simpl in *.
    apply list_elem_of_filter in H as [Hseen H]. simpl in *.
    by apply elem_of_map_to_list in H.
  - intros (-> & Hb & Hseen). exists (b, d). split; [done|].
    apply list_elem_of_filter. split; [done|]. by apply elem_of_map_to_list.
Qed.

Lemma edges_of_at_most_one seen n nbrs u v :
  length (filter (joins u v) (nx.edges_of seen n nbrs)) ≤ 1.
Proof.
  unfold nx.edges_of. rewrite length_filter_fmap.
  apply filter_at_most_one.
  - apply NoDup_filter, NoDup_map_to_list.
  - intros [w d] [w' d'] [_ Hw]%list_elem_of_filter [_ Hw']%list_elem_of_filter.
    apply elem_of_map_to_list in Hw, Hw'. unfold joins. simpl. intros Hj Hj'.
    assert (w = w') as <- by intuition congruence.
    congruence.
Qed.

(** An edge reported by the nodes of [items] starts at one of them and
    ends outside [seen]. *)
Lemma edges_from_ends seen items a b d :
  (a, b, d) ∈ nx.edges_from seen items → a ∈ items.*1 ∧ b ∉ seen.
Proof.
  revert seen. induction items as [|[n nbrs] items IH]; intros seen; simpl.
  - by intros ?%elem_of_nil.
  - intros [H|H]%elem_of_app.
    + apply elem_of_edges_of in H as (-> & _ & ?). split; [left|done].
    + apply IH in H as [? Hb]. split; [by right|].
      intros ?. apply Hb. by right.
Qed.

Lemma edges_from_at_most_one seen items u v :
  NoDup items.*1 →
  length (filter (joins u v) (nx.edges_from seen items)) ≤ 1.
Proof.
  revert seen. induction items as [|[n nbrs] items IH]; intros seen Hnd; simpl.
  - lia.
  - apply NoDup_cons in Hnd as [Hn Hnd].
    rewrite filter_app, length_app.
    pose proof (edges_of_at_most_one seen n nbrs u v) as Hhead.
    pose proof (IH (n :: seen) Hnd) as Htail.
    destruct (decide (n = u ∨ n = v)) as [Hnuv|Hnuv].
    + (* the later nodes report no edge that touches [n] *)
      destruct (filter (joins u v) (nx.edges_from (n :: seen) items))
        as [|[[a b] d] l] eqn:E; [simpl; lia|exfalso].
      assert (He : (a, b, d) ∈ filter (joins u v) (nx.edges_from (n :: seen) items))
        by (rewrite E; left).
      apply list_elem_of_filter in He as [Hj He].
      apply edges_from_ends in He as [Ha Hb].
      assert (b ≠ n) by (intros ->; apply Hb; left).
      assert (a ≠ n) by (intros ->; done).
      unfold joins in Hj. simpl in Hj. intuition congruence.
    + (* the edges that [n] reports all start at [n] *)
      destruct (filter (joins u v) (nx.edges_of seen n nbrs))
        as [|[[a b] d] l] eqn:E; [simpl; lia|exfalso].
      assert (He : (a, b, d) ∈ filter (joins u v) (nx.edges_of seen n nbrs))
        by (rewrite E; left).
      apply list_elem_of_filter in He as [Hj He].
      apply elem_of_edges_of in He as (-> & _ & _).
      unfold joins in Hj. simpl in Hj. intuition congruence.
Qed.

Lemma edges_between_at_most_one g u v : length (edges_between g u v) ≤ 1.
Proof.
  unfold edges_between, nx.edges. apply edges_from_at_most_one.
  apply NoDup_fst_map_to_list.
Qed.

Lemma undirected_empty : undirected nx.empty.
Proof. intros u v. simpl. by rewrite !lookup_empty. Qed.

Lemma undirected_add_node n g : undirected g → undirected (nx.add_node n g).
Proof. intros Hg u v. by rewrite !lookup_add_node. Qed.

Lemma undirected_add_edge a b attr g :
  undirected g → undirected (nx.add_edge a b attr g).
Proof.
  intros Hg u v. rewrite !lookup_add_edge, Hg.
  apply decide_ext. tauto.
Qed.

Lemma undirected_collocation bigrams words type top :
  undirected (get_nx_collocation_graph bigrams words type top).
Proof.
  unfold get_nx_collocation_graph.
  destruct (df_collocates bigrams words type top) as [|r df].
  - generalize nx.empty, undirected_empty.
    induction words as [|w words IH]; intros g Hg; simpl; [done|].
    by apply IH, undirected_add_node.
  - unfold nx.from_pandas_edgelist.
    generalize (r :: df), nx.empty, undirected_empty.
    clear. intros df. induction df as [|r df IH]; intros g Hg; simpl; [done|].
    by apply IH, undirected_add_edge.
Qed.

Lemma lookup_unique_key {V} (n : string) (x y : V) (items : list (string * V)) :
  NoDup ((n, y) :: items).*1 → (n, x) ∈ (n, y) :: items → x = y.
Proof.
  rewrite fmap_cons. simpl. intros [Hn _]%NoDup_cons [H|H]%elem_of_cons.
  - congruence.
  - exfalso. apply Hn. apply list_elem_of_fmap. by exists (n, x).
Qed.

(** An adjacency stored in both directions is reported by the first of
    its two ends. *)
Lemma edges_from_complete seen items u v nu nv d :
  NoDup items.*1 → (u, nu) ∈ items → (v, nv) ∈ items →
  nu !! v = Some d → nv !! u = Some d → u ∉ seen → v ∉ seen →
  (u, v, d) ∈ nx.edges_from seen items ∨ (v, u, d) ∈ nx.edges_from seen items.
Proof.
  revert seen. induction items as [|[n nbrs] items IH];
    intros seen Hnd Hu Hv Hnu Hnv Hus Hvs; simpl.
  - by apply elem_of_nil in Hu.
  - destruct (decide (n = u)) as [->|Hnu'].
    { apply lookup_unique_key in Hu as ->; [|done].
      left. apply elem_of_app. left. by apply elem_of_edges_of. }
    destruct (decide (n = v)) as [->|Hnv'].
    { apply lookup_unique_key in Hv as ->; [|done].
      right. apply elem_of_app. left. by apply elem_of_edges_of. }
    apply elem_of_cons in Hu as [[=]|Hu]; [congruence|].
    apply elem_of_cons in Hv as [[=]|Hv]; [congruence|].
    rewrite fmap_cons in Hnd. apply NoDup_cons in Hnd as [_ Hnd].
    destruct (IH (n :: seen)) as [H|H]; try done.
    + rewrite elem_of_cons. intuition congruence.
    + rewrite elem_of_cons. intuition congruence.
    + left. apply elem_of_app. by right.
    + right. apply elem_of_app. by right.
Qed.

Lemma edges_from_sound seen items a b d :
  (a, b, d) ∈ nx.edges_from seen items →
  ∃ nbrs, (a, nbrs) ∈ items ∧ nbrs !! b = Some d.
Proof.
  revert seen. induction items as [|[n nbrs] items IH]; intros seen; simpl.
  - by intros ?%elem_of_nil.
  - intros [H|H]%elem_of_app.
    + apply elem_of_edges_of in H as (-> & ? & _). exists nbrs. split; [left|done].
    + apply IH in H as (nbrs' & ? & ?). exists nbrs'. split; [by right|done].
Qed.

Lemma has_edge_edges_between g u v :
  undirected g → nx.has_edge g u v ↔ edges_between g u v ≠ [].
Proof.
  intros Hg. unfold nx.has_edge, edges_between. split.
  - intros [d Hd].
    assert (Hd' : nx.adj g !! v ≫= (.!! u) = Some d) by by rewrite <- Hg.
    destruct (nx.adj g !! u) as [nu|] eqn:Eu; [simpl in Hd|done].
    destruct (nx.adj g !! v) as [nv|] eqn:Ev; [simpl in Hd'|done].
    apply elem_of_map_to_list in Eu, Ev.
    destruct (edges_from_complete [] (map_to_list (nx.adj g)) u v nu nv d)
      as [H|H]; try done; try apply not_elem_of_nil.
    + apply NoDup_fst_map_to_list.
    + intros E. assert (H' : (u, v, d) ∈ filter (joins u v) (nx.edges g)).
      { apply list_elem_of_filter. split; [left; done|done]. }
      rewrite E in H'. by apply elem_of_nil in H'.
    + intros E. assert (H' : (v, u, d) ∈ filter (joins u v) (nx.edges g)).
      { apply list_elem_of_filter. split; [right; done|done]. }
      rewrite E in H'. by apply elem_of_nil in H'.
  - destruct (filter (joins u v) (nx.edges g)) as [|[[a b] d] l] eqn:E; [done|].
    intros _.
    assert (H : (a, b, d) ∈ filter (joins u v) (nx.edges g)) by (rewrite E; left).
    apply list_elem_of_filter in H as [Hj H].
    apply edges_from_sound in H as (nbrs & Ha%elem_of_map_to_list & Hb).
    assert (Hab : nx.adj g !! a ≫= (.!! b) = Some d) by by rewrite Ha.
    unfold joins in Hj. simpl in Hj. destruct Hj as [[-> ->]|[-> ->]].
    + by eexists.
    + rewrite Hg. by eexists.
Qed.

(** C10. For every bigram table, focus-word list, metric and [top], the
    graph returned by [get_nx_collocation_graph] is undirected (the data
    stored for [u], [v] is the data stored for [v], [u]) and has no
    parallel edges: [graph.edges] lists at most one edge between any two
    words, and exactly the adjacent pairs have one.  A pair that occurs
    in both orders in the table, with both words focus words, fills a row
    in the group of each word (two rows with [top = 1], four with
    [top = 2]) and still gives a single edge. *)
Theorem collocation_graph_one_edge_per_pair :
  (∀ (bigrams : list bigram) (words : list string) (type : metric) (top : Z),
     let graph := get_nx_collocation_graph bigrams words type top in
     undirected graph ∧
     (∀ u v, length (edges_between graph u v) ≤ 1) ∧
     (∀ u v, nx.has_edge graph u v ↔ edges_between graph u v ≠ [])) ∧
  (length (df_collocates both_orders_bigrams ["truth"; "hoax"] f_xy 1) = 2 ∧
   nx.edges (get_nx_collocation_graph both_orders_bigrams ["truth"; "hoax"] f_xy 1)
     = [("truth", "hoax", {["f_xy" := CInt 5]})]) ∧
  (length (df_collocates both_orders_bigrams ["truth"; "hoax"] f_xy 2) = 4 ∧
   length (nx.edges
     (get_nx_collocation_graph both_orders_bigrams ["truth"; "hoax"] f_xy 2)) = 1).
Proof.
  split; [|split].
  - intros bigrams words type top graph.
    pose proof (undirected_collocation bigrams words type top) as Hg.
    split; [done|]. split.
    + intros u v. apply edges_between_at_most_one.
    + intros u v. by apply has_edge_edges_between.
  - split; by vm_compute.
  - split; by vm_compute.
Qed.



(** ** Taxonomies: normalisation *)

Lemma lower_char_idemp c : lower_char (lower_char c) = lower_char c.
Proof. by destruct c as [[] [] [] [] [] [] [] []]. Qed.

Lemma is_space_lower_char c : is_space (lower_char c) = is_space c.
Proof. by destruct c as [[] [] [] [] [] [] [] []]. Qed.

Lemma lower_remove_char a s :
  lower (remove_char a (lower s)) = remove_char a (lower s).
Proof.
  induction s as [|c s IH]; simpl; [done|].
  case_decide; simpl; [done|]. by rewrite lower_char_idemp, IH.
Qed.

Lemma chars_remove_char a s : a ∉ chars (remove_char a s).
Proof.
  induction s as [|c s IH]; simpl; [apply not_elem_of_nil|].
  case_decide; simpl; [done|]. rewrite elem_of_cons. intuition congruence.
Qed.

Lemma chars_remove_char_subseteq a s c :
  c ∈ chars (remove_char a s) → c ∈ chars s.
Proof.
  induction s as [|c' s IH]; simpl; [done|].
  case_decide; simpl; rewrite ?elem_of_cons; intuition.
Qed.

Lemma chars_lower s c :
  c ∈ chars (lower s) → ∃ c', c' ∈ chars s ∧ c = lower_char c'.
Proof.
  induction s as [|c' s IH]; simpl; [by intros ?%elem_of_nil|].
  intros [->|H]%elem_of_cons.
  - exists c'. split; [left|done].
  - destruct (IH H) as (c'' & ? & ?). exists c''. split; [by right|done].
Qed.

Lemma chars_app s1 s2 : chars (s1 +:+ s2) = chars s1 ++ chars s2.
Proof. induction s1 as [|c s1 IH]; simpl; [done|]. by rewrite IH. Qed.

(** [split] returns words without white space. *)
Lemma split_from_no_space word s :
  Forall (λ c, is_space c = false) (chars word) →
  Forall (λ w, Forall (λ c, is_space c = false) (chars w)) (split_from word s).
Proof.
  revert word. induction s as [|c s IH]; intros word Hword; simpl.
  - case_decide; by repeat constructor.
  - destruct (is_space c) eqn:Ec.
    + case_decide.
      * apply IH. constructor.
      * constructor; [done|]. apply IH. constructor.
    + apply IH. rewrite chars_app. apply Forall_app. split; [done|].
      simpl. by repeat constructor.
Qed.

Lemma vocabulary_words_tidy vocabulary :
  Forall tidy_word (vocabulary_words vocabulary).
Proof.
  apply Forall_forall. intros w Hw. unfold vocabulary_words in Hw.
  apply list_elem_of_filter in Hw as [Hstop Hw].
  apply list_elem_of_fmap in Hw as (w' & -> & Hw').
  apply list_elem_of_bind in Hw' as (phrase & Hw' & _).
  assert (Hsp : Forall (λ c, is_space c = false) (chars w')).
  { assert (H : Forall (λ w, Forall (λ c, is_space c = false) (chars w))
                  (split phrase))
      by (apply split_from_no_space; constructor).
    rewrite Forall_forall in H. by apply H. }
  split; [apply lower_remove_char|]. split; [apply chars_remove_char|].
  split; [done|].
  apply Forall_forall. intros c Hc%chars_remove_char_subseteq.
  apply chars_lower in Hc as (c' & Hc' & ->).
  rewrite is_space_lower_char. rewrite Forall_forall in Hsp. by apply Hsp.
Qed.

Lemma draw_uuids_uuid words next :
  uuid <$> draw_uuids words next = seq next (length words).
Proof.
  unfold draw_uuids. revert next.
  induction words as [|w words IH]; intros next; simpl; [done|].
  by rewrite IH.
Qed.

Lemma draw_uuids_name words next : name <$> draw_uuids words next = words.
Proof.
  unfold draw_uuids. revert next.
  induction words as [|w words IH]; intros next; simpl; [done|].
  by rewrite IH.
Qed.

Lemma yaml_nested_ind (P : yaml → Prop) :
  (∀ category vocabulary subcategories,
     Forall P (default [] subcategories) →
     P (Yaml category vocabulary subcategories)) →
  ∀ value, P value.
Proof.
  intros H. fix IH 1. intros [category vocabulary subcategories].
  apply H. destruct subcategories as [data|]; simpl; [|constructor].
  induction data as [|value data IHdata]; constructor; [apply IH|apply IHdata].
Qed.

Lemma body_taxonomy_unfold category vocabulary subcategories next :
  body_taxonomy (Yaml category vocabulary subcategories) next =
    let '(category', next) :=
      match category with
      | Some c => (Some (Term (lower c) next), S next)
      | None => (None, next)
      end in
    let '(vocabulary', next) :=
      match vocabulary with
      | Some strings =>
          (Some (draw_uuids (vocabulary_words strings) next),
           next + length (vocabulary_words strings))
      | None => (None, next)
      end in
    let '(subcategories', next) :=
      match subcategories with
      | Some data =>
          let '(processed, next) := body_taxonomies_from data next in
          (Some processed, next)
      | None => (None, next)
      end in
    (Taxonomy category' vocabulary' subcategories', next).
Proof. reflexivity. Qed.

Lemma uuids_of_unfold category vocabulary subcategories :
  uuids_of (Taxonomy category vocabulary subcategories) =
    (uuid <$> option_list category) ++ (uuid <$> default [] vocabulary) ++
    uuids_of_list (default [] subcategories).
Proof. by destruct subcategories. Qed.

Lemma words_of_unfold category vocabulary subcategories :
  words_of (Taxonomy category vocabulary subcategories) =
    (name <$> default [] vocabulary) ++ words_of_list (default [] subcategories).
Proof. by destruct subcategories. Qed.

(** What one entry, and a list of entries, does with the draws when the
    body runs for every call: the identifiers of the result are the
    draws from [next] on, one draw for each category and each word, and
    the words are tidy. *)
Definition tidy_spec (t : taxonomy) (next next' : nat) : Prop :=
  next ≤ next' ∧ uuids_of t = seq next (next' - next) ∧
  Forall tidy_word (words_of t).

Definition tidy_list_spec (l : list taxonomy) (next next' : nat) : Prop :=
  next ≤ next' ∧ uuids_of_list l = seq next (next' - next) ∧
  Forall tidy_word (words_of_list l).

Lemma body_taxonomies_from_spec data next :
  Forall (λ value, ∀ next, tidy_spec (body_taxonomy value next).1 next
                             (body_taxonomy value next).2) data →
  tidy_list_spec (body_taxonomies_from data next).1 next
    (body_taxonomies_from data next).2.
Proof.
  intros H. revert next. induction H as [|value data Hv _ IH]; intros next.
  - simpl. split; [done|]. rewrite Nat.sub_diag. by split.
  - simpl. specialize (Hv next).
    destruct (body_taxonomy value next) as [t n1]. simpl in Hv.
    specialize (IH n1).
    destruct (body_taxonomies_from data n1) as [l n2]. simpl in *.
    destruct Hv as (Hle1 & Hu1 & Hw1), IH as (Hle2 & Hu2 & Hw2).
    split; [lia|]. split.
    + cbn [uuids_of_list]. rewrite Hu1, Hu2.
      replace (n2 - next) with ((n1 - next) + (n2 - n1)) by lia.
      rewrite seq_app. do 2 f_equal. lia.
    + cbn [words_of_list]. by apply Forall_app.
Qed.

Lemma seq_two a b c :
  a ≤ b → b ≤ c → seq a (b - a) ++ seq b (c - b) = seq a (c - a).
Proof.
  intros ? ?. replace (c - a) with ((b - a) + (c - b)) by lia.
  rewrite seq_app. by replace (a + (b - a)) with b by lia.
Qed.

Lemma seq_three next n1 n2 n3 (l1 l2 l3 : list nat) :
  next ≤ n1 → n1 ≤ n2 → n2 ≤ n3 →
  l1 = seq next (n1 - next) → l2 = seq n1 (n2 - n1) → l3 = seq n2 (n3 - n2) →
  l1 ++ l2 ++ l3 = seq next (n3 - next).
Proof.
  intros ? ? ? -> -> ->. rewrite (seq_two n1 n2 n3) by done.
  apply seq_two; lia.
Qed.

Lemma body_taxonomy_spec value next :
  tidy_spec (body_taxonomy value next).1 next (body_taxonomy value next).2.
Proof.
  revert next.
  induction value as [category vocabulary subcategories IH] using yaml_nested_ind.
  intros next. rewrite body_taxonomy_unfold.
  destruct (match category with
            | Some c => (Some (Term (lower c) next), S next)
            | None => (None, next)
            end) as [category' n1] eqn:E1.
  destruct (match vocabulary with
            | Some strings =>
                (Some (draw_uuids (vocabulary_words strings) n1),
                 n1 + length (vocabulary_words strings))
            | None => (None, n1)
            end) as [vocabulary' n2] eqn:E2.
  destruct (match subcategories with
            | Some data =>
                let '(processed, next) := body_taxonomies_from data n2 in
                (Some processed, next)
            | None => (None, n2)
            end) as [subcategories' n3] eqn:E3.
  simpl.
  assert (H1 : next ≤ n1 ∧ uuid <$> option_list category' = seq next (n1 - next)).
  { destruct category; injection E1 as <- <-; simpl.
    - replace (S next - next) with 1 by lia. split; [lia|done].
    - rewrite Nat.sub_diag. split; [lia|done]. }
  assert (H2 : n1 ≤ n2 ∧
               uuid <$> default [] vocabulary' = seq n1 (n2 - n1) ∧
               Forall tidy_word (name <$> default [] vocabulary')).
  { destruct vocabulary; injection E2 as <- <-; simpl.
    - rewrite draw_uuids_uuid, draw_uuids_name.
      split; [lia|]. split; [f_equal; lia|apply vocabulary_words_tidy].
    - rewrite Nat.sub_diag. split; [lia|]. split; [done|constructor]. }
  assert (H3 : tidy_list_spec (default [] subcategories') n2 n3).
  { destruct subcategories as [data|]; simpl in IH.
    - pose proof (body_taxonomies_from_spec data n2 IH) as Hsub.
      destruct (body_taxonomies_from data n2) as [l n]. by injection E3 as <- <-.
    - injection E3 as <- <-. split; [done|]. rewrite Nat.sub_diag. by split. }
  destruct H1 as [Hle1 Hu1], H2 as (Hle2 & Hu2 & Hw2), H3 as (Hle3 & Hu3 & Hw3).
  split; [lia|]. split.
  - rewrite uuids_of_unfold. by apply (seq_three next n1 n2 n3).
  - rewrite words_of_unfold. by apply Forall_app.
Qed.

Lemma body_taxonomies_spec data next :
  tidy_list_spec (body_taxonomies_from data next).1 next
    (body_taxonomies_from data next).2.
Proof.
  apply body_taxonomies_from_spec, Forall_forall.
  intros value _. apply body_taxonomy_spec.
Qed.

(** ** Taxonomies: the calls through the cache *)

Lemma yaml_eqb_unfold c v s c' v' s' :
  yaml_eqb (Yaml c v s) (Yaml c' v' s') =
    bool_decide (c = c') && bool_decide (v = v') &&
    match s, s' with
    | Some l, Some l' => yaml_list_eqb l l'
    | None, None => true
    | _, _ => false
    end.
Proof. by destruct s, s'. Qed.

Lemma yaml_list_eqb_eq_from l :
  Forall (λ a, ∀ b, yaml_eqb a b = true ↔ a = b) l →
  ∀ l', yaml_list_eqb l l' = true ↔ l = l'.
Proof.
  induction 1 as [|a l Ha _ IH]; intros [|b l']; simpl; try done.
  rewrite andb_true_iff, Ha, IH. split; [by intros [-> ->]|by intros [= -> ->]].
Qed.

Lemma yaml_eqb_eq a b : yaml_eqb a b = true ↔ a = b.
Proof.
  revert b. induction a as [c v s IH] using yaml_nested_ind. intros [c' v' s'].
  rewrite yaml_eqb_unfold, !andb_true_iff, !bool_decide_eq_true.
  assert (Hs : match s, s' with
               | Some l, Some l' => yaml_list_eqb l l'
               | None, None => true
               | _, _ => false
               end = true ↔ s = s').
  { destruct s as [l|], s' as [l'|]; simpl in *; try done.
    rewrite (yaml_list_eqb_eq_from l IH). split; congruence. }
  rewrite Hs. split; [by intros [[-> ->] ->]|by intros [= -> -> ->]].
Qed.

Lemma yaml_list_eqb_eq l l' : yaml_list_eqb l l' = true ↔ l = l'.
Proof.
  apply yaml_list_eqb_eq_from, Forall_forall. intros a _. apply yaml_eqb_eq.
Qed.

(** The cache answers with the list stored for that argument. *)
Lemma cache_get_Some data cache processed :
  cache_get data cache = Some processed → (data, processed) ∈ cache.
Proof.
  induction cache as [|[key v] cache IH]; simpl; [done|].
  destruct (yaml_list_eqb key data) eqn:E.
  - apply yaml_list_eqb_eq in E as ->. intros [= ->]. by left.
  - intros H. right. by apply IH.
Qed.

Lemma cache_get_stored data processed cache :
  cache_get data ((data, processed) :: cache) = Some processed.
Proof.
  simpl. destruct (yaml_list_eqb data data) eqn:E; [done|].
  assert (yaml_list_eqb data data = true) by by apply yaml_list_eqb_eq.
  congruence.
Qed.

Lemma cache_get_other data processed cache k :
  data ≠ k → cache_get k ((data, processed) :: cache) = cache_get k cache.
Proof.
  intros Hne. simpl. destruct (yaml_list_eqb data k) eqn:E; [|done].
  by apply yaml_list_eqb_eq in E.
Qed.

Lemma tidy_taxonomy_loop category vocabulary subcategories s :
  tidy_taxonomy (Yaml category vocabulary subcategories) s =
    let '(category', next) :=
      match category with
      | Some c => (Some (Term (lower c) (tidy_next s)), S (tidy_next s))
      | None => (None, tidy_next s)
      end in
    let '(vocabulary', next) :=
      match vocabulary with
      | Some strings =>
          let words := vocabulary_words strings in
          (Some (draw_uuids words next), next + length words)
      | None => (None, next)
      end in
    let s := TidyState (tidy_cache s) next in
    match subcategories with
    | Some data =>
        match cache_get data (tidy_cache s) with
        | Some processed => (Taxonomy category' vocabulary' (Some processed), s)
        | None =>
            let '(processed, s) := tidy_loop data s in
            (Taxonomy category' vocabulary' (Some processed),
             TidyState ((data, processed) :: tidy_cache s) (tidy_next s))
        end
    | None => (Taxonomy category' vocabulary' None, s)
    end.
Proof. reflexivity. Qed.

(** One turn of the loop: the draws for the category and for the words,
    then the call for the subcategories. *)
Lemma tidy_taxonomy_unfold category vocabulary subcategories s :
  tidy_taxonomy (Yaml category vocabulary subcategories) s =
    let cn := draw_category category (tidy_next s) in
    let vn := draw_vocabulary vocabulary cn.2 in
    let s := TidyState (tidy_cache s) vn.2 in
    match subcategories with
    | Some data =>
        let r := tidy_taxonomies_in data s in
        (Taxonomy cn.1 vn.1 (Some r.1), r.2)
    | None => (Taxonomy cn.1 vn.1 None, s)
    end.
Proof.
  rewrite tidy_taxonomy_loop.
  destruct category as [c|], vocabulary as [strings|],
    subcategories as [data|]; cbn -[tidy_loop cache_get vocabulary_words];
    try done; unfold tidy_taxonomies_in;
    cbn -[tidy_loop cache_get vocabulary_words];
    (destruct (cache_get data _); [done|]);
    by destruct (tidy_loop data _).
Qed.

Lemma body_taxonomy_steps category vocabulary subcategories next :
  body_taxonomy (Yaml category vocabulary subcategories) next =
    let cn := draw_category category next in
    let vn := draw_vocabulary vocabulary cn.2 in
    match subcategories with
    | Some data =>
        let r := body_taxonomies_from data vn.2 in
        (Taxonomy cn.1 vn.1 (Some r.1), r.2)
    | None => (Taxonomy cn.1 vn.1 None, vn.2)
    end.
Proof.
  rewrite body_taxonomy_unfold.
  destruct category as [c|], vocabulary as [strings|],
    subcategories as [data|];
    cbn -[body_taxonomies_from vocabulary_words]; try done;
    by destruct (body_taxonomies_from data _).
Qed.

Lemma tidy_loop_cons value data s :
  tidy_loop (value :: data) s =
    let r := tidy_taxonomy value s in
    let r' := tidy_loop data r.2 in
    (r.1 :: r'.1, r'.2).
Proof.
  change (tidy_loop (value :: data) s) with
    (let '(taxonomy, s) := tidy_taxonomy value s in
     let '(processed, s) := tidy_loop data s in
     (taxonomy :: processed, s)).
  destruct (tidy_taxonomy value s) as [t s1]. simpl.
  by destruct (tidy_loop data s1).
Qed.

Lemma body_taxonomies_from_cons value data next :
  body_taxonomies_from (value :: data) next =
    let r := body_taxonomy value next in
    let r' := body_taxonomies_from data r.2 in
    (r.1 :: r'.1, r'.2).
Proof.
  simpl. destruct (body_taxonomy value next) as [t n1]. simpl.
  by destruct (body_taxonomies_from data n1).
Qed.

Lemma tidy_taxonomies_in_unfold data s :
  tidy_taxonomies_in data s =
    match cache_get data (tidy_cache s) with
    | Some processed => (processed, s)
    | None =>
        let r := tidy_loop data s in
        (r.1, TidyState ((data, r.1) :: tidy_cache r.2) (tidy_next r.2))
    end.
Proof.
  unfold tidy_taxonomies_in. destruct (cache_get data _); [done|].
  by destruct (tidy_loop data s).
Qed.

Lemma calls_of_entry_unfold category vocabulary subcategories :
  calls_of_entry (Yaml category vocabulary subcategories) =
    match subcategories with
    | Some data => calls_of data
    | None => []
    end.
Proof. by destruct subcategories. Qed.

(** When no call is answered from the cache, a turn gives what the body
    on its own gives, and stores nothing but for its own calls. *)
Definition runs_the_body (value : yaml) : Prop :=
  ∀ s, NoDup (calls_of_entry value) → misses (calls_of_entry value) s →
    (tidy_taxonomy value s).1 = (body_taxonomy value (tidy_next s)).1 ∧
    tidy_next (tidy_taxonomy value s).2 = (body_taxonomy value (tidy_next s)).2 ∧
    ∀ k, cache_get k (tidy_cache s) = None → k ∉ calls_of_entry value →
         cache_get k (tidy_cache (tidy_taxonomy value s).2) = None.

Lemma tidy_loop_runs_the_body data :
  Forall runs_the_body data →
  ∀ s, NoDup (calls_of_loop data) → misses (calls_of_loop data) s →
    (tidy_loop data s).1 = (body_taxonomies_from data (tidy_next s)).1 ∧
    tidy_next (tidy_loop data s).2 =
      (body_taxonomies_from data (tidy_next s)).2 ∧
    ∀ k, cache_get k (tidy_cache s) = None → k ∉ calls_of_loop data →
         cache_get k (tidy_cache (tidy_loop data s).2) = None.
Proof.
  induction 1 as [|value data Hvalue _ IH]; intros s Hnd Hmiss; [done|].
  change (calls_of_loop (value :: data))
    with (calls_of_entry value ++ calls_of_loop data) in *.
  apply NoDup_app in Hnd as (Hnd1 & Hdisj & Hnd2).
  destruct (Hvalue s Hnd1) as (Ht & Hn & Hc).
  { intros l Hl. apply Hmiss, elem_of_app. auto. }
  rewrite tidy_loop_cons, body_taxonomies_from_cons. cbv zeta. cbn [fst snd].
  destruct (IH (tidy_taxonomy value s).2 Hnd2) as (Ht' & Hn' & Hc').
  { intros l Hl. apply Hc.
    - apply Hmiss, elem_of_app. auto.
    - intros Hin. by apply (Hdisj l). }
  rewrite Hn in Ht', Hn'. rewrite Ht, Ht', Hn'. split; [done|]. split; [done|].
  intros k Hk Hnot. apply not_elem_of_app in Hnot as [? ?].
  apply Hc'; [by apply Hc|done].
Qed.

Lemma tidy_taxonomies_in_runs_the_body_from data :
  Forall runs_the_body data →
  ∀ s, NoDup (calls_of data) → misses (calls_of data) s →
    (tidy_taxonomies_in data s).1 = (body_taxonomies_from data (tidy_next s)).1 ∧
    tidy_next (tidy_taxonomies_in data s).2 =
      (body_taxonomies_from data (tidy_next s)).2 ∧
    ∀ k, cache_get k (tidy_cache s) = None → k ∉ calls_of data →
         cache_get k (tidy_cache (tidy_taxonomies_in data s).2) = None.
Proof.
  intros Hdata s Hnd Hmiss. unfold calls_of in *.
  apply NoDup_cons in Hnd as [Hfirst Hnd].
  rewrite tidy_taxonomies_in_unfold, (Hmiss data) by left.
  cbv zeta. cbn [fst snd tidy_cache tidy_next].
  destruct (tidy_loop_runs_the_body data Hdata s Hnd) as (Ht & Hn & Hc).
  { intros l Hl. apply Hmiss. by right. }
  split; [done|]. split; [done|].
  intros k Hk Hnot. apply not_elem_of_cons in Hnot as [Hne Hnot].
  rewrite cache_get_other by done. by apply Hc.
Qed.

Lemma tidy_taxonomy_runs_the_body value : runs_the_body value.
Proof.
  induction value as [category vocabulary subcategories IH]
    using yaml_nested_ind.
  intros s. rewrite calls_of_entry_unfold, tidy_taxonomy_unfold,
    body_taxonomy_steps. cbv zeta.
  destruct subcategories as [data|]; [|done].
  intros Hnd Hmiss. cbn [default] in IH.
  destruct (tidy_taxonomies_in_runs_the_body_from data IH
              (TidyState (tidy_cache s)
                 (draw_vocabulary vocabulary
                    (draw_category category (tidy_next s)).2).2) Hnd Hmiss)
    as (Ht & Hn & Hc).
  cbn [fst snd tidy_next tidy_cache] in *. by rewrite Ht, Hn.
Qed.

(** With no two calls for equal lists, the first call gives what the
    body on its own gives: every entry has draws of its own. *)
Lemma tidy_taxonomies_runs_the_body data :
  NoDup (calls_of data) → tidy_taxonomies data = (body_taxonomies_from data 0).1.
Proof.
  intros Hnd. unfold tidy_taxonomies.
  destruct (tidy_taxonomies_in_runs_the_body_from data) with (s := TidyState [] 0)
    as (Ht & _ & _); try done.
  apply Forall_forall. intros value _. apply tidy_taxonomy_runs_the_body.
Qed.

(** C8. Two categories whose [subcategories] are equal lists: the call
    for the second list is answered from the cache with the list made
    for the first, so that the two categories hold the same entries with
    the same identifiers; the category "Other" and the word "misc" of
    the one are not told from those of the other.  The identifiers of
    the taxonomy are then not pairwise distinct, the graph has one node
    for the two categories "Other" and one for the two words "misc",
    and the vocabulary of the taxonomy lists "misc" once. *)
Theorem tidy_taxonomies_shares_identifiers :
  tidy_taxonomies shared_yaml =
    [ Taxonomy (Some (Term "conspiracy" 0)) None
        (Some [ Taxonomy (Some (Term "other" 1)) (Some [ Term "misc" 2 ]) None ]);
      Taxonomy (Some (Term "vaccines" 3)) None
        (Some [ Taxonomy (Some (Term "other" 1)) (Some [ Term "misc" 2 ]) None ]) ] ∧
  ¬ NoDup (uuids_of_list (tidy_taxonomies shared_yaml)) ∧
  words_of_list (tidy_taxonomies shared_yaml) = ["misc"; "misc"] ∧
  ∃ graph,
    get_nx_taxonomies_graph (tidy_taxonomies shared_yaml) = Ok graph ∧
    size (nx.di_node graph) = 4 ∧
    get_taxonomy_vocabularies graph None = Ok ["misc"].
Proof.
  split; [by vm_compute|]. split; [|split; [by vm_compute|]].
  - intros H. apply (bool_decide_pack _) in H. by vm_compute in H.
  - eexists. split; [by vm_compute|]. split; by vm_compute.
Qed.

(** ** Taxonomies: entries without a category *)

(** An entry with subcategories and no category ends the traversal with
    a [KeyError], whatever the graph and the parent. *)
Lemma nx_taxonomy_subcategories_need_category parent graph vocabulary data :
  nx_taxonomy parent graph (Taxonomy None vocabulary (Some data)) =
    Raise (KeyError "category").
Proof. by destruct vocabulary as [[|word words]|]. Qed.

(** So does an entry with a vocabulary word and no category. *)
Lemma nx_taxonomy_vocabulary_needs_category parent graph word words subcategories :
  nx_taxonomy parent graph (Taxonomy None (Some (word :: words)) subcategories) =
    Raise (KeyError "category").
Proof. by destruct subcategories. Qed.

Lemma categorised_unfold category vocabulary subcategories :
  categorised (Taxonomy category vocabulary subcategories) ↔
    is_Some category ∧ Forall categorised (default [] subcategories).
Proof.
  simpl. destruct subcategories as [l|]; simpl; [|by rewrite Forall_nil].
  induction l as [|t l IH]; [by rewrite Forall_nil|].
  rewrite Forall_cons. tauto.
Qed.

Lemma for_each_succeeds {A S} (body : S → A → result S) l s :
  (∀ a s, a ∈ l → ∃ s', body s a = Ok s') → ∃ s', for_each body l s = Ok s'.
Proof.
  revert s. induction l as [|a l IH]; intros s Hbody; simpl; [eauto|].
  destruct (Hbody a s) as [s1 ->]; [left|]. simpl.
  apply IH. intros a' s' Ha'. apply Hbody. by right.
Qed.

Lemma taxonomy_nested_ind (P : taxonomy → Prop) :
  (∀ category vocabulary subcategories,
     Forall P (default [] subcategories) →
     P (Taxonomy category vocabulary subcategories)) →
  ∀ value, P value.
Proof.
  intros H. fix IH 1. intros [category vocabulary subcategories].
  apply H. destruct subcategories as [data|]; simpl; [|constructor].
  induction data as [|value data IHdata]; constructor; [apply IH|apply IHdata].
Qed.

Lemma bind_succeeds {A B} (m : result A) (k : A → result B) :
  (∃ a, m = Ok a) → (∀ a, ∃ b, k a = Ok b) → ∃ b, m ≫= k = Ok b.
Proof. intros [a ->] Hk. apply Hk. Qed.

Lemma nx_taxonomy_unfold parent graph category vocabulary subcategories :
  nx_taxonomy parent graph (Taxonomy category vocabulary subcategories) =
    let graph :=
      match category with
      | Some c =>
          let graph :=
            nx.di_add_node (uuid c)
              {[ "label" := name c; "type" := "category" ]} graph in
          match parent with
          | Some p => nx.di_add_edge p (uuid c) graph
          | None => graph
          end
      | None => graph
      end in
    graph ←
      match vocabulary with
      | Some words =>
          for_each (λ graph word,
            let graph :=
              nx.di_add_node (uuid word)
                {[ "label" := name word; "type" := "vocabulary" ]} graph in
            c ← category_uuid category;
            Ok (nx.di_add_edge c (uuid word) graph)) words graph
      | None => Ok graph
      end;
    match subcategories with
    | Some data =>
        c ← category_uuid category;
        for_each (nx_taxonomy (Some c)) data graph
    | None => Ok graph
    end.
Proof. reflexivity. Qed.

(** Where every entry has a category, the keys [vocabulary] and
    [subcategories] may be absent at will: the traversal raises nothing. *)
Lemma nx_taxonomy_succeeds value :
  categorised value →
  ∀ parent graph, ∃ graph', nx_taxonomy parent graph value = Ok graph'.
Proof.
  induction value as [category vocabulary subcategories IH]
    using taxonomy_nested_ind.
  intros [[c ->] Hsub]%categorised_unfold parent graph.
  rewrite nx_taxonomy_unfold. lazy zeta. apply bind_succeeds.
  - destruct vocabulary as [words|]; [|eauto].
    apply for_each_succeeds. intros word s _. simpl. eauto.
  - intros g2. destruct subcategories as [data|]; [|eauto]. simpl in *.
    apply for_each_succeeds. intros value s Hin.
    rewrite Forall_forall in IH, Hsub. by apply IH, Hsub.
Qed.

Lemma get_nx_taxonomies_graph_succeeds data :
  Forall categorised data → ∃ graph, get_nx_taxonomies_graph data = Ok graph.
Proof.
  intros Hdata. unfold get_nx_taxonomies_graph, get_nx_taxonomies_graph_in.
  apply for_each_succeeds. intros value s Hin.
  rewrite Forall_forall in Hdata. by apply nx_taxonomy_succeeds, Hdata.
Qed.

(** C4. [tidy_taxonomies] passes over absent keys: an entry without
    [category] is kept as it is.  [get_nx_taxonomies_graph] does not: on
    the entry [{'subcategories': []}], and on the entry
    [{'vocabulary': ['rumour']}], it raises [KeyError: 'category'],
    although it tests for the key before adding the category node. *)
Theorem taxonomy_without_category_raises :
  tidy_taxonomies [Yaml None None (Some [])] = [Taxonomy None None (Some [])] ∧
  get_nx_taxonomies_graph (tidy_taxonomies [Yaml None None (Some [])]) =
    Raise (KeyError "category") ∧
  tidy_taxonomies [Yaml None (Some ["rumour"]) None] =
    [Taxonomy None (Some [Term "rumour" 0]) None] ∧
  get_nx_taxonomies_graph (tidy_taxonomies [Yaml None (Some ["rumour"]) None]) =
    Raise (KeyError "category").
Proof. repeat split; by vm_compute. Qed.

(** ** Taxonomies: vocabularies *)

(** C7. For every taxonomy graph and every category identifier that is
    not a node of the graph, [get_taxonomy_vocabularies] returns the
    empty list, and raises nothing. *)
Theorem unknown_category_gives_no_vocabulary (graph : nx.DiGraph) (category : nat) :
  ¬ nx.di_has_node graph category →
  get_taxonomy_vocabularies graph (Some category) = Ok [].
Proof.
  intros Hno. unfold get_taxonomy_vocabularies.
  by rewrite decide_False by done.
Qed.

Lemma unknown_category_gives_no_vocabulary_witness :
  get_taxonomy_vocabularies nx.di_empty (Some 7) = Ok [].
Proof.
  apply unknown_category_gives_no_vocabulary.
  unfold nx.di_has_node. simpl. rewrite lookup_empty. by intros [? ?].
Defined.

Lemma insert_by_perm key a l : insert_by key a l ≡ₚ a :: l.
Proof.
  induction l as [|b l IH]; simpl; [done|].
  destruct (String.leb (key a) (key b)); [done|].
  rewrite IH. apply Permutation_swap.
Qed.

Lemma sorted_perm key l : sorted key l ≡ₚ l.
Proof.
  unfold sorted. induction l as [|a l IH]; simpl; [done|].
  by rewrite insert_by_perm, IH.
Qed.

Lemma insert_by_sorted key a l :
  Sorted (λ a b, String.leb (key a) (key b) = true) l →
  Sorted (λ a b, String.leb (key a) (key b) = true) (insert_by key a l).
Proof.
  induction 1 as [|b l Hl IH Hhd]; simpl.
  - by repeat constructor.
  - destruct (String.leb (key a) (key b)) eqn:E.
    + constructor; [by constructor|]. by constructor.
    + constructor; [done|].
      assert (Hba : String.leb (key b) (key a) = true).
      { destruct (String.leb_total (key a) (key b)); congruence. }
      destruct Hhd as [|c l Hbc]; simpl.
      * by constructor.
      * destruct (String.leb (key a) (key c)); by constructor.
Qed.

Lemma sorted_sorted key l :
  Sorted (λ a b, String.leb (key a) (key b) = true) (sorted key l).
Proof.
  unfold sorted. induction l as [|a l IH]; simpl; [constructor|].
  by apply insert_by_sorted.
Qed.

(** On nodes that carry a type and a label, the comprehension raises
    nothing and collects the labels of the vocabulary nodes. *)
Lemma vocabulary_labels_typed nodes :
  Forall (λ xy, is_Some (xy.2 !! "type") ∧ is_Some (xy.2 !! "label")) nodes →
  vocabulary_labels nodes = Ok (labels_of nodes).
Proof.
  induction 1 as [|[x y] nodes [[type Ht] [label Hl]] _ IH]; [done|].
  simpl in *. unfold vocabulary_label. rewrite Ht, Hl, IH.
  unfold labels_of. rewrite filter_cons.
  destruct (decide (is_vocabulary (x, y))) as [Hv|Hv];
    unfold is_vocabulary in Hv; simpl in Hv; rewrite Ht in Hv.
  - injection Hv as ->. rewrite decide_True by done. simpl. by rewrite Hl.
  - rewrite decide_False by congruence. done.
Qed.

(** ** Taxonomies: the descendants of a node *)

Lemma elem_of_children g frontier v :
  v ∈ nx.children g frontier ↔ ∃ u, u ∈ frontier ∧ nx.di_edge g u v.
Proof.
  unfold nx.children, nx.di_edge. rewrite elem_of_union_list. split.
  - intros (X & HX & Hv). apply list_elem_of_fmap in HX as (u & -> & Hu).
    exists u. split; [by apply elem_of_elements|done].
  - intros (u & Hu & Hv). exists (nx.successors g u). split; [|done].
    apply list_elem_of_fmap. exists u. split; [done|by apply elem_of_elements].
Qed.

Lemma di_edge_heads g u v : nx.di_edge g u v → v ∈ nx.heads g.
Proof.
  unfold nx.di_edge, nx.successors, nx.heads. intros Hv.
  destruct (nx.di_succ g !! u) as [X|] eqn:E; simpl in Hv; [|set_solver].
  apply elem_of_union_list. exists X. split; [|done].
  apply list_elem_of_fmap. exists (u, X). split; [done|].
  by apply elem_of_map_to_list.
Qed.

(** The state of the search: the frontier has been visited, the edges
    of the visited nodes behind the frontier lead to visited nodes, and
    every visited node is reached from [source]. *)
Record bfs_state (g : nx.DiGraph) (source : nat) (visited frontier : gset nat)
    : Prop := {
  bfs_source : source ∈ visited;
  bfs_frontier : frontier ⊆ visited;
  bfs_behind : ∀ u v, u ∈ visited → u ∉ frontier → nx.di_edge g u v → v ∈ visited;
  bfs_reached : ∀ v, v ∈ visited → rtc (nx.di_edge g) source v;
  bfs_within : visited ⊆ {[source]} ∪ nx.heads g
}.

Lemma bfs_reaches g source fuel visited frontier :
  bfs_state g source visited frontier →
  size (({[source]} ∪ nx.heads g) ∖ visited) < fuel →
  ∀ v, v ∈ nx.bfs g fuel visited frontier ↔ rtc (nx.di_edge g) source v.
Proof.
  revert visited frontier.
  induction fuel as [|fuel IH]; intros visited frontier Hst Hfuel; [lia|].
  destruct Hst as [Hsrc Hfr Hbehind Hreached Hwithin].
  simpl. set (next := nx.children g frontier ∖ visited).
  destruct (decide (next = ∅)) as [Hnext|Hnext].
  - (* the search is over: the visited nodes are closed under the edges *)
    assert (Hclosed : ∀ u v, u ∈ visited → nx.di_edge g u v → v ∈ visited).
    { intros u v Hu Huv. destruct (decide (u ∈ frontier)) as [Huf|Huf].
      - destruct (decide (v ∈ visited)) as [|Hv]; [done|exfalso].
        assert (v ∈ next); [|set_solver].
        apply elem_of_difference. split; [|done].
        apply elem_of_children. eauto.
      - eauto. }
    intros v. split; [apply Hreached|]. revert v. apply (rtc_ind_r (λ v, v ∈ visited)); [done|].
    intros u v _ Huv Hu. eapply Hclosed; eauto.
  - (* one more layer *)
    assert (Hin : ∀ v, v ∈ next → ∃ u, u ∈ frontier ∧ nx.di_edge g u v).
    { intros v [Hv _]%elem_of_difference. by apply elem_of_children. }
    apply IH.
    + split.
      * set_solver.
      * set_solver.
      * intros u v [Hu|Hu]%elem_of_union Hun Huv; [|done].
        destruct (decide (u ∈ frontier)) as [Huf|Huf].
        -- destruct (decide (v ∈ visited)) as [|Hv]; [set_solver|].
           apply elem_of_union. right. apply elem_of_difference.
           split; [|done]. apply elem_of_children. eauto.
        -- apply elem_of_union. left. eauto.
      * intros v [Hv|Hv]%elem_of_union; [by apply Hreached|].
        destruct (Hin v Hv) as (u & Hu & Huv).
        eapply rtc_r; [|done]. apply Hreached. set_solver.
      * intros v [Hv|Hv]%elem_of_union; [set_solver|].
        destruct (Hin v Hv) as (u & Hu & Huv).
        apply elem_of_union. right. by eapply di_edge_heads.
    + assert (Hlt : ({[source]} ∪ nx.heads g) ∖ (visited ∪ next)
                      ⊂ ({[source]} ∪ nx.heads g) ∖ visited).
      { apply set_choose_L in Hnext as [v Hv].
        assert (v ∉ visited) by (apply elem_of_difference in Hv; tauto).
        assert (v ∈ nx.heads g).
        { destruct (Hin v Hv) as (u & _ & Huv). by eapply di_edge_heads. }
        split; [set_solver|]. intros Hsub. specialize (Hsub v). set_solver. }
      apply subset_size in Hlt. lia.
Qed.

(** [nx.descendants] is the set of the nodes other than [source] that
    the edges reach from [source]. *)
Lemma elem_of_descendants g source v :
  v ∈ nx.descendants g source ↔ v ≠ source ∧ rtc (nx.di_edge g) source v.
Proof.
  unfold nx.descendants. rewrite elem_of_difference, elem_of_singleton.
  rewrite (bfs_reaches g source); [tauto| |].
  - split; set_solver.
  - assert (({[source]} ∪ nx.heads g) ∖ {[source]} ⊆ nx.heads g) as Hsub
      by set_solver.
    apply subseteq_size in Hsub. lia.
Qed.

(** ** Taxonomies: the graphs that [get_nx_taxonomies_graph] builds *)

Lemma for_each_invariant {A S} (I : S → Prop) (body : S → A → result S) l s s' :
  (∀ a s s', a ∈ l → I s → body s a = Ok s' → I s') →
  I s → for_each body l s = Ok s' → I s'.
Proof.
  revert s. induction l as [|a l IH]; intros s Hbody Hs; simpl.
  - by intros [= <-].
  - destruct (body s a) as [s1|e] eqn:E; [|done]. simpl.
    apply IH.
    + intros a' t t' Ha'. apply Hbody. by right.
    + eapply Hbody; [left|done|done].
Qed.

Lemma di_add_node_typed n attr g :
  taxonomy_graph g → is_Some (attr !! "type") → is_Some (attr !! "label") →
  taxonomy_graph (nx.di_add_node n attr g).
Proof.
  intros Hg [t Ht] [l Hl]. unfold taxonomy_graph, nx.di_add_node.
  destruct (nx.di_succ g !! n); simpl; apply map_Forall_insert_2; try done.
  split; eexists; apply lookup_union_Some_l; eassumption.
Qed.

Lemma di_add_node_present n attr g m :
  present (nx.di_add_node n attr g) m ↔ m = n ∨ present g m.
Proof.
  unfold present, nx.di_add_node.
  destruct (nx.di_succ g !! n) eqn:E; simpl.
  - split; [auto|]. intros [->|?]; [by rewrite E|done].
  - destruct (decide (n = m)) as [->|Hne].
    + rewrite lookup_insert_eq. split; [auto|by eexists].
    + rewrite lookup_insert_ne by done. split; [auto|]. by intros [->|?].
Qed.

Lemma di_touch_present n g : present g n → nx.di_touch n g = g.
Proof. unfold present, nx.di_touch. by intros [X ->]. Qed.

Lemma di_add_edge_typed u v g :
  taxonomy_graph g → present g u → present g v →
  taxonomy_graph (nx.di_add_edge u v g).
Proof.
  intros Hg Hu Hv. unfold nx.di_add_edge.
  rewrite (di_touch_present u g), (di_touch_present v g) by done. done.
Qed.

Lemma di_add_edge_present u v g m :
  present g u → present g v → present g m → present (nx.di_add_edge u v g) m.
Proof.
  intros Hu Hv Hm. unfold nx.di_add_edge.
  rewrite (di_touch_present u g), (di_touch_present v g) by done.
  unfold present. simpl. destruct (decide (u = m)) as [->|Hne].
  - rewrite lookup_insert_eq. by eexists.
  - by rewrite lookup_insert_ne.
Qed.

(** One entry keeps the graph a taxonomy graph and removes no node,
    when the parent it is given is a node. *)
Lemma nx_taxonomy_typed value :
  ∀ parent g g',
    taxonomy_graph g → (∀ p, parent = Some p → present g p) →
    nx_taxonomy parent g value = Ok g' →
    taxonomy_graph g' ∧ ∀ m, present g m → present g' m.
Proof.
  induction value as [category vocabulary subcategories IH]
    using taxonomy_nested_ind.
  intros parent g g' Hg Hparent. rewrite nx_taxonomy_unfold.
  (* the category node *)
  set (g1 := match category with
             | Some c =>
                 match parent with
                 | Some p =>
                     nx.di_add_edge p (uuid c)
                       (nx.di_add_node (uuid c)
                          {[ "label" := name c; "type" := "category" ]} g)
                 | None =>
                     nx.di_add_node (uuid c)
                       {[ "label" := name c; "type" := "category" ]} g
                 end
             | None => g
             end).
  assert (H1 : taxonomy_graph g1 ∧ (∀ m, present g m → present g1 m) ∧
               ∀ c, category = Some c → present g1 (uuid c)).
  { unfold g1. destruct category as [c|];
      [|split; [done|split; [done|by intros ? [=]]]].
    set (attr := ({[ "label" := name c; "type" := "category" ]}
                    : gmap string string)).
    assert (Ht : taxonomy_graph (nx.di_add_node (uuid c) attr g)).
    { apply di_add_node_typed; [done| |]; by eexists. }
    assert (Hc : present (nx.di_add_node (uuid c) attr g) (uuid c))
      by (apply di_add_node_present; auto).
    assert (Hm : ∀ m, present g m → present (nx.di_add_node (uuid c) attr g) m)
      by (intros m ?; apply di_add_node_present; auto).
    destruct parent as [p|].
    - assert (present (nx.di_add_node (uuid c) attr g) p) by eauto.
      split; [by apply di_add_edge_typed|]. split.
      + intros m ?. apply di_add_edge_present; auto.
      + intros ? [= <-]. by apply di_add_edge_present.
    - split; [done|]. split; [done|]. by intros ? [= <-]. }
  clearbody g1. destruct H1 as (Hg1 & Hmono1 & Hcat1). simpl.
  (* the vocabulary nodes *)
  destruct (match vocabulary with
            | Some words => for_each _ words g1
            | None => Ok g1
            end) as [g2|e] eqn:E2; [|done].
  assert (H2 : taxonomy_graph g2 ∧ ∀ m, present g1 m → present g2 m).
  { destruct vocabulary as [words|]; [|by injection E2 as <-].
    revert E2.
    apply (for_each_invariant
             (λ s, taxonomy_graph s ∧ ∀ m, present g1 m → present s m));
      [|by split].
    intros word s s' _ [Hs Hms]. destruct category as [c|]; [|done].
    simpl. intros [= <-].
    set (attr := ({[ "label" := name word; "type" := "vocabulary" ]}
                    : gmap string string)).
    assert (present (nx.di_add_node (uuid word) attr s) (uuid c))
      by (apply di_add_node_present; right; eauto).
    assert (present (nx.di_add_node (uuid word) attr s) (uuid word))
      by (apply di_add_node_present; auto).
    split.
    - apply di_add_edge_typed; [|done|done].
      apply di_add_node_typed; [done| |]; by eexists.
    - intros m Hm. apply di_add_edge_present; [done|done|].
      apply di_add_node_present. right. auto. }
  destruct H2 as [Hg2 Hmono2]. simpl.
  (* the subcategories *)
  destruct subcategories as [data|].
  - destruct category as [c|]; [|done]. simpl. simpl in IH.
    intros E3.
    assert (H3 : taxonomy_graph g' ∧ ∀ m, present g2 m → present g' m).
    { revert E3.
      apply (for_each_invariant
               (λ s, taxonomy_graph s ∧ ∀ m, present g2 m → present s m));
        [|by split].
      intros value s s' Hin [Hs Hms] Hstep.
      rewrite Forall_forall in IH.
      destruct (IH value Hin (Some (uuid c)) s s' Hs) as [Hs' Hms'];
        [by intros ? [= <-]; eauto|done|].
      split; [done|]. eauto. }
    destruct H3 as [Hg' Hmono3]. split; [done|]. eauto.
  - intros [= <-]. split; [done|]. eauto.
Qed.

(** Every node of a graph that [get_nx_taxonomies_graph] returns carries
    a type and a label. *)
Lemma get_nx_taxonomies_graph_typed data graph :
  get_nx_taxonomies_graph data = Ok graph → taxonomy_graph graph.
Proof.
  unfold get_nx_taxonomies_graph, get_nx_taxonomies_graph_in.
  apply (for_each_invariant taxonomy_graph).
  - intros value s s' _ Hs Hstep.
    by destruct (nx_taxonomy_typed value None s s' Hs) as [? _].
  - apply map_Forall_empty.
Qed.

Lemma elem_of_labels_of nodes label :
  Forall (λ xy, is_Some (xy.2 !! "type") ∧ is_Some (xy.2 !! "label")) nodes →
  label ∈ labels_of nodes ↔
    ∃ n y, (n, y) ∈ nodes ∧ y !! "type" = Some "vocabulary" ∧
           y !! "label" = Some label.
Proof.
  intros Htyped. rewrite Forall_forall in Htyped.
  unfold labels_of. rewrite list_elem_of_fmap. split.
  - intros ([n y] & -> & [Hv Hin]%list_elem_of_filter). simpl.
    destruct (Htyped _ Hin) as [_ [label Hl]]. simpl in Hl.
    exists n, y. rewrite Hl. done.
  - intros (n & y & Hin & Ht & Hl). exists (n, y). simpl. rewrite Hl.
    split; [done|]. by apply list_elem_of_filter.
Qed.

Lemma taxonomy_graph_nodes graph :
  taxonomy_graph graph →
  Forall (λ xy, is_Some (xy.2 !! "type") ∧ is_Some (xy.2 !! "label"))
    (map_to_list (nx.di_node graph)).
Proof.
  intros Hg. apply Forall_forall. intros [n y] Hin%elem_of_map_to_list.
  by apply (Hg n y).
Qed.

(** C6. On a taxonomy graph (every node carries a type and a label),
    [get_taxonomy_vocabularies(graph, None)] returns the labels of all
    the nodes of type vocabulary, each as often as it occurs, sorted
    without regard to case; and for a category that is a node of the
    graph, [get_taxonomy_vocabularies(graph, category)] returns, sorted
    in the same way, the labels of the vocabulary nodes among the
    descendants of the category, which are the nodes other than the
    category that the edges reach from it. *)
Theorem taxonomy_vocabularies_sorted_by_category (graph : nx.DiGraph) :
  taxonomy_graph graph →
  (∃ vocabularies,
     get_taxonomy_vocabularies graph None = Ok vocabularies ∧
     Sorted casefold_le vocabularies ∧
     vocabularies ≡ₚ labels_of (map_to_list (nx.di_node graph)) ∧
     ∀ label, label ∈ vocabularies ↔
       ∃ n y, nx.di_node graph !! n = Some y ∧
              y !! "type" = Some "vocabulary" ∧ y !! "label" = Some label) ∧
  (∀ category, nx.di_has_node graph category →
     ∃ vocabularies,
       get_taxonomy_vocabularies graph (Some category) = Ok vocabularies ∧
       Sorted casefold_le vocabularies ∧
       vocabularies ≡ₚ
         labels_of (filter (λ xy, xy.1 ∈ nx.descendants graph category)
                      (map_to_list (nx.di_node graph))) ∧
       ∀ label, label ∈ vocabularies ↔
         ∃ n y, nx.di_node graph !! n = Some y ∧
                y !! "type" = Some "vocabulary" ∧ y !! "label" = Some label ∧
                n ≠ category ∧ rtc (nx.di_edge graph) category n).
Proof.
  intros Hg. pose proof (taxonomy_graph_nodes graph Hg) as Hnodes. split.
  - exists (sorted casefold (labels_of (map_to_list (nx.di_node graph)))).
    unfold get_taxonomy_vocabularies.
    rewrite vocabulary_labels_typed by done.
    split; [done|]. split; [apply sorted_sorted|].
    split; [apply sorted_perm|].
    intros label. rewrite sorted_perm, elem_of_labels_of by done.
    by setoid_rewrite elem_of_map_to_list.
  - intros category Hcat.
    set (nodes := filter (λ xy, xy.1 ∈ nx.descendants graph category)
                    (map_to_list (nx.di_node graph))).
    assert (Hsub : Forall (λ xy, is_Some (xy.2 !! "type") ∧
                                 is_Some (xy.2 !! "label")) nodes).
    { apply Forall_forall. intros xy [_ Hin]%list_elem_of_filter.
      rewrite Forall_forall in Hnodes. by apply Hnodes. }
    exists (sorted casefold (labels_of nodes)).
    unfold get_taxonomy_vocabularies. rewrite decide_True by done.
    fold nodes. rewrite vocabulary_labels_typed by done.
    split; [done|]. split; [apply sorted_sorted|].
    split; [apply sorted_perm|].
    intros label. rewrite sorted_perm, elem_of_labels_of by done.
    unfold nodes. split.
    + intros (n & y & [Hd Hin]%list_elem_of_filter & Ht & Hl).
      simpl in Hd. apply elem_of_descendants in Hd as [? ?].
      apply elem_of_map_to_list in Hin. eauto 10.
    + intros (n & y & Hin & Ht & Hl & Hne & Hreach).
      exists n, y. split; [|done]. apply list_elem_of_filter. split.
      * simpl. by apply elem_of_descendants.
      * by apply elem_of_map_to_list.
Qed.

Lemma taxonomy_vocabularies_sorted_by_category_witness :
  ∃ vocabularies,
    get_taxonomy_vocabularies vaccines_graph None = Ok vocabularies ∧
    Sorted casefold_le vocabularies ∧
    vocabularies ≡ₚ labels_of (map_to_list (nx.di_node vaccines_graph)) ∧
    ∀ label, label ∈ vocabularies ↔
      ∃ n y, nx.di_node vaccines_graph !! n = Some y ∧
             y !! "type" = Some "vocabulary" ∧ y !! "label" = Some label.
Proof.
  assert (Hg : taxonomy_graph vaccines_graph).
  { apply (get_nx_taxonomies_graph_typed (tidy_taxonomies vaccines_yaml)).
    by vm_compute. }
  exact (proj1 (taxonomy_vocabularies_sorted_by_category vaccines_graph Hg)).
Defined.

(** ** The pages: the date range *)

Lemma dashboard_reversed_range s :
  (data_range_start s > data_range_end s)%Z →
  dashboard s =
    Stop [ Text "st.title" "Covid Rumours in Historical Context";
           Text "st.text" "Loading data";
           Input "st.form" "dashboard_settings";
           Text "st.title" "Dashboard: Tweets Explorer";
           Text "st.markdown" "Selected tweets and date range";
           Error date_range_error ].
Proof.
  intros Hgt. unfold dashboard. by rewrite bool_decide_eq_true_2.
Qed.

Lemma about_the_data_reversed_range data_range_start data_range_end :
  (data_range_start > data_range_end)%Z →
  about_the_data data_range_start data_range_end =
    Stop [ Text "st.title" "Covid Rumours in Historical Context";
           Text "st.text" "Loading data";
           Input "st.form" "metrics_settings";
           Text "st.title" "About the data";
           Text "st.markdown" "In total, the corpus contains";
           Text "st.header" "Summary";
           Text "st.markdown" "Selected date range";
           Error date_range_error ].
Proof.
  intros Hgt. unfold about_the_data. by rewrite bool_decide_eq_true_2.
Qed.

(** C5. On both pages, whenever the start of the selected date range is
    later than its end, the run shows the error message and is stopped
    there: the message is the last element of the page, and no chart has
    been computed or displayed. *)
Theorem reversed_date_range_stops (s : dashboard_settings) :
  (data_range_start s > data_range_end s)%Z →
  (∃ out, dashboard s = Stop out ∧
          last out = Some (Error date_range_error) ∧
          Forall (λ e, ¬ is_chart e) out) ∧
  (∃ out, about_the_data (data_range_start s) (data_range_end s) = Stop out ∧
          last out = Some (Error date_range_error) ∧
          Forall (λ e, ¬ is_chart e) out).
Proof.
  intros Hgt. split.
  - eexists. split; [by apply dashboard_reversed_range|].
    split; [done|]. repeat constructor; by intros [].
  - eexists. split; [by apply about_the_data_reversed_range|].
    split; [done|]. repeat constructor; by intros [].
Qed.

Lemma reversed_date_range_stops_witness :
  (∃ out, dashboard reversed_range = Stop out ∧
          last out = Some (Error date_range_error) ∧
          Forall (λ e, ¬ is_chart e) out) ∧
  (∃ out, about_the_data 738000 737900 = Stop out ∧
          last out = Some (Error date_range_error) ∧
          Forall (λ e, ¬ is_chart e) out).
Proof.
  apply (reversed_date_range_stops reversed_range). simpl. lia.
Defined.

(** With the dates in order the same settings do show charts. *)
Example ordered_range_shows_charts :
  Display "compound_chart" ∈
    output (dashboard {| data_range_start := 737900; data_range_end := 738000;
                         ngramChart := true; ngramPointChart := false;
                         timelineChart := false; ngramData := false;
                         ngramHelp := false; collocChart := true;
                         collocData := false; collocHelp := false;
                         selected_words := ["truth"; "hoax"];
                         cf_corpus_subset := None |}) ∧
  Display "tweets" ∈ output (about_the_data 737900 738000).
Proof. split; vm_compute; set_solver. Qed.

(** ** load_dataframe: a list of paths *)

(** C9. For every non-empty list passed as [filepath], [load_dataframe]
    raises [NameError: name 'file' is not defined], at the first path
    and before any file is read, whatever the files hold: [file] is no
    local name of the comprehension, no name of the module and no
    builtin.  So a list of paths never gives a table. *)
Theorem load_dataframe_list_raises
    (DataFrame : Type) (read_csv : value → string → result DataFrame)
    (reset_index : DataFrame → DataFrame)
    (concat : list DataFrame → result DataFrame)
    (set_subset : string → DataFrame → DataFrame)
    (concat_keys : list DataFrame → list string → result DataFrame)
    (set_index_subset : DataFrame → DataFrame)
    (paths : list string) (compression : string) :
  paths ≠ [] →
  load_dataframe DataFrame read_csv reset_index concat set_subset concat_keys
    set_index_subset (PathList paths) compression = Raise (NameError "file").
Proof.
  intros Hne. destruct paths as [|path paths]; [done|].
  unfold load_dataframe. cbn [mapM].
  assert (Hfile : ∀ locals, "file" ∉ locals.*1 →
            load_name locals "file" = Raise (NameError "file")).
  { intros locals Hl. unfold load_name.
    rewrite (not_elem_of_list_to_map_1 _ _ Hl).
    rewrite decide_False; [done|].
    intros Hin. apply (bool_decide_pack _) in Hin. by vm_compute in Hin. }
  rewrite Hfile; [done|]. simpl. set_solver.
Qed.

Lemma load_dataframe_list_raises_witness :
  load_dataframe unit (λ _ _, Ok ()) id (λ _, Ok ()) (λ _, id) (λ _ _, Ok ()) id
    (PathList ["data/ALL/unigrams.csv.gz"]) "infer" = Raise (NameError "file").
Proof. by apply load_dataframe_list_raises. Defined.


(** * Further properties *)

(** ** The rows kept for a focus word *)

Lemma df_collocates_candidates bigrams words type top :
  df_collocates bigrams words type top =
    pd.groupby_x_head top
      (pd.sort_values type (collocate_candidates bigrams words)).
Proof. reflexivity. Qed.

Lemma group_size_head_first_exact n seen df w :
  pd.group_size w (pd.head_first n seen df) =
    (n - pd.group_size w seen) `min` pd.group_size w df.
Proof.
  revert seen. induction df as [|r df IH]; intros seen; cbn [pd.head_first].
  - unfold pd.group_size at 1 3. simpl. lia.
  - specialize (IH (r :: seen)). rewrite group_size_cons in IH.
    rewrite (group_size_cons w r df).
    destruct (decide (pd.group_size (col_x r) seen < n)) as [Hlt|Hge].
    + rewrite group_size_cons.
      destruct (decide (col_x r = w)) as [<-|Hx]; lia.
    + destruct (decide (col_x r = w)) as [<-|Hx]; lia.
Qed.

Lemma group_size_sort_values type df w :
  pd.group_size w (pd.sort_values type df) = pd.group_size w df.
Proof. unfold pd.group_size. by rewrite (sort_values_perm type df). Qed.

(** X1. With [top] not negative, a focus word keeps [top] of its
    candidate rows, or all of them when there are fewer: the number of
    rows of its group in [df_collocates] is the smaller of [top] and the
    number of its candidate rows. *)
Theorem kept_rows_per_focus_word
    (bigrams : list bigram) (words : list string) (type : metric) (top : Z)
    (w : string) :
  (0 ≤ top)%Z →
  pd.group_size w (df_collocates bigrams words type top) =
    Z.to_nat top `min` pd.group_size w (collocate_candidates bigrams words).
Proof.
  intros Htop. rewrite df_collocates_candidates.
  unfold pd.groupby_x_head. rewrite decide_True by done.
  rewrite group_size_head_first_exact, group_size_sort_values.
  unfold pd.group_size at 1. simpl. lia.
Qed.

Lemma kept_rows_per_focus_word_witness :
  pd.group_size "hoax"
    (df_collocates scenario_bigrams ["truth"; "hoax"] f_xy 1) =
  Z.to_nat 1 `min`
    pd.group_size "hoax" (collocate_candidates scenario_bigrams ["truth"; "hoax"]).
Proof. apply kept_rows_per_focus_word. lia. Defined.

(** ** The rows kept are the best of their group *)

Lemma ascii_compare_gt_trans (a b c : ascii) :
  Ascii.compare a b = Gt → Ascii.compare b c = Gt → Ascii.compare a c = Gt.
Proof.
  unfold Ascii.compare. rewrite !N.compare_gt_iff. lia.
Qed.

Lemma string_compare_gt_trans (s1 s2 s3 : string) :
  String.compare s1 s2 = Gt → String.compare s2 s3 = Gt →
  String.compare s1 s3 = Gt.
Proof.
  revert s2 s3. induction s1 as [|a s1 IH]; intros [|b s2] [|c s3]; simpl;
    try done.
  destruct (Ascii.compare a b) eqn:Eab; try done;
    destruct (Ascii.compare b c) eqn:Ebc; try done.
  - apply Ascii.compare_eq_iff in Eab as ->, Ebc as ->.
    rewrite (proj2 (N.compare_eq_iff _ _) eq_refl : Ascii.compare c c = Eq).
    apply IH.
  - apply Ascii.compare_eq_iff in Eab as ->. by rewrite Ebc.
  - apply Ascii.compare_eq_iff in Ebc as ->. by rewrite Eab.
  - by rewrite (ascii_compare_gt_trans a b c).
Qed.

Lemma string_compare_refl (s : string) : String.compare s s = Eq.
Proof.
  induction s as [|a s IH]; simpl; [done|].
  by rewrite (proj2 (N.compare_eq_iff _ _) eq_refl : Ascii.compare a a = Eq).
Qed.

Lemma precedes_total type r1 r2 :
  pd.precedes type r1 r2 = false → pd.precedes type r2 r1 = true.
Proof.
  unfold pd.precedes. rewrite (String.compare_antisym (col_x r2) (col_x r1)).
  destruct (String.compare (col_x r1) (col_x r2)); simpl; try done.
  intros Hle. apply Qle_bool_iff.
  destruct (Qlt_le_dec (cell_Q (column type r1)) (cell_Q (column type r2)))
    as [Hlt|Hle']; [by apply Qlt_le_weak|].
  apply Qle_bool_iff in Hle'. congruence.
Qed.

Lemma precedes_trans type r1 r2 r3 :
  pd.precedes type r1 r2 = true → pd.precedes type r2 r3 = true →
  pd.precedes type r1 r3 = true.
Proof.
  unfold pd.precedes.
  destruct (String.compare (col_x r1) (col_x r2)) eqn:E12; try done;
    destruct (String.compare (col_x r2) (col_x r3)) eqn:E23; try done.
  - apply String.compare_eq_iff in E12, E23. rewrite E12, E23.
    rewrite string_compare_refl, !Qle_bool_iff. intros ? ?. by eapply Qle_trans.
  - apply String.compare_eq_iff in E12. by rewrite E12, E23.
  - apply String.compare_eq_iff in E23. by rewrite <- E23, E12.
  - by rewrite (string_compare_gt_trans _ _ _ E12 E23).
Qed.

Lemma insert_sorted_strongly type r df :
  StronglySorted (λ r1 r2, pd.precedes type r1 r2 = true) df →
  StronglySorted (λ r1 r2, pd.precedes type r1 r2 = true)
    (pd.insert_sorted type r df).
Proof.
  induction 1 as [|r' df Hdf IH Hall]; simpl.
  - by repeat constructor.
  - destruct (pd.precedes type r r') eqn:E.
    + constructor; [by constructor|]. constructor; [done|].
      eapply Forall_impl; [exact Hall|]. intros r''. by apply precedes_trans.
    + constructor; [done|]. apply Forall_forall.
      intros r'' [->|Hin]%elem_of_insert_sorted.
      * by apply precedes_total.
      * rewrite Forall_forall in Hall. by apply Hall.
Qed.

(** [sort_values] puts the groups in falling order of [x] and the rows
    of a group in falling order of the metric. *)
Lemma sort_values_sorted type df :
  StronglySorted (λ r1 r2, pd.precedes type r1 r2 = true)
    (pd.sort_values type df).
Proof.
  unfold pd.sort_values. induction df as [|r df IH]; simpl; [constructor|].
  by apply insert_sorted_strongly.
Qed.

Lemma head_first_room n seen df r :
  r ∈ pd.head_first n seen df → pd.group_size (col_x r) seen < n.
Proof.
  revert seen. induction df as [|r' df IH]; intros seen; cbn [pd.head_first];
    [by intros ?%elem_of_nil|].
  assert (Hlater : r ∈ pd.head_first n (r' :: seen) df →
                   pd.group_size (col_x r) seen < n).
  { intros H%IH. rewrite group_size_cons in H. case_decide; lia. }
  destruct (decide (pd.group_size (col_x r') seen < n)); [|done].
  intros [->|H]%elem_of_cons; [done|by apply Hlater].
Qed.

(** In a sorted table a row that [head] keeps comes before the rows of
    its group that [head] drops. *)
Lemma head_first_best (R : relation row) n seen df r r' :
  StronglySorted R df →
  r ∈ pd.head_first n seen df → r' ∈ df → r' ∉ pd.head_first n seen df →
  col_x r = col_x r' → R r r'.
Proof.
  intros Hdf. revert seen.
  induction Hdf as [|a df Hdf IH Hall]; intros seen; cbn [pd.head_first];
    [by intros ?%elem_of_nil|].
  rewrite Forall_forall in Hall.
  destruct (decide (pd.group_size (col_x a) seen < n)) as [Hlt|Hge].
  - intros Hr Hr' Hno Hx.
    assert (r' ≠ a) by (intros ->; apply Hno; left).
    assert (r' ∈ df) by (apply elem_of_cons in Hr' as [?|?]; done).
    apply elem_of_cons in Hr as [->|Hr]; [by apply Hall|].
    apply (IH (a :: seen)); [done|done| |done].
    intros ?. apply Hno. by right.
  - intros Hr Hr' Hno Hx.
    apply elem_of_cons in Hr' as [->|Hr'].
    + apply head_first_room in Hr. rewrite group_size_cons in Hr.
      rewrite Hx in Hr. rewrite decide_True in Hr by done. lia.
    + by apply (IH (a :: seen)).
Qed.

(** X2. The rows kept for a focus word are the best of its group: with
    [top] not negative, a candidate row that is dropped has a metric no
    higher than any row kept in the same group. *)
Theorem kept_rows_are_topmost
    (bigrams : list bigram) (words : list string) (type : metric) (top : Z)
    (kept dropped : row) :
  (0 ≤ top)%Z →
  kept ∈ df_collocates bigrams words type top →
  dropped ∈ collocate_candidates bigrams words →
  dropped ∉ df_collocates bigrams words type top →
  col_x kept = col_x dropped →
  metric_ge type kept dropped.
Proof.
  rewrite df_collocates_candidates. unfold pd.groupby_x_head.
  intros Htop. rewrite decide_True by done. intros Hkept Hcand Hdropped Hx.
  assert (Hp : pd.precedes type kept dropped = true).
  { eapply (head_first_best (λ r1 r2, pd.precedes type r1 r2 = true));
      [apply sort_values_sorted|exact Hkept| |exact Hdropped|exact Hx].
    by apply elem_of_sort_values. }
  unfold pd.precedes in Hp. rewrite Hx, string_compare_refl in Hp.
  by apply Qle_bool_iff.
Qed.

Lemma kept_rows_are_topmost_witness :
  metric_ge f_xy (Row "hoax" "lies" 9 (Q2Qc 0.4)) (Row "hoax" "truth" 5 (Q2Qc 1.2)).
Proof.
  apply (kept_rows_are_topmost scenario_bigrams ["hoax"] f_xy 1).
  - lia.
  - apply (bool_decide_unpack _). by vm_compute.
  - apply (bool_decide_unpack _). by vm_compute.
  - intros Hin. apply (bool_decide_pack _) in Hin. by vm_compute in Hin.
  - reflexivity.
Defined.

(** ** Where the edges and their data come from *)

Lemma edge_data_from_rows type df g (R : list row) :
  (∀ u v d, nx.adj g !! u ≫= (.!! v) = Some d →
     ∃ r, r ∈ R ∧ row_joins r u v ∧ d = {[ metric_name type := column type r ]}) →
  ∀ u v d,
    nx.adj (foldl (λ g r, nx.add_edge (col_x r) (col_y r)
                    {[ metric_name type := column type r ]} g) g df)
      !! u ≫= (.!! v) = Some d →
    ∃ r, r ∈ R ++ df ∧ row_joins r u v ∧
         d = {[ metric_name type := column type r ]}.
Proof.
  revert g R. induction df as [|r df IH]; intros g R Hg u v d; simpl.
  - rewrite app_nil_r. apply Hg.
  - intros Hd.
    assert (Hstep : ∀ u v d,
      nx.adj (nx.add_edge (col_x r) (col_y r)
                {[ metric_name type := column type r ]} g) !! u ≫= (.!! v)
        = Some d →
      ∃ r', r' ∈ R ++ [r] ∧ row_joins r' u v ∧
            d = {[ metric_name type := column type r' ]}).
    { clear u v d Hd. intros u v d. rewrite lookup_add_edge.
      case_decide as Huv.
      - intros [= <-]. exists r. split; [set_solver|].
        split; [unfold row_joins; intuition congruence|].
        unfold nx.edge_data.
        destruct (nx.adj g !! col_x r ≫= (.!! col_y r)) as [d0|] eqn:E; simpl.
        + destruct (Hg _ _ _ E) as (r0 & _ & _ & ->).
          rewrite <- insert_union_singleton_l. apply insert_singleton_eq.
        + by rewrite (right_id ∅ (∪)).
      - intros Hold. destruct (Hg _ _ _ Hold) as (r0 & ? & ?).
        exists r0. split; [set_solver|done]. }
    destruct (IH _ (R ++ [r]) Hstep u v d Hd) as (r' & Hr' & ?).
    exists r'. split; [|done]. by rewrite <- app_assoc in Hr'.
Qed.

(** X3. Every edge of the collocation graph touches a focus word, and
    stands for a row of the bigram table about its two words, in one
    order or the other; the data of the edge is the metric of such a row,
    under the name of the metric. *)
Theorem edges_come_from_the_table
    (bigrams : list bigram) (words : list string) (type : metric) (top : Z)
    (u v : string) (d : gmap string cell) :
  nx.adj (get_nx_collocation_graph bigrams words type top) !! u ≫= (.!! v)
    = Some d →
  (u ∈ words ∨ v ∈ words) ∧
  ∃ b, b ∈ bigrams ∧ row_joins (col_rest b) u v ∧
       d = {[ metric_name type := column type (col_rest b) ]}.
Proof.
  intros Hd.
  assert (Hr : ∃ r, r ∈ df_collocates bigrams words type top ∧
                    row_joins r u v ∧
                    d = {[ metric_name type := column type r ]}).
  { unfold get_nx_collocation_graph in Hd.
    destruct (df_collocates bigrams words type top) as [|r df] eqn:E.
    - exfalso. eapply has_edge_empty. eapply no_edge_nodes_only.
      unfold nx.has_edge. by rewrite Hd.
    - unfold nx.from_pandas_edgelist in Hd.
      apply (edge_data_from_rows type (r :: df) nx.empty []) in Hd; [done|].
      intros u' v' d'. simpl. by rewrite lookup_empty. }
  destruct Hr as (r & Hr & Hj & ->).
  apply df_collocates_source in Hr as (Hx & b & Hb & Hrb). split.
  - destruct Hj as [[<- _]|[<- _]]; auto.
  - exists b. split; [done|]. destruct Hrb as [->| ->]; [done|].
    split; [|by destruct type].
    unfold row_joins in *. simpl in *. tauto.
Qed.

Lemma edges_come_from_the_table_witness :
  ("truth" ∈ ["truth"] ∨ "hoax" ∈ ["truth"]) ∧
  ∃ b, b ∈ scenario_bigrams ∧ row_joins (col_rest b) "truth" "hoax" ∧
       ({[ "f_xy" := CInt 5 ]} : gmap string cell) =
         {[ metric_name f_xy := column f_xy (col_rest b) ]}.
Proof.
  apply (edges_come_from_the_table scenario_bigrams ["truth"] f_xy 1).
  by vm_compute.
Defined.

(** ** The nodes of the collocation graph *)

Lemma node_add_node n g : nx.node (nx.add_node n g) = {[n]} ∪ nx.node g.
Proof. unfold nx.add_node. by destruct (nx.adj g !! n). Qed.

Lemma node_add_edge a b attr g :
  nx.node (nx.add_edge a b attr g) = {[a; b]} ∪ nx.node g.
Proof. unfold nx.add_edge. simpl. rewrite !node_add_node. set_solver. Qed.

Lemma node_from_rows type df g n :
  n ∈ nx.node (foldl (λ g r, nx.add_edge (col_x r) (col_y r)
                  {[ metric_name type := column type r ]} g) g df) ↔
    n ∈ nx.node g ∨ ∃ r, r ∈ df ∧ (col_x r = n ∨ col_y r = n).
Proof.
  revert g. induction df as [|r df IH]; intros g; simpl.
  - split; [auto|]. intros [?|(r & Hr & _)]; [done|]. by apply elem_of_nil in Hr.
  - rewrite IH, node_add_edge. split.
    + intros [Hn|(r' & Hr' & ?)].
      * apply elem_of_union in Hn as [Hn|Hn]; [|by left].
        right. exists r. split; [left|]. set_solver.
      * right. exists r'. split; [by right|done].
    + intros [Hn|(r' & Hr' & Hn)]; [left; set_solver|].
      apply elem_of_cons in Hr' as [->|Hr'].
      * left. set_solver.
      * right. by exists r'.
Qed.

Lemma dom_adj_add_node n g :
  dom (nx.adj g) = nx.node g →
  dom (nx.adj (nx.add_node n g)) = nx.node (nx.add_node n g).
Proof.
  intros Hg. unfold nx.add_node. destruct (nx.adj g !! n) eqn:E; simpl.
  - assert (n ∈ dom (nx.adj g)) by (apply elem_of_dom; eauto). set_solver.
  - rewrite dom_insert_L. set_solver.
Qed.

Lemma dom_adj_add_edge a b attr g :
  dom (nx.adj g) = nx.node g →
  dom (nx.adj (nx.add_edge a b attr g)) = nx.node (nx.add_edge a b attr g).
Proof.
  intros Hg. unfold nx.add_edge. simpl. rewrite !dom_insert_L.
  pose proof (dom_adj_add_node b _ (dom_adj_add_node a g Hg)) as H.
  rewrite H. rewrite !node_add_node. set_solver.
Qed.

Lemma dom_adj_collocation bigrams words type top :
  dom (nx.adj (get_nx_collocation_graph bigrams words type top)) =
    nx.node (get_nx_collocation_graph bigrams words type top).
Proof.
  unfold get_nx_collocation_graph.
  assert (H0 : dom (nx.adj nx.empty) = nx.node nx.empty) by set_solver.
  destruct (df_collocates bigrams words type top) as [|r df].
  - revert H0. generalize nx.empty.
    induction words as [|w words IH]; intros g Hg; simpl; [done|].
    by apply IH, dom_adj_add_node.
  - unfold nx.from_pandas_edgelist.
    revert H0. generalize nx.empty, (r :: df). intros g l. revert g.
    induction l as [|r' l IH]; intros g Hg; simpl; [done|].
    by apply IH, dom_adj_add_edge.
Qed.

(** X4. When at least one row is kept, the nodes of the collocation
    graph are the words of the kept rows and no others, and the adjacency
    has an entry for each of them: a focus word that occurs in no row of
    the table is then no node of the graph. *)
Theorem nodes_are_the_words_of_the_kept_rows
    (bigrams : list bigram) (words : list string) (type : metric) (top : Z) :
  df_collocates bigrams words type top ≠ [] →
  let graph := get_nx_collocation_graph bigrams words type top in
  (∀ n, n ∈ nx.node graph ↔
        ∃ r, r ∈ df_collocates bigrams words type top ∧
             (col_x r = n ∨ col_y r = n)) ∧
  dom (nx.adj graph) = nx.node graph ∧
  (∀ w, (∀ b, b ∈ bigrams → col_x (col_rest b) ≠ w ∧ col_y (col_rest b) ≠ w) →
        w ∉ nx.node graph).
Proof.
  intros Hne graph.
  assert (Hnode : ∀ n, n ∈ nx.node graph ↔
            ∃ r, r ∈ df_collocates bigrams words type top ∧
                 (col_x r = n ∨ col_y r = n)).
  { intros n. unfold graph, get_nx_collocation_graph.
    destruct (df_collocates bigrams words type top) as [|r df]; [done|].
    unfold nx.from_pandas_edgelist. rewrite node_from_rows. simpl.
    split; [|auto]. intros [?|?]; [set_solver|done]. }
  split; [done|]. split; [apply dom_adj_collocation|].
  intros w Hw (r & Hr & Hn)%Hnode.
  apply df_collocates_source in Hr as (_ & b & Hb & Hrb).
  destruct (Hw b Hb) as [? ?].
  destruct Hrb as [->| ->]; simpl in Hn; tauto.
Qed.

Lemma nodes_are_the_words_of_the_kept_rows_witness :
  "zzz_not_present" ∉
    nx.node (get_nx_collocation_graph scenario_bigrams
               ["truth"; "zzz_not_present"] f_xy 1).
Proof.
  assert (Hne : df_collocates scenario_bigrams ["truth"; "zzz_not_present"] f_xy 1
                  ≠ []) by by vm_compute.
  destruct (nodes_are_the_words_of_the_kept_rows scenario_bigrams
              ["truth"; "zzz_not_present"] f_xy 1 Hne) as (_ & _ & H).
  apply H. intros b Hb. unfold scenario_bigrams in Hb.
  rewrite !elem_of_cons, elem_of_nil in Hb.
  destruct Hb as [->|[->|[]]]; simpl; split; discriminate.
Defined.

(** ** What the collocation graph does not depend on *)

Lemma drop_duplicates_from_seen seen seen' df :
  (∀ r, r ∈ seen ↔ r ∈ seen') →
  pd.drop_duplicates_from seen df = pd.drop_duplicates_from seen' df.
Proof.
  revert seen seen'. induction df as [|r df IH]; intros seen seen' Hs; simpl;
    [done|].
  destruct (decide (r ∈ seen)) as [Hin|Hin].
  - rewrite decide_True by by apply Hs. by apply IH.
  - rewrite decide_False by by rewrite <- Hs. f_equal. apply IH.
    intros r'. rewrite !elem_of_cons, Hs. tauto.
Qed.

Lemma drop_duplicates_from_app seen l1 l2 :
  pd.drop_duplicates_from seen (l1 ++ l2) =
    pd.drop_duplicates_from seen l1 ++ pd.drop_duplicates_from (l1 ++ seen) l2.
Proof.
  revert seen. induction l1 as [|r l1 IH]; intros seen; simpl; [done|].
  destruct (decide (r ∈ seen)) as [Hin|Hin].
  - rewrite IH. f_equal. apply drop_duplicates_from_seen.
    intros r'. rewrite elem_of_cons, !elem_of_app. naive_solver.
  - rewrite IH. simpl. do 2 f_equal. apply drop_duplicates_from_seen.
    intros r'. rewrite !elem_of_cons, !elem_of_app, !elem_of_cons. tauto.
Qed.

Lemma drop_duplicates_repeated l1 r l2 :
  r ∈ l1 → pd.drop_duplicates (l1 ++ r :: l2) = pd.drop_duplicates (l1 ++ l2).
Proof.
  intros Hr. unfold pd.drop_duplicates.
  rewrite !drop_duplicates_from_app. simpl.
  by rewrite decide_True by (apply elem_of_app; auto).
Qed.

(** X5. The dates of the records do not count, nor does a record that
    repeats an earlier one on another date: two tables with the same rows
    once the dates are dropped give the same graph, and so does a table
    from which a record is taken out that has the words and the values of
    a record before it. *)
Theorem graph_ignores_dates_and_repeats
    (words : list string) (type : metric) (top : Z) :
  (∀ bigrams bigrams',
     col_rest <$> bigrams = col_rest <$> bigrams' →
     get_nx_collocation_graph bigrams words type top =
       get_nx_collocation_graph bigrams' words type top) ∧
  (∀ before after b b',
     b' ∈ before → col_rest b' = col_rest b →
     get_nx_collocation_graph (before ++ b :: after) words type top =
       get_nx_collocation_graph (before ++ after) words type top).
Proof.
  split.
  - intros bigrams bigrams' Heq.
    unfold get_nx_collocation_graph, df_collocates, pd.drop_date. by rewrite Heq.
  - intros before after b b' Hb' Heq.
    unfold get_nx_collocation_graph, df_collocates, pd.drop_date.
    rewrite !fmap_app, fmap_cons.
    rewrite drop_duplicates_repeated; [done|].
    rewrite <- Heq. apply list_elem_of_fmap. eauto.
Qed.

Lemma graph_ignores_dates_and_repeats_witness :
  get_nx_collocation_graph
    (scenario_bigrams ++
       Bigram "2020-04-20" (Row "truth" "hoax" 5 (Q2Qc 1.2)) :: [])
    ["truth"] f_xy 1 =
  get_nx_collocation_graph (scenario_bigrams ++ []) ["truth"] f_xy 1.
Proof.
  apply (proj2 (graph_ignores_dates_and_repeats ["truth"] f_xy 1)
           scenario_bigrams [] _
           (Bigram "2020-04-13" (Row "truth" "hoax" 5 (Q2Qc 1.2)))).
  - left.
  - reflexivity.
Defined.

Lemma add_nodes_set words words' :
  (∀ w, w ∈ words ↔ w ∈ words') →
  foldl (λ graph word, nx.add_node word graph) nx.empty words =
    foldl (λ graph word, nx.add_node word graph) nx.empty words'.
Proof.
  intros Hw.
  set (g := foldl _ nx.empty words). set (g' := foldl _ nx.empty words').
  assert (Hnode : nx.node g = nx.node g').
  { unfold g, g'. rewrite !node_add_nodes. apply set_eq. intros w.
    rewrite !elem_of_union, !elem_of_list_to_set, Hw. tauto. }
  assert (Hadj : nx.adj g = nx.adj g').
  { apply map_eq. intros n. unfold g, g'. rewrite !adj_add_nodes. simpl.
    rewrite lookup_empty. by apply decide_ext. }
  destruct g, g'. simpl in *. by subst.
Qed.

(** X6. Only the set of the focus words counts, not their order nor
    their repetition in the list: two lists with the same members give
    the same graph. *)
Theorem graph_depends_on_the_set_of_words
    (bigrams : list bigram) (words words' : list string) (type : metric)
    (top : Z) :
  (∀ w, w ∈ words ↔ w ∈ words') →
  get_nx_collocation_graph bigrams words type top =
    get_nx_collocation_graph bigrams words' type top.
Proof.
  intros Hw.
  assert (Hdf : df_collocates bigrams words type top =
                df_collocates bigrams words' type top).
  { unfold df_collocates.
    rewrite (list_filter_iff (λ r, col_x r ∈ words) (λ r, col_x r ∈ words'))
      by (intros; apply Hw).
    by rewrite (list_filter_iff (λ r, col_y r ∈ words) (λ r, col_y r ∈ words'))
      by (intros; apply Hw). }
  unfold get_nx_collocation_graph. rewrite Hdf.
  destruct (df_collocates bigrams words' type top); [|done].
  by apply add_nodes_set.
Qed.

Lemma graph_depends_on_the_set_of_words_witness :
  get_nx_collocation_graph scenario_bigrams ["truth"; "lies"] pmi 7 =
    get_nx_collocation_graph scenario_bigrams ["lies"; "truth"; "lies"] pmi 7.
Proof.
  apply graph_depends_on_the_set_of_words.
  intros w. rewrite !elem_of_cons, elem_of_nil. tauto.
Defined.

(** ** The labels of the categories *)

Lemma taxonomy_category_unfold level category vocabulary subcategories
    categories path h :
  taxonomy_category level (Taxonomy category vocabulary subcategories)
    categories path h =
    let '(categories, path, h) :=
      match category with
      | Some c =>
          let '(path, h) :=
            if decide (level = 0) then (path, <[path := []]> h)
            else if decide (level < length (read h path))
                 then new_list (take level (read h path)) h
                 else (path, h) in
          let h := <[path := read h path ++ [capitalize (name c)]]> h in
          (<[uuid c := join " > " (read h path)]> categories, path, h)
      | None => (categories, path, h)
      end in
    match subcategories with
    | Some data =>
        let '(result, _, h) :=
          taxonomy_categories_loop (S level) data ∅ path h in
        (result ∪ categories, path, h)
    | None => (categories, path, h)
    end.
Proof. reflexivity. Qed.

Lemma category_labels_unfold prefix category vocabulary subcategories categories :
  category_labels prefix (Taxonomy category vocabulary subcategories) categories =
    let names :=
      match category with
      | Some c => prefix ++ [capitalize (name c)]
      | None => prefix
      end in
    let categories :=
      match category with
      | Some c => <[uuid c := join " > " names]> categories
      | None => categories
      end in
    match subcategories with
    | Some data => category_labels_list names data ∅ ∪ categories
    | None => categories
    end.
Proof. reflexivity. Qed.

Lemma preserved_refl level h : preserved level h h.
Proof. intros a l Ha. eauto. Qed.

Lemma preserved_trans level h1 h2 h3 :
  preserved level h1 h2 → preserved level h2 h3 → preserved level h1 h3.
Proof.
  intros H12 H23 a l Ha. destruct (H12 a l Ha) as (l2 & Ha2 & E2).
  destruct (H23 a l2 Ha2) as (l3 & Ha3 & E3). exists l3. split; [done|].
  congruence.
Qed.

Lemma take_take_le {A} (l : list A) n m :
  n ≤ m → take n (take m l) = take n l.
Proof. intros ?. rewrite take_take. f_equal. lia. Qed.

Lemma preserved_below level h h' : preserved (S level) h h' → preserved level h h'.
Proof.
  intros H a l Ha. destruct (H a l Ha) as (l' & Ha' & E). exists l'.
  split; [done|].
  rewrite <- (take_take_le l level (S level)), <- (take_take_le l' level (S level))
    by lia.
  by rewrite E.
Qed.

Lemma preserved_new l level h :
  preserved level h (new_list l h).2.
Proof.
  intros a l' Ha. unfold new_list. simpl. exists l'. split; [|done].
  rewrite lookup_insert_ne; [done|].
  intros <-. apply (is_fresh (dom h)). apply elem_of_dom. eauto.
Qed.

Lemma preserved_insert level h path l l' :
  h !! path = Some l → take level l' = take level l →
  preserved level h (<[path := l']> h).
Proof.
  intros Hp E a la Ha. destruct (decide (path = a)) as [->|Hne].
  - rewrite lookup_insert_eq. exists l'. split; [done|]. congruence.
  - rewrite lookup_insert_ne by done. eauto.
Qed.

(** What one turn does when the variable [path] holds the names above:
    it gives the labels meant, leaves in [path] a list that begins with
    the same names, and changes no list object in its first [level]
    items. *)
Definition category_turn (level : nat) (value : taxonomy) : Prop :=
  ∀ categories path h prefix,
    h !! path = Some (read h path) →
    take level (read h path) = prefix → length prefix = level →
    ∃ path' h',
      taxonomy_category level value categories path h =
        (category_labels prefix value categories, path', h') ∧
      h' !! path' = Some (read h' path') ∧
      take level (read h' path') = prefix ∧
      preserved level h h'.

Lemma taxonomy_categories_loop_labels level data :
  Forall (category_turn level) data →
  ∀ categories path h prefix,
    h !! path = Some (read h path) →
    take level (read h path) = prefix → length prefix = level →
    ∃ path' h',
      taxonomy_categories_loop level data categories path h =
        (category_labels_list prefix data categories, path', h') ∧
      preserved level h h'.
Proof.
  induction 1 as [|value data Hvalue _ IH];
    intros categories path h prefix Hpath Htake Hlen; simpl.
  - exists path, h. split; [done|apply preserved_refl].
  - destruct (Hvalue categories path h prefix Hpath Htake Hlen)
      as (path1 & h1 & -> & Hpath1 & Htake1 & Hpres1).
    destruct (IH (category_labels prefix value categories) path1 h1 prefix
                Hpath1 Htake1 Hlen) as (path2 & h2 & -> & Hpres2).
    exists path2, h2. split; [done|]. by eapply preserved_trans.
Qed.

Lemma read_insert h path l : read (<[path := l]> h) path = l.
Proof. unfold read. by rewrite lookup_insert_eq. Qed.

Lemma taxonomy_category_labels value :
  categorised value → ∀ level, category_turn level value.
Proof.
  induction value as [category vocabulary subcategories IH]
    using taxonomy_nested_ind.
  intros [[c ->] Hsub]%categorised_unfold level
    categories path h prefix Hpath Htake Hlen.
  rewrite taxonomy_category_unfold, category_labels_unfold.
  (* the variable [path] after the test of the level *)
  assert (H1 : ∃ path1 h1,
    (if decide (level = 0) then (path, <[path := []]> h)
     else if decide (level < length (read h path))
          then new_list (take level (read h path)) h
          else (path, h)) = (path1, h1) ∧
    h1 !! path1 = Some prefix ∧ preserved level h h1).
  { destruct (decide (level = 0)) as [->|Hlevel].
    - exists path, (<[path := []]> h). split; [done|].
      rewrite lookup_insert_eq. destruct prefix; [|done]. split; [done|].
      by eapply preserved_insert.
    - destruct (decide (level < length (read h path))) as [Hlong|Hshort].
      + eexists _, _. split; [done|]. split.
        * unfold new_list. simpl. by rewrite lookup_insert_eq, Htake.
        * apply preserved_new.
      + exists path, h. split; [done|]. split; [|apply preserved_refl].
        rewrite Hpath. f_equal. rewrite <- Htake. symmetry. apply take_ge.
        lia. }
  destruct H1 as (path1 & h1 & -> & Hpath1 & Hpres1).
  assert (Hread1 : read h1 path1 = prefix) by (unfold read; by rewrite Hpath1).
  cbv beta iota zeta. rewrite Hread1, read_insert.
  set (names := prefix ++ [capitalize (name c)]).
  set (h2 := <[path1 := names]> h1).
  assert (Hpres2 : preserved level h1 h2).
  { eapply preserved_insert; [done|]. unfold names.
    rewrite take_app_le by lia. done. }
  destruct subcategories as [data|]; simpl in IH, Hsub.
  - assert (Hturns : Forall (category_turn (S level)) data).
    { rewrite Forall_forall in IH, Hsub. apply Forall_forall.
      intros value Hin. by apply IH, Hsub. }
    destruct (taxonomy_categories_loop_labels (S level) data Hturns ∅ path1 h2
                names) as (path3 & h3 & -> & Hpres3).
    + unfold h2. by rewrite read_insert, lookup_insert_eq.
    + unfold h2. rewrite read_insert. apply take_ge. unfold names.
      rewrite length_app. simpl. lia.
    + unfold names. rewrite length_app. simpl. lia.
    + exists path1, h3. split; [done|].
      destruct (Hpres3 path1 names) as (l3 & Hl3 & E3);
        [unfold h2; by rewrite lookup_insert_eq|].
      assert (Hread3 : read h3 path1 = l3) by (unfold read; by rewrite Hl3).
      rewrite Hread3. split; [done|]. split.
      * rewrite <- (take_take_le l3 level (S level)) by lia. rewrite E3.
        rewrite take_take_le by lia. unfold names.
        rewrite take_app_le by lia. apply take_ge. lia.
      * eapply preserved_trans; [exact Hpres1|].
        eapply preserved_trans; [exact Hpres2|]. by apply preserved_below.
  - exists path1, h2. split; [done|]. unfold h2.
    rewrite read_insert, lookup_insert_eq. split; [done|]. split.
    + unfold names. rewrite take_app_le by lia. apply take_ge. lia.
    + by eapply preserved_trans.
Qed.

(** X7. Where every entry has a category, [get_taxonomy_categories],
    called at level 0, maps the identifier of every category to the
    names from its top category down to itself, capitalised and joined
    by " > ", whatever the list of the parameter [path] holds from calls
    before: the items that a call appends to the list it shares with its
    caller never reach a label of another branch. *)
Theorem category_labels_follow_the_tree
    (data : list taxonomy) (path : nat) (h : gmap nat (list string)) :
  is_Some (h !! path) → Forall categorised data →
  (get_taxonomy_categories data path 0 h).1 = category_labels_list [] data ∅.
Proof.
  intros [l Hl] Hdata. unfold get_taxonomy_categories.
  assert (Hturns : Forall (category_turn 0) data).
  { rewrite Forall_forall in Hdata. apply Forall_forall.
    intros value Hin. by apply taxonomy_category_labels, Hdata. }
  destruct (taxonomy_categories_loop_labels 0 data Hturns ∅ path h [])
    as (path' & h' & -> & _); try done.
  unfold read. by rewrite Hl.
Qed.

Lemma category_labels_follow_the_tree_witness :
  (get_taxonomy_categories vaccines_taxonomy 0 0 {[ 0 := ["Old"; "Stale"] ]}).1 =
    category_labels_list [] vaccines_taxonomy ∅.
Proof.
  apply category_labels_follow_the_tree.
  - rewrite lookup_singleton_eq. by eexists.
  - let t := eval vm_compute in vaccines_taxonomy in
    change vaccines_taxonomy with t.
    repeat constructor; simpl; repeat split; by eexists.
Defined.

(** ** Normalising twice *)

Lemma string_app_cons x (a b : string) : String x a +:+ b = String x (a +:+ b).
Proof. reflexivity. Qed.

Lemma string_app_assoc (a b c : string) : (a +:+ b) +:+ c = a +:+ (b +:+ c).
Proof.
  induction a as [|x a IH]; [done|]. by rewrite !string_app_cons, IH.
Qed.

Lemma string_app_empty_r (s : string) : s +:+ "" = s.
Proof. induction s as [|x s IH]; [done|]. by rewrite string_app_cons, IH. Qed.

(** A string without white space is one word, or none when it is empty. *)
Lemma split_from_one_word word s :
  Forall (λ c, is_space c = false) (chars s) →
  split_from word s = if decide (word +:+ s = "") then [] else [word +:+ s].
Proof.
  revert word. induction s as [|c s IH]; intros word Hs; simpl.
  - by rewrite string_app_empty_r.
  - apply Forall_cons in Hs as [Hc Hs]. rewrite Hc, IH by done.
    by rewrite string_app_assoc.
Qed.

Lemma remove_char_absent a s : a ∉ chars s → remove_char a s = s.
Proof.
  induction s as [|c s IH]; simpl; [done|].
  rewrite not_elem_of_cons. intros [Hne Hs].
  rewrite decide_False by done. by rewrite IH.
Qed.

Lemma vocabulary_words_cons phrase vocabulary :
  vocabulary_words (phrase :: vocabulary) =
    vocabulary_words [phrase] ++ vocabulary_words vocabulary.
Proof.
  unfold vocabulary_words. simpl. rewrite app_nil_r.
  by rewrite fmap_app, filter_app.
Qed.

Lemma vocabulary_words_tidy_word w :
  tidy_word w → vocabulary_words [w] = if decide (w = "") then [] else [w].
Proof.
  intros (Hlower & Hstar & Hstop & Hspace).
  unfold vocabulary_words. simpl. rewrite app_nil_r.
  unfold split. rewrite split_from_one_word by done.
  change ("" +:+ w) with w.
  destruct (decide (w = "")) as [->|Hne]; [done|].
  rewrite fmap_cons, fmap_nil, Hlower, remove_char_absent by done.
  rewrite filter_cons, decide_True by done. done.
Qed.

Lemma vocabulary_words_of_tidy_words l :
  Forall tidy_word l → vocabulary_words l = filter (λ w, w ≠ "") l.
Proof.
  induction 1 as [|w l Hw _ IH]; [done|].
  rewrite vocabulary_words_cons, IH, vocabulary_words_tidy_word by done.
  rewrite filter_cons.
  destruct (decide (w = "")); [by rewrite decide_False by auto|].
  by rewrite decide_True by done.
Qed.

(** X8. Normalising the vocabulary a second time changes nothing but the
    empty words: the words that [tidy_taxonomies] makes of a list of
    phrases are, when given back as phrases, made into themselves, the
    empty ones dropped.  An empty word does arise, from a phrase word
    made of asterisks only. *)
Theorem vocabulary_words_twice (vocabulary : list string) :
  vocabulary_words (vocabulary_words vocabulary) =
    filter (λ w, w ≠ "") (vocabulary_words vocabulary) ∧
  vocabulary_words ["vaccine* **"] = ["vaccine"; ""].
Proof.
  split; [|by vm_compute].
  apply vocabulary_words_of_tidy_words, vocabulary_words_tidy.
Qed.

(** ** The vocabulary of a taxonomy, end to end *)

(** X9. On a graph that [get_nx_taxonomies_graph] has returned,
    [get_taxonomy_vocabularies] raises nothing, whatever the category
    asked for, and its list is sorted without regard to case. *)
Theorem vocabularies_of_a_built_graph
    (data : list taxonomy) (graph : nx.DiGraph) (category : option nat) :
  get_nx_taxonomies_graph data = Ok graph →
  ∃ vocabularies,
    get_taxonomy_vocabularies graph category = Ok vocabularies ∧
    Sorted casefold_le vocabularies.
Proof.
  intros Hg%get_nx_taxonomies_graph_typed%taxonomy_graph_nodes.
  unfold get_taxonomy_vocabularies.
  destruct category as [category|].
  - destruct (decide (nx.di_has_node graph category)).
    + rewrite vocabulary_labels_typed.
      * eexists. split; [done|]. apply sorted_sorted.
      * apply Forall_forall. intros xy [_ Hin]%list_elem_of_filter.
        rewrite Forall_forall in Hg. by apply Hg.
    + eexists. split; [done|]. constructor.
  - rewrite vocabulary_labels_typed by done.
    eexists. split; [done|]. apply sorted_sorted.
Qed.

Lemma vocabularies_of_a_built_graph_witness :
  ∃ vocabularies,
    get_taxonomy_vocabularies vaccines_graph (Some 8) = Ok vocabularies ∧
    Sorted casefold_le vocabularies.
Proof.
  apply (vocabularies_of_a_built_graph (tidy_taxonomies vaccines_yaml)).
  by vm_compute.
Defined.

Lemma node_items_unfold category vocabulary subcategories :
  node_items (Taxonomy category vocabulary subcategories) =
    ((λ c, (uuid c, category_attr c)) <$> option_list category) ++
    ((λ word, (uuid word, vocabulary_attr word)) <$> default [] vocabulary) ++
    node_items_list (default [] subcategories).
Proof. by destruct subcategories. Qed.

Lemma labels_of_app l1 l2 : labels_of (l1 ++ l2) = labels_of l1 ++ labels_of l2.
Proof. unfold labels_of. by rewrite filter_app, fmap_app. Qed.

Lemma labels_of_vocabulary words :
  labels_of ((λ word, (uuid word, vocabulary_attr word)) <$> words) =
    name <$> words.
Proof.
  induction words as [|word words IH]; [done|].
  rewrite !fmap_cons. unfold labels_of in *. rewrite filter_cons.
  rewrite decide_True by done. rewrite fmap_cons, IH. done.
Qed.

Lemma labels_of_node_items value : labels_of (node_items value) = words_of value.
Proof.
  induction value as [category vocabulary subcategories IH]
    using taxonomy_nested_ind.
  rewrite node_items_unfold, words_of_unfold, !labels_of_app.
  rewrite labels_of_vocabulary.
  assert (labels_of (node_items_list (default [] subcategories)) =
          words_of_list (default [] subcategories)) as ->.
  { induction IH as [|value l Hvalue _ IHl]; [done|]. simpl.
    by rewrite labels_of_app, Hvalue, IHl. }
  by destruct category.
Qed.

Lemma labels_of_node_items_list l :
  labels_of (node_items_list l) = words_of_list l.
Proof.
  induction l as [|value l IH]; [done|]. simpl.
  by rewrite labels_of_app, labels_of_node_items, IH.
Qed.

Lemma node_items_keys value : (node_items value).*1 = uuids_of value.
Proof.
  induction value as [category vocabulary subcategories IH]
    using taxonomy_nested_ind.
  rewrite node_items_unfold, uuids_of_unfold, !fmap_app.
  assert ((node_items_list (default [] subcategories)).*1 =
          uuids_of_list (default [] subcategories)) as ->.
  { induction IH as [|value l Hvalue _ IHl]; [done|]. simpl.
    by rewrite fmap_app, Hvalue, IHl. }
  rewrite <- !list_fmap_compose. by destruct category.
Qed.

Lemma node_items_list_keys l : (node_items_list l).*1 = uuids_of_list l.
Proof.
  induction l as [|value l IH]; [done|]. simpl.
  by rewrite fmap_app, node_items_keys, IH.
Qed.

Lemma built_refl g : consistent g → built g g [].
Proof. by split. Qed.

Lemma built_trans g0 g1 g2 items1 items2 :
  built g0 g1 items1 → built g1 g2 items2 → built g0 g2 (items1 ++ items2).
Proof.
  intros (_ & H1 & Hm1) (Hc & H2 & Hm2). split; [done|]. split; [|eauto].
  rewrite H2, H1. rewrite !app_assoc. f_equiv. apply Permutation_app_comm.
Qed.

Lemma lookup_None_map_to_list {V} (m : gmap nat V) n :
  m !! n = None ↔ n ∉ (map_to_list m).*1.
Proof.
  rewrite list_elem_of_fmap. split.
  - intros Hn ([n' x] & -> & Hin%elem_of_map_to_list). simpl in *. congruence.
  - intros Hn. destruct (m !! n) as [x|] eqn:E; [|done].
    exfalso. apply Hn. exists (n, x). split; [done|]. by apply elem_of_map_to_list.
Qed.

Lemma built_lookup_None g0 g items n :
  built g0 g items →
  nx.di_node g !! n = None ↔ nx.di_node g0 !! n = None ∧ n ∉ items.*1.
Proof.
  intros (_ & Hperm & _). rewrite !lookup_None_map_to_list, Hperm.
  rewrite fmap_app, not_elem_of_app. tauto.
Qed.

Lemma di_add_node_fresh n attr g :
  consistent g → nx.di_node g !! n = None →
  built g (nx.di_add_node n attr g) [(n, attr)].
Proof.
  intros Hc Hn. unfold nx.di_add_node.
  rewrite (proj2 (Hc n) Hn). split; [|split]; simpl.
  - intros m. simpl. destruct (decide (n = m)) as [->|Hne].
    + by rewrite !lookup_insert_eq.
    + rewrite !lookup_insert_ne by done. apply Hc.
  - by apply map_to_list_insert.
  - intros m. unfold present. simpl. destruct (decide (n = m)) as [->|Hne].
    + rewrite lookup_insert_eq. by eexists.
    + by rewrite lookup_insert_ne.
Qed.

Lemma di_add_edge_built u v g :
  consistent g → present g u → present g v →
  built g (nx.di_add_edge u v g) [].
Proof.
  intros Hc Hu Hv. split; [|split].
  - unfold nx.di_add_edge.
    rewrite (di_touch_present u g), (di_touch_present v g) by done.
    intros m. simpl. destruct (decide (u = m)) as [->|Hne].
    + rewrite lookup_insert_eq. split; [done|]. intros Hm%Hc.
      destruct Hu as [? Hu]. congruence.
    + rewrite lookup_insert_ne by done. apply Hc.
  - unfold nx.di_add_edge.
    by rewrite (di_touch_present u g), (di_touch_present v g).
  - intros m Hm. by apply di_add_edge_present.
Qed.

(** The loop over the vocabulary of an entry with the category [c]. *)
Lemma vocabulary_loop_built (c : term) words g g' :
  consistent g → present g (uuid c) → NoDup (uuid <$> words) →
  (∀ word, word ∈ words → nx.di_node g !! uuid word = None) →
  for_each (λ graph word,
    let graph := nx.di_add_node (uuid word)
                   {[ "label" := name word; "type" := "vocabulary" ]} graph in
    c' ← category_uuid (Some c);
    Ok (nx.di_add_edge c' (uuid word) graph)) words g = Ok g' →
  built g g' ((λ word, (uuid word, vocabulary_attr word)) <$> words).
Proof.
  revert g. induction words as [|word words IH]; intros g Hc Hp Hnd Hfresh; simpl.
  - intros [= <-]. by apply built_refl.
  - apply NoDup_cons in Hnd as [Hword Hnd].
    set (g1 := nx.di_add_node (uuid word) _ g).
    assert (H1 : built g g1 [(uuid word, vocabulary_attr word)]).
    { apply di_add_node_fresh; [done|]. apply Hfresh. left. }
    assert (H2 : built g1 (nx.di_add_edge (uuid c) (uuid word) g1) []).
    { destruct H1 as (Hc1 & _ & Hm1). apply di_add_edge_built; [done|eauto|].
      apply di_add_node_present. auto. }
    pose proof (built_trans _ _ _ _ _ H1 H2) as H12. simpl in H12.
    intros Hrest. apply IH in Hrest.
    + apply (built_trans _ _ _ _ _ H12 Hrest).
    + apply H12.
    + destruct H12 as (_ & _ & Hm). eauto.
    + done.
    + intros word' Hin. apply (built_lookup_None _ _ _ _ H12). split.
      * apply Hfresh. by right.
      * simpl. rewrite list_elem_of_singleton. intros E. apply Hword.
        rewrite <- E. apply list_elem_of_fmap. eauto.
Qed.

(** What an entry adds to the graph when its identifiers are new. *)
Definition adds_its_nodes (value : taxonomy) : Prop :=
  ∀ parent g g',
    consistent g → (∀ p, parent = Some p → present g p) →
    NoDup (uuids_of value) →
    (∀ u, u ∈ uuids_of value → nx.di_node g !! u = None) →
    nx_taxonomy parent g value = Ok g' →
    built g g' (node_items value).

Lemma subcategories_loop_built parent data :
  Forall adds_its_nodes data →
  ∀ g g',
    consistent g → (∀ p, parent = Some p → present g p) →
    NoDup (uuids_of_list data) →
    (∀ u, u ∈ uuids_of_list data → nx.di_node g !! u = None) →
    for_each (nx_taxonomy parent) data g = Ok g' →
    built g g' (node_items_list data).
Proof.
  induction 1 as [|value data Hvalue _ IH]; intros g g' Hc Hp Hnd Hfresh; simpl.
  - intros [= <-]. by apply built_refl.
  - apply NoDup_app in Hnd as (Hnd1 & Hdisj & Hnd2).
    destruct (nx_taxonomy parent g value) as [g1|e] eqn:E1; [|done]. simpl.
    assert (H1 : built g g1 (node_items value)).
    { apply (Hvalue parent); try done.
      intros u Hu. apply Hfresh, elem_of_app. auto. }
    intros Hrest. apply IH in Hrest.
    + apply (built_trans _ _ _ _ _ H1 Hrest).
    + apply H1.
    + intros p ->. destruct H1 as (_ & _ & Hm). eauto.
    + done.
    + intros u Hu. apply (built_lookup_None _ _ _ _ H1). split.
      * apply Hfresh, elem_of_app. auto.
      * rewrite node_items_keys. intros Hu'. by apply (Hdisj u).
Qed.

Lemma nx_taxonomy_adds_its_nodes value : adds_its_nodes value.
Proof.
  induction value as [category vocabulary subcategories IH]
    using taxonomy_nested_ind.
  intros parent g g' Hc Hp. rewrite uuids_of_unfold, node_items_unfold.
  intros Hnd Hfresh. rewrite nx_taxonomy_unfold. cbv zeta.
  apply NoDup_app in Hnd as (Hnd1 & Hdisj1 & Hnd23).
  apply NoDup_app in Hnd23 as (Hnd2 & Hdisj2 & Hnd3).
  (* the category node *)
  set (g1 := match category with
             | Some c => match parent with
                         | Some p => nx.di_add_edge p (uuid c) _
                         | None => _
                         end
             | None => g
             end).
  assert (H1 : built g g1 ((λ c, (uuid c, category_attr c)) <$> option_list category)
               ∧ ∀ c, category = Some c → present g1 (uuid c)).
  { unfold g1. destruct category as [c|]; simpl; [|split; [by apply built_refl|done]].
    assert (Ha : built g (nx.di_add_node (uuid c) (category_attr c) g)
                   [(uuid c, category_attr c)]).
    { apply di_add_node_fresh; [done|]. apply Hfresh. set_solver. }
    assert (Hpc : present (nx.di_add_node (uuid c) (category_attr c) g) (uuid c))
      by (apply di_add_node_present; auto).
    destruct parent as [p|].
    - assert (Hb : built (nx.di_add_node (uuid c) (category_attr c) g)
                     (nx.di_add_edge p (uuid c)
                        (nx.di_add_node (uuid c) (category_attr c) g)) []).
      { destruct Ha as (Hca & _ & Hma). apply di_add_edge_built; eauto. }
      pose proof (built_trans _ _ _ _ _ Ha Hb) as Hab. split; [done|].
      intros ? [= <-]. destruct Hb as (_ & _ & Hmb). eauto.
    - split; [done|]. by intros ? [= <-]. }
  clearbody g1. destruct H1 as [H1 Hcat].
  (* the vocabulary nodes *)
  destruct (match vocabulary with
            | Some words => for_each _ words g1
            | None => Ok g1
            end) as [g2|e] eqn:E2; [|done]. simpl.
  assert (H2 : built g1 g2
                 ((λ word, (uuid word, vocabulary_attr word)) <$>
                    default [] vocabulary)).
  { destruct vocabulary as [words|]; simpl;
      [|injection E2 as <-; apply built_refl, H1].
    destruct category as [c|].
    - apply (vocabulary_loop_built c); try done.
      + apply H1.
      + by apply Hcat.
      + intros word Hin. apply (built_lookup_None _ _ _ _ H1). split.
        * apply Hfresh. apply elem_of_app. right. apply elem_of_app. left.
          apply list_elem_of_fmap. eauto.
        * simpl. rewrite list_elem_of_singleton. intros E.
          apply (Hdisj1 (uuid c)); [set_solver|].
          apply elem_of_app. left. rewrite <- E. apply list_elem_of_fmap. eauto.
    - destruct words as [|word words]; [|done].
      injection E2 as <-. apply built_refl, H1. }
  pose proof (built_trans _ _ _ _ _ H1 H2) as H12.
  (* the subcategories *)
  destruct subcategories as [data|]; simpl in *.
  - destruct category as [c|]; [|done]. simpl. intros E3.
    assert (H3 : built g2 g' (node_items_list data)).
    { apply (subcategories_loop_built (Some (uuid c)) data IH); try done.
      - apply H2.
      - intros p [= <-]. destruct H2 as (_ & _ & Hm2). eauto.
      - intros u Hu. apply (built_lookup_None _ _ _ _ H12). split.
        + apply Hfresh. rewrite !elem_of_app. auto.
        + rewrite fmap_app, not_elem_of_app, <- !list_fmap_compose. split.
          * intros Hin. apply (Hdisj1 u); [done|]. apply elem_of_app. by right.
          * intros Hin. by apply (Hdisj2 u). }
    pose proof (built_trans _ _ _ _ _ H12 H3) as H123.
    by rewrite <- app_assoc in H123.
  - intros [= <-]. by rewrite app_nil_r.
Qed.

(** X10. For a taxonomy in which every entry has a category and no two
    lists of entries are equal (the list of the file and the
    [subcategories] at every depth, so that no call of [tidy_taxonomies]
    is answered from the cache), [get_nx_taxonomies_graph] returns a
    graph for the tidied taxonomy, and on that graph
    [get_taxonomy_vocabularies(graph, None)] returns, sorted without
    regard to case, the vocabulary words of all the entries at all
    depths, each as often as the taxonomy has it. *)
Theorem all_vocabulary_of_a_taxonomy (data : list yaml) :
  NoDup (calls_of data) →
  Forall categorised (tidy_taxonomies data) →
  ∃ graph vocabularies,
    get_nx_taxonomies_graph (tidy_taxonomies data) = Ok graph ∧
    get_taxonomy_vocabularies graph None = Ok vocabularies ∧
    vocabularies ≡ₚ words_of_list (tidy_taxonomies data) ∧
    Sorted casefold_le vocabularies.
Proof.
  intros Hcalls Hcat.
  destruct (get_nx_taxonomies_graph_succeeds _ Hcat) as [graph Hgraph].
  exists graph.
  assert (Hbuilt : built nx.di_empty graph (node_items_list (tidy_taxonomies data))).
  { apply (subcategories_loop_built None (tidy_taxonomies data)); try done.
    - apply Forall_forall. intros value _. apply nx_taxonomy_adds_its_nodes.
    - rewrite (tidy_taxonomies_runs_the_body data Hcalls).
      destruct (body_taxonomies_spec data 0) as (_ & -> & _). apply NoDup_seq. }
  pose proof (get_nx_taxonomies_graph_typed _ _ Hgraph) as Htyped.
  apply taxonomy_graph_nodes in Htyped.
  eexists. unfold get_taxonomy_vocabularies.
  rewrite vocabulary_labels_typed by done. split; [done|]. split; [done|].
  split; [|apply sorted_sorted].
  rewrite sorted_perm. destruct Hbuilt as (_ & Hperm & _).
  simpl in Hperm. rewrite map_to_list_empty, app_nil_r in Hperm.
  unfold labels_of at 1. rewrite Hperm.
  fold (labels_of (node_items_list (tidy_taxonomies data))).
  by rewrite labels_of_node_items_list.
Qed.

Lemma all_vocabulary_of_a_taxonomy_witness :
  ∃ graph vocabularies,
    get_nx_taxonomies_graph (tidy_taxonomies vaccines_yaml) = Ok graph ∧
    get_taxonomy_vocabularies graph None = Ok vocabularies ∧
    vocabularies ≡ₚ words_of_list (tidy_taxonomies vaccines_yaml) ∧
    Sorted casefold_le vocabularies.
Proof.
  apply all_vocabulary_of_a_taxonomy.
  - let l := eval vm_compute in (calls_of vaccines_yaml) in
    change (calls_of vaccines_yaml) with l.
    apply NoDup_cons. split; [|apply NoDup_singleton].
    rewrite list_elem_of_singleton. by intros [=].
  - let t := eval vm_compute in (tidy_taxonomies vaccines_yaml) in
    change (tidy_taxonomies vaccines_yaml) with t.
    repeat constructor; simpl; repeat split; by eexists.
Defined.

(** ** The vocabulary of a category *)

Lemma entries_of_unfold category vocabulary subcategories :
  entries_of (Taxonomy category vocabulary subcategories) =
    Taxonomy category vocabulary subcategories ::
    entries_of_list (default [] subcategories).
Proof. by destruct subcategories. Qed.

Lemma edge_items_unfold parent c vocabulary subcategories :
  edge_items parent (Taxonomy (Some c) vocabulary subcategories) =
    ((λ p, (p, uuid c)) <$> option_list parent) ++
    ((λ word, (uuid c, uuid word)) <$> default [] vocabulary) ++
    edge_items_list (Some (uuid c)) (default [] subcategories).
Proof. by destruct subcategories. Qed.

Lemma edge_items_list_cons parent value data :
  edge_items_list parent (value :: data) =
    edge_items parent value ++ edge_items_list parent data.
Proof. done. Qed.

Lemma linked_refl g : linked g g [].
Proof. intros u v. set_solver. Qed.

Lemma linked_trans g0 g1 g2 items1 items2 :
  linked g0 g1 items1 → linked g1 g2 items2 → linked g0 g2 (items1 ++ items2).
Proof.
  intros H1 H2 u v. rewrite (H2 u v), (H1 u v), elem_of_app. tauto.
Qed.

Lemma successors_add_node n attr g u :
  nx.successors (nx.di_add_node n attr g) u = nx.successors g u.
Proof.
  unfold nx.successors, nx.di_add_node.
  destruct (nx.di_succ g !! n) as [s|] eqn:E; simpl; [done|].
  destruct (decide (u = n)) as [->|Hne].
  - by rewrite lookup_insert_eq, E.
  - by rewrite lookup_insert_ne.
Qed.

Lemma successors_touch n g u :
  nx.successors (nx.di_touch n g) u = nx.successors g u.
Proof.
  unfold nx.successors, nx.di_touch.
  destruct (nx.di_succ g !! n) as [s|] eqn:E; simpl; [done|].
  destruct (decide (u = n)) as [->|Hne].
  - by rewrite lookup_insert_eq, E.
  - by rewrite lookup_insert_ne.
Qed.

Lemma di_add_node_linked n attr g : linked g (nx.di_add_node n attr g) [].
Proof.
  intros u v. unfold nx.di_edge. rewrite successors_add_node. set_solver.
Qed.

Lemma di_add_edge_linked a b g : linked g (nx.di_add_edge a b g) [(a, b)].
Proof.
  intros u v. unfold nx.di_edge.
  rewrite <- (successors_touch a g u), <- (successors_touch b (nx.di_touch a g) u).
  unfold nx.di_add_edge, nx.successors at 1. simpl.
  rewrite list_elem_of_singleton.
  destruct (decide (u = a)) as [->|Hne].
  - rewrite lookup_insert_eq. simpl. unfold nx.successors.
    rewrite elem_of_union, elem_of_singleton. split.
    + intros [->|H]; auto.
    + intros [H|[= ->]]; auto.
  - rewrite lookup_insert_ne by done. unfold nx.successors. split; [auto|].
    intros [H|[= -> _]]; done.
Qed.

Lemma vocabulary_loop_linked (c : term) words g g' :
  for_each (λ graph word,
    let graph := nx.di_add_node (uuid word)
                   {[ "label" := name word; "type" := "vocabulary" ]} graph in
    c' ← category_uuid (Some c);
    Ok (nx.di_add_edge c' (uuid word) graph)) words g = Ok g' →
  linked g g' ((λ word, (uuid c, uuid word)) <$> words).
Proof.
  revert g. induction words as [|word words IH]; intros g; simpl.
  - intros [= <-]. apply linked_refl.
  - intros Hrest. apply IH in Hrest.
    eapply (linked_trans _ _ _ [(uuid c, uuid word)] _); [|done].
    eapply (linked_trans _ _ _ [] _); [apply di_add_node_linked|].
    apply di_add_edge_linked.
Qed.

Definition adds_its_edges (value : taxonomy) : Prop :=
  ∀ parent g g',
    nx_taxonomy parent g value = Ok g' → linked g g' (edge_items parent value).

Lemma subcategories_loop_linked parent data :
  Forall adds_its_edges data →
  ∀ g g', for_each (nx_taxonomy parent) data g = Ok g' →
          linked g g' (edge_items_list parent data).
Proof.
  induction 1 as [|value data Hvalue _ IH]; intros g g'; simpl.
  - intros [= <-]. apply linked_refl.
  - destruct (nx_taxonomy parent g value) as [g1|e] eqn:E1; [|done]. simpl.
    intros Hrest. apply (linked_trans _ g1); [by apply Hvalue|by apply IH].
Qed.

Lemma nx_taxonomy_adds_its_edges value : adds_its_edges value.
Proof.
  induction value as [category vocabulary subcategories IH]
    using taxonomy_nested_ind.
  intros parent g g'. rewrite nx_taxonomy_unfold. cbv zeta.
  destruct category as [c|].
  - rewrite edge_items_unfold.
    set (g1 := match parent with
               | Some p => nx.di_add_edge p (uuid c) _
               | None => _
               end).
    assert (H1 : linked g g1 ((λ p, (p, uuid c)) <$> option_list parent)).
    { unfold g1. destruct parent as [p|]; simpl.
      - eapply (linked_trans _ _ _ [] _); [apply di_add_node_linked|].
        apply di_add_edge_linked.
      - apply di_add_node_linked. }
    clearbody g1.
    destruct (match vocabulary with
              | Some words => for_each _ words g1
              | None => Ok g1
              end) as [g2|e] eqn:E2; [|done]. simpl.
    assert (H2 : linked g1 g2 ((λ word, (uuid c, uuid word)) <$>
                                 default [] vocabulary)).
    { destruct vocabulary as [words|]; simpl.
      - by apply vocabulary_loop_linked.
      - injection E2 as <-. apply linked_refl. }
    intros E3. apply (linked_trans _ _ _ _ _ H1), (linked_trans _ _ _ _ _ H2).
    destruct subcategories as [data|]; simpl in *.
    + by apply subcategories_loop_linked.
    + injection E3 as <-. apply linked_refl.
  - destruct vocabulary as [[|word words]|]; simpl; try done;
      (destruct subcategories as [data|]; simpl; [done|]);
      intros [= <-]; apply linked_refl.
Qed.

(** The nodes of an entry are a segment of the nodes of the taxonomy it
    occurs in. *)
Lemma entries_of_list_segment_from data t :
  Forall (λ e, ∀ t, t ∈ entries_of e →
            ∃ pre post, node_items e = pre ++ node_items t ++ post) data →
  t ∈ entries_of_list data →
  ∃ pre post, node_items_list data = pre ++ node_items t ++ post.
Proof.
  induction 1 as [|e data He _ IH]; simpl; [by intros ?%elem_of_nil|].
  intros [Hin|Hin]%elem_of_app.
  - destruct (He t Hin) as (pre & post & ->).
    exists pre, (post ++ node_items_list data). by rewrite <- !app_assoc.
  - destruct (IH Hin) as (pre & post & ->).
    exists (node_items e ++ pre), post. by rewrite <- app_assoc.
Qed.

Lemma entries_of_segment e t :
  t ∈ entries_of e → ∃ pre post, node_items e = pre ++ node_items t ++ post.
Proof.
  revert t. induction e as [category vocabulary subcategories IH]
    using taxonomy_nested_ind.
  intros t. rewrite entries_of_unfold. intros [->|Hin]%elem_of_cons.
  - exists [], []. by rewrite app_nil_r.
  - destruct (entries_of_list_segment_from _ _ IH Hin) as (pre & post & E).
    rewrite node_items_unfold, E.
    exists (((λ c, (uuid c, category_attr c)) <$> option_list category) ++
            ((λ word, (uuid word, vocabulary_attr word)) <$>
               default [] vocabulary) ++ pre), post.
    by rewrite <- !app_assoc.
Qed.

Lemma entries_of_list_segment data t :
  t ∈ entries_of_list data →
  ∃ pre post, node_items_list data = pre ++ node_items t ++ post.
Proof.
  apply entries_of_list_segment_from, Forall_forall.
  intros e _ t'. apply entries_of_segment.
Qed.

Lemma entries_of_uuids e t u : t ∈ entries_of e → u ∈ uuids_of t → u ∈ uuids_of e.
Proof.
  intros (pre & post & E)%entries_of_segment Hu.
  rewrite <- (node_items_keys e), E, !fmap_app, node_items_keys, !elem_of_app.
  auto.
Qed.

Lemma entries_of_list_uuids data t u :
  t ∈ entries_of_list data → u ∈ uuids_of t → u ∈ uuids_of_list data.
Proof.
  intros (pre & post & E)%entries_of_list_segment Hu.
  rewrite <- (node_items_list_keys data), E, !fmap_app, node_items_keys,
    !elem_of_app.
  auto.
Qed.

(** An edge of an entry starts at the parent or inside the entry, and
    ends inside the entry. *)
Definition edges_inside (e : taxonomy) : Prop :=
  ∀ parent u v, (u, v) ∈ edge_items parent e →
    (parent = Some u ∨ u ∈ uuids_of e) ∧ v ∈ uuids_of e.

Lemma edge_items_list_inside_from parent data u v :
  Forall edges_inside data →
  (u, v) ∈ edge_items_list parent data →
  (parent = Some u ∨ u ∈ uuids_of_list data) ∧ v ∈ uuids_of_list data.
Proof.
  induction 1 as [|e data He _ IH]; [by intros ?%elem_of_nil|].
  rewrite edge_items_list_cons. simpl (uuids_of_list _). rewrite !elem_of_app.
  intros [Hin|Hin].
  - destruct (He _ _ _ Hin). tauto.
  - destruct (IH Hin). tauto.
Qed.

Lemma edge_items_inside e : edges_inside e.
Proof.
  induction e as [category vocabulary subcategories IH]
    using taxonomy_nested_ind.
  intros parent u v. destruct category as [c|]; [|by intros ?%elem_of_nil].
  rewrite edge_items_unfold, uuids_of_unfold, !elem_of_app.
  intros [Hin|[Hin|Hin]].
  - apply list_elem_of_fmap in Hin as (p & [= -> ->] & Hp).
    destruct parent as [p'|]; simpl in Hp; [|by apply elem_of_nil in Hp].
    apply list_elem_of_singleton in Hp as ->. split; [by left|].
    left. simpl. by apply list_elem_of_singleton.
  - apply list_elem_of_fmap in Hin as (w & [= -> ->] & Hw). split.
    + right. left. simpl. by apply list_elem_of_singleton.
    + right. left. apply list_elem_of_fmap. eauto.
  - apply (edge_items_list_inside_from _ _ _ _ IH) in Hin as [[[= <-]|Hu] Hv].
    + split; [|auto]. right. left. simpl. by apply list_elem_of_singleton.
    + auto.
Qed.

Lemma edge_items_list_inside parent data u v :
  (u, v) ∈ edge_items_list parent data →
  (parent = Some u ∨ u ∈ uuids_of_list data) ∧ v ∈ uuids_of_list data.
Proof.
  apply edge_items_list_inside_from, Forall_forall.
  intros e _. apply edge_items_inside.
Qed.

(** With identifiers that are all different, an edge that starts inside
    an entry ends inside it. *)
Definition edges_closed (e : taxonomy) : Prop :=
  ∀ parent t u v,
    NoDup (uuids_of e) → (∀ p, parent = Some p → p ∉ uuids_of e) →
    t ∈ entries_of e → u ∈ uuids_of t → (u, v) ∈ edge_items parent e →
    v ∈ uuids_of t.

Lemma edge_items_list_closed parent data t u v :
  Forall edges_closed data →
  NoDup (uuids_of_list data) → (∀ p, parent = Some p → p ∉ uuids_of_list data) →
  t ∈ entries_of_list data → u ∈ uuids_of t →
  (u, v) ∈ edge_items_list parent data →
  v ∈ uuids_of t.
Proof.
  induction 1 as [|e data He _ IH]; [by intros _ _ ?%elem_of_nil|].
  simpl (uuids_of_list _). simpl (entries_of_list _).
  rewrite edge_items_list_cons.
  intros (Hnd1 & Hdisj & Hnd2)%NoDup_app Hp [Ht|Ht]%elem_of_app Hu
    [Hedge|Hedge]%elem_of_app.
  - apply (He parent t u v); auto.
    intros p -> Hin. apply (Hp p eq_refl), elem_of_app. auto.
  - exfalso. apply edge_items_list_inside in Hedge as [[->|Hu'] _].
    + apply (Hp u eq_refl), elem_of_app. left. by apply (entries_of_uuids e t).
    + apply (Hdisj u); [by apply (entries_of_uuids e t)|done].
  - exfalso. apply edge_items_inside in Hedge as [[->|Hu'] _].
    + apply (Hp u eq_refl), elem_of_app. right.
      by apply (entries_of_list_uuids data t).
    + apply (Hdisj u); [done|by apply (entries_of_list_uuids data t)].
  - apply IH; auto.
    intros p -> Hin. apply (Hp p eq_refl), elem_of_app. auto.
Qed.

Lemma edge_items_closed e : edges_closed e.
Proof.
  induction e as [category vocabulary subcategories IH]
    using taxonomy_nested_ind.
  intros parent t u v Hnd Hp. rewrite entries_of_unfold.
  intros [->|Ht]%elem_of_cons Hu Hedge.
  - by apply edge_items_inside in Hedge as [_ ?].
  - destruct category as [c|]; [|by apply elem_of_nil in Hedge].
    rewrite edge_items_unfold in Hedge. rewrite uuids_of_unfold in Hnd, Hp.
    pose proof (entries_of_list_uuids _ _ _ Ht Hu) as Hsub.
    simpl in Hnd. apply NoDup_cons in Hnd as [Hc Hnd].
    apply NoDup_app in Hnd as (Hnd2 & Hdisj & Hnd3).
    apply elem_of_app in Hedge as [Hedge|Hedge];
      [|apply elem_of_app in Hedge as [Hedge|Hedge]].
    + apply list_elem_of_fmap in Hedge as (p & [= -> ->] & Hin).
      destruct parent as [p'|]; simpl in Hin; [|by apply elem_of_nil in Hin].
      apply list_elem_of_singleton in Hin as ->.
      exfalso. apply (Hp p' eq_refl). rewrite !elem_of_app. auto.
    + apply list_elem_of_fmap in Hedge as (w & [= -> ->] & Hw).
      exfalso. apply Hc, elem_of_app. auto.
    + apply (edge_items_list_closed (Some (uuid c)) _ t u v IH); auto.
      intros p [= <-] Hin. apply Hc, elem_of_app. auto.
Qed.

(** The edge from the parent to the category of an entry. *)
Lemma edge_items_head e p c :
  categorised e → head (uuids_of e) = Some c → (p, c) ∈ edge_items (Some p) e.
Proof.
  destruct e as [category vocabulary subcategories].
  rewrite categorised_unfold. intros [[c' ->] _].
  rewrite uuids_of_unfold, edge_items_unfold. simpl. intros [= <-].
  apply elem_of_cons. by left.
Qed.

(** Every identifier of an entry is reached from its category along the
    edges of the entry. *)
Definition reaches_its_nodes (e : taxonomy) : Prop :=
  categorised e → ∀ parent v, v ∈ uuids_of e →
  ∃ c, head (uuids_of e) = Some c ∧
       rtc (λ a b, (a, b) ∈ edge_items parent e) c v.

Lemma edge_items_list_reach (R : relation nat) c data v :
  Forall reaches_its_nodes data → Forall categorised data →
  (∀ a b, (a, b) ∈ edge_items_list (Some c) data → R a b) →
  v ∈ uuids_of_list data → rtc R c v.
Proof.
  induction 1 as [|ch data Hch _ IH]; [by intros _ _ ?%elem_of_nil|].
  intros [Hcat Hdata]%Forall_cons HR. simpl (uuids_of_list _).
  intros [Hv|Hv]%elem_of_app.
  - destruct (Hch Hcat (Some c) v Hv) as (cc & Hhead & Hrtc).
    apply rtc_l with cc.
    + apply HR. rewrite edge_items_list_cons. apply elem_of_app. left.
      by apply edge_items_head.
    + eapply rtc_subrel; [|exact Hrtc]. intros a b Hab. apply HR.
      rewrite edge_items_list_cons. apply elem_of_app. by left.
  - apply IH; auto. intros a b Hab. apply HR.
    rewrite edge_items_list_cons. apply elem_of_app. by right.
Qed.

Lemma edge_items_reach e : reaches_its_nodes e.
Proof.
  induction e as [category vocabulary subcategories IH]
    using taxonomy_nested_ind.
  intros Hcat parent v. apply categorised_unfold in Hcat as [[c ->] Hsubs].
  rewrite uuids_of_unfold. intros Hv. exists (uuid c). split; [done|].
  apply elem_of_app in Hv as [Hv|Hv]; [|apply elem_of_app in Hv as [Hv|Hv]].
  - simpl in Hv. by apply list_elem_of_singleton in Hv as ->.
  - apply rtc_once. rewrite edge_items_unfold, !elem_of_app. right. left.
    apply list_elem_of_fmap in Hv as (w & -> & Hw).
    apply list_elem_of_fmap. by exists w.
  - apply (edge_items_list_reach _ _ (default [] subcategories)); auto.
    intros a b Hab. rewrite edge_items_unfold, !elem_of_app. auto.
Qed.

(** The edges of an entry are among those of the taxonomy it occurs in. *)
Definition keeps_the_edges (e : taxonomy) : Prop :=
  categorised e → ∀ p t, t ∈ entries_of e →
  ∃ parent, ∀ x, x ∈ edge_items parent t → x ∈ edge_items p e.

Lemma entries_of_list_edges_from p data t :
  Forall keeps_the_edges data → Forall categorised data →
  t ∈ entries_of_list data →
  ∃ parent, ∀ x, x ∈ edge_items parent t → x ∈ edge_items_list p data.
Proof.
  induction 1 as [|e data He _ IH]; [by intros _ ?%elem_of_nil|].
  intros [Hcat Hdata]%Forall_cons. simpl (entries_of_list _).
  intros [Ht|Ht]%elem_of_app.
  - destruct (He Hcat p t Ht) as [parent Hsub]. exists parent. intros x Hx.
    rewrite edge_items_list_cons. apply elem_of_app. left. by apply Hsub.
  - destruct (IH Hdata Ht) as [parent Hsub]. exists parent. intros x Hx.
    rewrite edge_items_list_cons. apply elem_of_app. right. by apply Hsub.
Qed.

Lemma entries_of_edges e : keeps_the_edges e.
Proof.
  induction e as [category vocabulary subcategories IH]
    using taxonomy_nested_ind.
  intros Hcat p t. pose proof Hcat as [[c ->] Hsubs]%categorised_unfold.
  rewrite entries_of_unfold. intros [->|Ht]%elem_of_cons.
  - by exists p.
  - destruct (entries_of_list_edges_from (Some (uuid c)) _ t IH Hsubs Ht)
      as [parent Hsub].
    exists parent. intros x Hx. rewrite edge_items_unfold, !elem_of_app.
    right. right. by apply Hsub.
Qed.

Lemma entries_of_list_edges p data t :
  Forall categorised data → t ∈ entries_of_list data →
  ∃ parent, ∀ x, x ∈ edge_items parent t → x ∈ edge_items_list p data.
Proof.
  apply entries_of_list_edges_from, Forall_forall.
  intros e _. apply entries_of_edges.
Qed.

Lemma entries_of_list_categorised_from data t :
  Forall (λ e, categorised e → t ∈ entries_of e → categorised t) data →
  Forall categorised data → t ∈ entries_of_list data → categorised t.
Proof.
  induction 1 as [|e data He _ IH]; [by intros _ ?%elem_of_nil|].
  intros [Hcat Hdata]%Forall_cons. simpl (entries_of_list _).
  intros [Ht|Ht]%elem_of_app; auto.
Qed.

Lemma entries_of_categorised e t :
  categorised e → t ∈ entries_of e → categorised t.
Proof.
  induction e as [category vocabulary subcategories IH]
    using taxonomy_nested_ind.
  intros Hcat. pose proof Hcat as [_ Hsubs]%categorised_unfold.
  rewrite entries_of_unfold. intros [->|Ht]%elem_of_cons; [done|].
  by apply (entries_of_list_categorised_from (default [] subcategories)).
Qed.

Lemma entries_of_list_categorised data t :
  Forall categorised data → t ∈ entries_of_list data → categorised t.
Proof.
  apply entries_of_list_categorised_from, Forall_forall.
  intros e _. apply entries_of_categorised.
Qed.

(** In a taxonomy with a category in every entry and identifiers that
    are all different, the identifiers that the edges reach from the
    category of an entry are those of the entry. *)
Lemma reached_from_a_category data t c v :
  Forall categorised data → NoDup (uuids_of_list data) →
  t ∈ entries_of_list data → head (uuids_of t) = Some c →
  rtc (λ a b, (a, b) ∈ edge_items_list None data) c v ↔ v ∈ uuids_of t.
Proof.
  intros Hcat Hnd Ht Hhead. split.
  - intros Hrtc. revert v Hrtc.
    apply (rtc_ind_r (λ v, v ∈ uuids_of t)).
    + destruct (uuids_of t); [done|]. injection Hhead as ->.
      apply elem_of_cons. by left.
    + intros u v _ Hedge Hu.
      apply (edge_items_list_closed None data t u v); try done.
      apply Forall_forall. intros e _. apply edge_items_closed.
  - intros Hv.
    destruct (entries_of_list_edges None data t Hcat Ht) as [parent Hsub].
    pose proof (entries_of_list_categorised data t Hcat Ht) as Ht'.
    destruct (edge_items_reach t Ht' parent v Hv) as (c' & Hhead' & Hrtc).
    assert (c' = c) as -> by congruence.
    eapply rtc_subrel; [|exact Hrtc]. intros a b. apply Hsub.
Qed.

Lemma get_nx_taxonomies_graph_built data graph :
  NoDup (uuids_of_list data) →
  get_nx_taxonomies_graph data = Ok graph →
  built nx.di_empty graph (node_items_list data).
Proof.
  intros Hnd Hgraph.
  apply (subcategories_loop_built None data); try done.
  apply Forall_forall. intros value _. apply nx_taxonomy_adds_its_nodes.
Qed.

Lemma get_nx_taxonomies_graph_linked data graph :
  get_nx_taxonomies_graph data = Ok graph →
  ∀ u v, nx.di_edge graph u v ↔ (u, v) ∈ edge_items_list None data.
Proof.
  intros Hgraph u v.
  assert (H : linked nx.di_empty graph (edge_items_list None data)).
  { apply subcategories_loop_linked; [|done].
    apply Forall_forall. intros value _. apply nx_taxonomy_adds_its_edges. }
  rewrite (H u v). unfold nx.di_edge, nx.successors. simpl.
  rewrite lookup_empty. simpl. set_solver.
Qed.

(** The labels of the vocabulary nodes whose identifier is one of an
    entry, its category apart, are the words of the entry. *)
Lemma labels_of_the_nodes_below data c vocabulary subcategories :
  NoDup (uuids_of_list data) →
  Taxonomy (Some c) vocabulary subcategories ∈ entries_of_list data →
  labels_of
    (filter (λ xy, xy.1 ≠ uuid c ∧
                   xy.1 ∈ uuids_of (Taxonomy (Some c) vocabulary subcategories))
       (node_items_list data)) =
    words_of (Taxonomy (Some c) vocabulary subcategories).
Proof.
  set (t := Taxonomy (Some c) vocabulary subcategories). intros Hnd Ht.
  destruct (entries_of_list_segment data t Ht) as (pre & post & E).
  rewrite <- node_items_list_keys, E, !fmap_app, node_items_keys in Hnd.
  apply NoDup_app in Hnd as (_ & Hpre & Hnd).
  apply NoDup_app in Hnd as (Hnd & Hpost & _).
  rewrite E, !filter_app.
  assert (filter (λ xy : nat * gmap string string,
                    xy.1 ≠ uuid c ∧ xy.1 ∈ uuids_of t) pre = []) as ->.
  { apply filter_none, Forall_forall. intros x Hx [_ Hin].
    apply (Hpre x.1); [apply list_elem_of_fmap; eauto|].
    apply elem_of_app. auto. }
  assert (filter (λ xy : nat * gmap string string,
                    xy.1 ≠ uuid c ∧ xy.1 ∈ uuids_of t) post = []) as ->.
  { apply filter_none, Forall_forall. intros x Hx [_ Hin].
    apply (Hpost x.1); [done|]. apply list_elem_of_fmap. eauto. }
  rewrite app_nil_l, app_nil_r.
  set (rest := ((λ word, (uuid word, vocabulary_attr word)) <$>
                  default [] vocabulary) ++
               node_items_list (default [] subcategories)).
  assert (Hitems : node_items t = (uuid c, category_attr c) :: rest)
    by (unfold t; by rewrite node_items_unfold).
  rewrite <- (node_items_keys t), Hitems, fmap_cons in Hnd. simpl in Hnd.
  apply NoDup_cons in Hnd as [Hc _].
  rewrite Hitems, filter_cons, decide_False by (intros [H _]; by apply H).
  rewrite filter_all.
  - unfold rest, t.
    by rewrite labels_of_app, labels_of_vocabulary, labels_of_node_items_list,
      words_of_unfold.
  - apply Forall_forall. intros x Hx.
    assert (x.1 ∈ rest.*1) by (apply list_elem_of_fmap; eauto). split.
    + intros E'. apply Hc. by rewrite <- E'.
    + rewrite <- (node_items_keys t), Hitems, fmap_cons. apply elem_of_cons. auto.
Qed.

(** X11. For a taxonomy in which every entry has a category and no two
    lists of entries are equal (the list of the file and the
    [subcategories] at every depth, so that no call of [tidy_taxonomies]
    is answered from the cache), and the identifier of the category of
    one of the entries of the tidied taxonomy, at any depth,
    [get_taxonomy_vocabularies(graph, category)] on the graph that
    [get_nx_taxonomies_graph] returns gives, sorted without regard to
    case, the vocabulary words of that entry and of the entries below
    it, each as often as the taxonomy has it, and no other word. *)
Theorem vocabulary_of_a_category (data : list yaml) (c : term)
    vocabulary subcategories :
  NoDup (calls_of data) →
  Forall categorised (tidy_taxonomies data) →
  Taxonomy (Some c) vocabulary subcategories ∈
    entries_of_list (tidy_taxonomies data) →
  ∃ graph vocabularies,
    get_nx_taxonomies_graph (tidy_taxonomies data) = Ok graph ∧
    get_taxonomy_vocabularies graph (Some (uuid c)) = Ok vocabularies ∧
    vocabularies ≡ₚ words_of (Taxonomy (Some c) vocabulary subcategories) ∧
    Sorted casefold_le vocabularies.
Proof.
  intros Hcalls Hcat Ht.
  assert (Hnd : NoDup (uuids_of_list (tidy_taxonomies data))).
  { rewrite (tidy_taxonomies_runs_the_body data Hcalls).
    destruct (body_taxonomies_spec data 0) as (_ & -> & _). apply NoDup_seq. }
  destruct (get_nx_taxonomies_graph_succeeds _ Hcat) as [graph Hgraph].
  exists graph.
  pose proof (get_nx_taxonomies_graph_built _ _ Hnd Hgraph) as (_ & Hperm & _).
  simpl in Hperm. rewrite map_to_list_empty, app_nil_r in Hperm.
  pose proof (get_nx_taxonomies_graph_typed _ _ Hgraph) as Htyped.
  apply taxonomy_graph_nodes in Htyped.
  assert (Hdesc : ∀ xy : nat * gmap string string,
            xy.1 ∈ nx.descendants graph (uuid c) ↔
            xy.1 ≠ uuid c ∧
            xy.1 ∈ uuids_of (Taxonomy (Some c) vocabulary subcategories)).
  { intros [v y]. simpl. rewrite elem_of_descendants.
    assert (rtc (nx.di_edge graph) (uuid c) v ↔
            rtc (λ a b, (a, b) ∈ edge_items_list None (tidy_taxonomies data))
              (uuid c) v) as ->.
    { split; apply rtc_subrel; intros a b;
        by rewrite (get_nx_taxonomies_graph_linked _ _ Hgraph). }
    rewrite (reached_from_a_category _ _ (uuid c) v Hcat Hnd Ht); [done|].
    by rewrite uuids_of_unfold. }
  eexists. unfold get_taxonomy_vocabularies.
  rewrite decide_True.
  2: { destruct (entries_of_list_segment _ _ Ht) as (pre & post & E).
       assert (Hin : (uuid c, category_attr c) ∈
                       map_to_list (nx.di_node graph)).
       { rewrite Hperm, E, node_items_unfold, !elem_of_app. right. left. left.
         simpl. apply elem_of_cons. by left. }
       apply elem_of_map_to_list in Hin. by eexists. }
  cbv zeta. rewrite vocabulary_labels_typed.
  2: { apply Forall_forall. intros x [_ Hx]%list_elem_of_filter.
       rewrite Forall_forall in Htyped. by apply Htyped. }
  split; [done|]. split; [done|]. split; [|apply sorted_sorted].
  rewrite sorted_perm.
  rewrite (list_filter_iff _ _ _ Hdesc).
  unfold labels_of at 1. rewrite Hperm.
  fold (labels_of (filter (λ xy : nat * gmap string string,
          xy.1 ≠ uuid c ∧
          xy.1 ∈ uuids_of (Taxonomy (Some c) vocabulary subcategories))
         (node_items_list (tidy_taxonomies data)))).
  by rewrite labels_of_the_nodes_below.
Qed.

Lemma vocabulary_of_a_category_witness :
  ∃ graph vocabularies,
    get_nx_taxonomies_graph (tidy_taxonomies vaccines_yaml) = Ok graph ∧
    get_taxonomy_vocabularies graph (Some 8) = Ok vocabularies ∧
    vocabularies ≡ₚ ["pfizer"] ∧
    Sorted casefold_le vocabularies.
Proof.
  apply (vocabulary_of_a_category vaccines_yaml
           {| name := "brands"; uuid := 8 |}
           (Some [{| name := "pfizer"; uuid := 9 |}]) None).
  - let l := eval vm_compute in (calls_of vaccines_yaml) in
    change (calls_of vaccines_yaml) with l.
    apply NoDup_cons. split; [|apply NoDup_singleton].
    rewrite list_elem_of_singleton. by intros [=].
  - let t := eval vm_compute in (tidy_taxonomies vaccines_yaml) in
    change (tidy_taxonomies vaccines_yaml) with t.
    repeat constructor; simpl; repeat split; by eexists.
  - let t := eval vm_compute in (entries_of_list (tidy_taxonomies vaccines_yaml)) in
    change (entries_of_list (tidy_taxonomies vaccines_yaml)) with t.
    apply elem_of_cons. right. apply elem_of_cons. by left.
Defined.

(** ** The source data of the collocations *)

Lemma edges_sound g a b d :
  (a, b, d) ∈ nx.edges g → nx.adj g !! a ≫= (.!! b) = Some d.
Proof.
  intros (nbrs & Hin & Hd)%edges_from_sound.
  apply elem_of_map_to_list in Hin. by rewrite Hin.
Qed.

Lemma edges_nil g : (∀ u v, ¬ nx.has_edge g u v) → nx.edges g = [].
Proof.
  intros Hg. destruct (nx.edges g) as [|[[a b] d] l] eqn:E; [done|].
  exfalso. apply (Hg a b). unfold nx.has_edge.
  rewrite (edges_sound g a b d); [done|]. rewrite E. by left.
Qed.

Lemma edges_joining g u v :
  undirected g → nx.has_edge g u v →
  ∃ d, (u, v, d) ∈ nx.edges g ∨ (v, u, d) ∈ nx.edges g.
Proof.
  intros Hg Huv. apply (has_edge_edges_between g u v Hg) in Huv.
  unfold edges_between in Huv.
  destruct (filter (joins u v) (nx.edges g)) as [|[[a b] d] l] eqn:E; [done|].
  assert (H : (a, b, d) ∈ filter (joins u v) (nx.edges g)) by (rewrite E; left).
  apply list_elem_of_filter in H as [[[Ha Hb]|[Ha Hb]] Hin]; simpl in *; subst;
    eauto.
Qed.

Lemma lookup_update_edge a b d g u v :
  nx.adj (update_edge g (a, b) d) !! u ≫= (.!! v) =
    match nx.adj g !! a ≫= (.!! b) with
    | Some data =>
        if decide ((u = a ∧ v = b) ∨ (u = b ∧ v = a)) then Some (d ∪ data)
        else nx.adj g !! u ≫= (.!! v)
    | None => nx.adj g !! u ≫= (.!! v)
    end.
Proof.
  unfold update_edge. simpl.
  destruct (nx.adj g !! a ≫= (.!! b)) as [data|]; [|done]. simpl.
  set (dd := d ∪ data).
  destruct (decide (u = b)) as [->|Hub].
  - rewrite lookup_insert_eq. simpl.
    destruct (decide (v = a)) as [->|Hva].
    + rewrite lookup_insert_eq. by rewrite decide_True by auto.
    + rewrite lookup_insert_ne by done.
      destruct (decide (b = a)) as [->|Hba].
      * rewrite lookup_insert_eq. simpl. rewrite lookup_insert_ne by done.
        rewrite decide_False by intuition congruence.
        destruct (nx.adj g !! a); done.
      * rewrite lookup_insert_ne by done.
        rewrite decide_False by intuition congruence.
        destruct (nx.adj g !! b); done.
  - rewrite lookup_insert_ne by done.
    destruct (decide (u = a)) as [->|Hua].
    + rewrite lookup_insert_eq. simpl.
      destruct (decide (v = b)) as [->|Hvb].
      * rewrite lookup_insert_eq. by rewrite decide_True by auto.
      * rewrite lookup_insert_ne by done.
        rewrite decide_False by intuition congruence.
        destruct (nx.adj g !! a); done.
    + rewrite lookup_insert_ne by done.
      by rewrite decide_False by intuition congruence.
Qed.

Lemma undirected_update_edge n d g : undirected g → undirected (update_edge g n d).
Proof.
  intros Hg u v. destruct n as [a b]. rewrite !lookup_update_edge.
  destruct (nx.adj g !! a ≫= (.!! b)); [|done].
  destruct (decide ((u = a ∧ v = b) ∨ (u = b ∧ v = a))).
  - by rewrite decide_True by tauto.
  - by rewrite decide_False by tauto.
Qed.

(** The styled graph has the edges of the graph, with the same data
    apart from [value]. *)
Definition styled (g g' : nx.Graph) : Prop :=
  undirected g' ∧
  ∀ u v, delete "value" <$> (nx.adj g' !! u ≫= (.!! v)) =
         delete "value" <$> (nx.adj g !! u ≫= (.!! v)).

Lemma update_edge_styled g g' n d :
  delete "value" d = ∅ → styled g g' → styled g (update_edge g' n d).
Proof.
  intros Hd [Hund Hsame]. split; [by apply undirected_update_edge|].
  intros u v. rewrite <- Hsame. destruct n as [a b]. rewrite lookup_update_edge.
  destruct (nx.adj g' !! a ≫= (.!! b)) as [data|] eqn:E; [|done].
  destruct (decide ((u = a ∧ v = b) ∨ (u = b ∧ v = a))) as [Huv|]; [|done].
  assert (nx.adj g' !! u ≫= (.!! v) = Some data) as ->.
  { destruct Huv as [[-> ->]|[-> ->]]; [done|]. by rewrite Hund. }
  simpl. by rewrite delete_union, Hd, (left_id_L ∅ (∪)).
Qed.

Lemma set_edge_attributes_styled attributes g :
  map_Forall (λ _ d, delete "value" d = ∅) attributes → undirected g →
  styled g (set_edge_attributes attributes g).
Proof.
  intros Hattr Hg. unfold set_edge_attributes.
  assert (H : Forall (λ nd, delete "value" nd.2 = ∅) (map_to_list attributes)).
  { apply Forall_forall. intros [n d] Hin%elem_of_map_to_list.
    by apply (Hattr n d). }
  assert (Hstart : styled g g) by done.
  revert Hstart. generalize g at 2 4. clear Hattr.
  induction H as [|[n d] l Hd _ IH]; intros g' Hg'; simpl; [done|].
  by apply IH, update_edge_styled.
Qed.

Lemma edge_values_succeeds type g :
  Forall (λ e, is_Some (e.2 !! metric_name type)) (nx.edges g) →
  ∃ attributes, edge_values type g = Ok attributes ∧
                map_Forall (λ _ d, delete "value" d = ∅) attributes.
Proof.
  unfold edge_values. generalize (nx.edges g).
  assert (Hstart : map_Forall (λ (_ : string * string) (d : gmap string cell),
                      delete "value" d = ∅) ∅) by apply map_Forall_empty.
  revert Hstart. generalize (∅ : gmap (string * string) (gmap string cell)).
  intros attributes Hattr l H. revert attributes Hattr.
  induction H as [|e l [x Hx] _ IH]; intros attributes Hattr; simpl.
  - by exists attributes.
  - unfold edge_attribute. rewrite Hx. simpl. apply IH.
    apply map_Forall_insert_2; [|done]. apply delete_singleton_eq.
Qed.

Lemma adj_collocation bigrams words type top u v d :
  nx.adj (get_nx_collocation_graph bigrams words type top) !! u ≫= (.!! v)
    = Some d →
  ∃ r, r ∈ df_collocates bigrams words type top ∧ row_joins r u v ∧
       d = {[ metric_name type := column type r ]}.
Proof.
  intros Hd. unfold get_nx_collocation_graph in Hd.
  destruct (df_collocates bigrams words type top) as [|r df] eqn:E.
  - exfalso. eapply has_edge_empty. eapply no_edge_nodes_only.
    unfold nx.has_edge. by rewrite Hd.
  - unfold nx.from_pandas_edgelist in Hd.
    apply (edge_data_from_rows type (r :: df) nx.empty []) in Hd; [done|].
    intros u' v' d'. simpl. by rewrite lookup_empty.
Qed.

Lemma metric_name_not_value type : metric_name type ≠ "value".
Proof. by destruct type. Qed.

(** Of the data of a styled edge the selection keeps the metric. *)
Lemma selected_data type (c : cell) (d : gmap string cell) :
  delete "value" d = delete "value" {[ metric_name type := c ]} →
  filter (λ kx : string * cell, kx.1 ∈ ["source"; "target"; metric_name type]) d
    = {[ metric_name type := c ]}.
Proof.
  intros Hd. apply map_eq. intros i. rewrite map_lookup_filter.
  destruct (decide (i = "value")) as [->|Hi].
  - rewrite lookup_singleton_ne by apply metric_name_not_value.
    destruct (d !! "value") as [x|]; [simpl|done].
    rewrite option_guard_False; [done|]. simpl.
    rewrite !elem_of_cons, elem_of_nil. destruct type; simpl; intuition discriminate.
  - assert (d !! i = ({[ metric_name type := c ]} : gmap string cell) !! i) as ->.
    { rewrite <- (lookup_delete_ne d "value" i), Hd by done.
      by rewrite lookup_delete_ne. }
    destruct (decide (i = metric_name type)) as [->|Hne].
    + rewrite lookup_singleton_eq. simpl. rewrite option_guard_True; [done|].
      simpl. rewrite !elem_of_cons. auto.
    + by rewrite lookup_singleton_ne.
Qed.

Lemma getitem_columns key df :
  Forall (λ k, k ∈ columns df) key →
  getitem key df =
    Ok {| columns := list_to_set key;
          records := (λ e, (e.1.1, e.1.2, filter (λ kx, kx.1 ∈ key) e.2))
                       <$> records df |}.
Proof.
  intros H. unfold getitem. rewrite filter_none; [done|].
  eapply Forall_impl; [exact H|]. simpl. tauto.
Qed.

(** What the source data table is, for the graph of
    [get_nx_collocation_graph]. *)
Lemma source_data_spec bigrams words type top :
  match df_collocates bigrams words type top with
  | [] =>
      source_data type (get_nx_collocation_graph bigrams words type top) =
        Raise (KeyError (metric_name type))
  | _ =>
      ∃ df,
        source_data type (get_nx_collocation_graph bigrams words type top) =
          Ok df ∧
        columns df = {[ "source"; "target"; metric_name type ]} ∧
        (∀ u v d, (u, v, d) ∈ records df →
           ∃ r, r ∈ df_collocates bigrams words type top ∧ row_joins r u v ∧
                d = {[ metric_name type := column type r ]}) ∧
        (∀ r, r ∈ df_collocates bigrams words type top →
           ∃ d, (col_x r, col_y r, d) ∈ records df ∨
                (col_y r, col_x r, d) ∈ records df)
  end.
Proof.
  set (g := get_nx_collocation_graph bigrams words type top).
  pose proof (undirected_collocation bigrams words type top) as Hund.
  pose proof (has_edge_collocation bigrams words type top) as Hedge.
  pose proof (adj_collocation bigrams words type top) as Hadj.
  fold g in Hund, Hedge, Hadj.
  destruct (df_collocates bigrams words type top) as [|r0 df0] eqn:E.
  - assert (Hnil : nx.edges g = []).
    { apply edges_nil. intros u v (r & Hr & _)%Hedge. by apply elem_of_nil in Hr. }
    unfold source_data, edge_values. rewrite Hnil. simpl.
    unfold set_edge_attributes. rewrite map_to_list_empty. simpl.
    unfold getitem, to_pandas_edgelist. rewrite Hnil. simpl.
    by destruct type; vm_compute.
  - assert (Hkeyed : Forall (λ e, is_Some (e.2 !! metric_name type)) (nx.edges g)).
    { apply Forall_forall. intros [[a b] d] Hin%edges_sound.
      apply Hadj in Hin as (r & _ & _ & ->). simpl.
      rewrite lookup_singleton_eq. by eexists. }
    destruct (edge_values_succeeds type g Hkeyed) as (attributes & Hattr & Hvalue).
    unfold source_data. rewrite Hattr. simpl.
    destruct (set_edge_attributes_styled attributes g Hvalue Hund)
      as [Hund' Hsame].
    set (g' := set_edge_attributes attributes g) in *.
    assert (Hdata : ∀ u v d', nx.adj g' !! u ≫= (.!! v) = Some d' →
              ∃ r, r ∈ r0 :: df0 ∧ row_joins r u v ∧
                   delete "value" d' =
                     delete "value" {[ metric_name type := column type r ]}).
    { intros u v d' Hd'. pose proof (Hsame u v) as Huv. rewrite Hd' in Huv.
      destruct (nx.adj g !! u ≫= (.!! v)) as [d|] eqn:Ed; [|done].
      apply Hadj in Ed as (r & Hr & Hj & ->). exists r. simpl in Huv.
      by injection Huv as ->. }
    assert (Hedge' : ∀ u v, nx.has_edge g u v → nx.has_edge g' u v).
    { intros u v [d Hd]. unfold nx.has_edge. pose proof (Hsame u v) as Huv.
      rewrite Hd in Huv. by destruct (nx.adj g' !! u ≫= (.!! v)). }
    assert (Hrow : ∀ r, r ∈ r0 :: df0 →
              ∃ d', (col_x r, col_y r, d') ∈ nx.edges g' ∨
                    (col_y r, col_x r, d') ∈ nx.edges g').
    { intros r Hr. apply edges_joining; [done|]. apply Hedge', Hedge. eauto. }
    eexists. split; [apply getitem_columns|split; [|split]].
    + simpl.
      apply Forall_cons_2; [|apply Forall_cons_2;
        [|apply Forall_cons_2; [|apply Forall_nil_2]]].
      { apply elem_of_union. left. apply elem_of_union. left.
        by apply elem_of_singleton. }
      { apply elem_of_union. left. apply elem_of_union. right.
        by apply elem_of_singleton. }
      destruct (Hrow r0) as [d' Hd']; [by left|].
      apply elem_of_union. right. apply elem_of_union_list.
      exists (dom d'). split.
      * apply list_elem_of_fmap. exists d'. split; [done|].
        apply list_elem_of_fmap.
        destruct Hd' as [Hd'|Hd']; eexists; (split; [|exact Hd']); done.
      * assert (∃ u v, nx.adj g' !! u ≫= (.!! v) = Some d') as (u & v & Huv)
          by (destruct Hd' as [Hd'|Hd']; apply edges_sound in Hd'; eauto).
        apply Hdata in Huv as (r & _ & _ & Hd).
        apply elem_of_dom. exists (column type r).
        rewrite <- (lookup_delete_ne d' "value") by
          (intros Hv; by apply (metric_name_not_value type)).
        rewrite Hd, lookup_delete_ne by
          (intros Hv; by apply (metric_name_not_value type)).
        apply lookup_singleton_eq.
    + simpl. set_solver.
    + simpl. intros u v d ([[a b] d'] & [= -> -> ->] & Hin)%list_elem_of_fmap.
      simpl. apply edges_sound in Hin. apply Hdata in Hin as (r & Hr & Hj & Hd).
      exists r. split; [done|]. split; [done|]. by apply selected_data.
    + simpl. intros r Hr. destruct (Hrow r Hr) as [d' Hd'].
      exists (filter (λ kx : string * cell,
                kx.1 ∈ ["source"; "target"; metric_name type]) d').
      destruct Hd' as [Hd'|Hd']; [left|right];
        apply list_elem_of_fmap; eexists; (split; [|exact Hd']); done.
Qed.

(** X12. The source data table under the collocation network
    ([nx.to_pandas_edgelist(collocations)[['source', 'target', type]]],
    after the edges were given their [value]) raises [KeyError] for the
    metric column exactly when no collocate was found for the words:
    the graph of the isolated words has no edge, so the table has no
    column for the metric. *)
Theorem source_data_needs_a_collocate
    (bigrams : list bigram) (words : list string) (type : metric) (top : Z) :
  df_collocates bigrams words type top = [] ↔
  source_data type (get_nx_collocation_graph bigrams words type top) =
    Raise (KeyError (metric_name type)).
Proof.
  pose proof (source_data_spec bigrams words type top) as H.
  destruct (df_collocates bigrams words type top) as [|r df]; [done|].
  destruct H as (table & -> & _). done.
Qed.

Lemma source_data_needs_a_collocate_witness :
  source_data pmi
    (get_nx_collocation_graph scenario_bigrams ["zzz_not_present"] pmi 7) =
    Raise (KeyError "pmi").
Proof.
  apply (source_data_needs_a_collocate scenario_bigrams ["zzz_not_present"] pmi 7).
  by vm_compute.
Defined.

(** X13. When a collocate was found, the source data table has the
    columns [source], [target] and the metric; every record joins the
    two words of a kept row and carries the metric of such a row and
    nothing else, and every kept row has a record, in one order of its
    words or the other. *)
Theorem source_data_lists_the_kept_rows
    (bigrams : list bigram) (words : list string) (type : metric) (top : Z) :
  df_collocates bigrams words type top ≠ [] →
  ∃ df,
    source_data type (get_nx_collocation_graph bigrams words type top) = Ok df ∧
    columns df = {[ "source"; "target"; metric_name type ]} ∧
    (∀ u v d, (u, v, d) ∈ records df →
       ∃ r, r ∈ df_collocates bigrams words type top ∧ row_joins r u v ∧
            d = {[ metric_name type := column type r ]}) ∧
    (∀ r, r ∈ df_collocates bigrams words type top →
       ∃ d, (col_x r, col_y r, d) ∈ records df ∨
            (col_y r, col_x r, d) ∈ records df).
Proof.
  intros Hrows. pose proof (source_data_spec bigrams words type top) as H.
  by destruct (df_collocates bigrams words type top) as [|r df].
Qed.

Lemma source_data_lists_the_kept_rows_witness :
  ∃ df,
    source_data pmi (get_nx_collocation_graph scenario_bigrams ["truth"] pmi 7)
      = Ok df ∧
    columns df = {[ "source"; "target"; "pmi" ]} ∧
    (∀ u v d, (u, v, d) ∈ records df →
       ∃ r, r ∈ df_collocates scenario_bigrams ["truth"] pmi 7 ∧
            row_joins r u v ∧ d = {[ "pmi" := column pmi r ]}) ∧
    (∀ r, r ∈ df_collocates scenario_bigrams ["truth"] pmi 7 →
       ∃ d, (col_x r, col_y r, d) ∈ records df ∨
            (col_y r, col_x r, d) ∈ records df).
Proof.
  apply (source_data_lists_the_kept_rows scenario_bigrams ["truth"] pmi 7).
  by vm_compute.
Defined.

(** ** tidy_taxonomies: the shape of the taxonomy *)

Lemma yaml_categorised_unfold category vocabulary subcategories :
  yaml_categorised (Yaml category vocabulary subcategories) ↔
    is_Some category ∧ Forall yaml_categorised (default [] subcategories).
Proof.
  simpl. destruct subcategories as [l|]; simpl; [|by rewrite Forall_nil].
  induction l as [|t l IH]; [by rewrite Forall_nil|].
  rewrite Forall_cons. tauto.
Qed.

Lemma yaml_words_unfold category vocabulary subcategories :
  yaml_words (Yaml category vocabulary subcategories) =
    vocabulary_words (default [] vocabulary) ++
    yaml_words_list (default [] subcategories).
Proof. by destruct subcategories. Qed.

Lemma draw_category_is_Some category next :
  is_Some (draw_category category next).1 ↔ is_Some category.
Proof. destruct category; simpl; unfold is_Some; naive_solver. Qed.

Lemma draw_vocabulary_names vocabulary next :
  name <$> default [] (draw_vocabulary vocabulary next).1 =
    vocabulary_words (default [] vocabulary).
Proof.
  destruct vocabulary as [strings|]; cbn -[vocabulary_words]; [|done].
  apply draw_uuids_name.
Qed.

Definition keeps_the_shape (value : yaml) : Prop :=
  ∀ s, cache_sound s →
    words_of (tidy_taxonomy value s).1 = yaml_words value ∧
    (categorised (tidy_taxonomy value s).1 ↔ yaml_categorised value) ∧
    cache_sound (tidy_taxonomy value s).2.

Lemma tidy_loop_shape data :
  Forall keeps_the_shape data →
  ∀ s, cache_sound s →
    shape_of data (tidy_loop data s).1 ∧ cache_sound (tidy_loop data s).2.
Proof.
  induction 1 as [|value data Hvalue _ IH]; intros s Hs; [done|].
  rewrite tidy_loop_cons. cbv zeta. cbn [fst snd].
  destruct (Hvalue s Hs) as (Hw & Hc & Hs1).
  destruct (IH _ Hs1) as ((Hl & Hws & Hcs) & Hs2).
  split; [|done]. unfold shape_of. simpl.
  rewrite Hl, Hw, Hws, !Forall_cons, Hc, Hcs. done.
Qed.

Lemma tidy_taxonomies_in_shape_from data :
  Forall keeps_the_shape data →
  ∀ s, cache_sound s →
    shape_of data (tidy_taxonomies_in data s).1 ∧
    cache_sound (tidy_taxonomies_in data s).2.
Proof.
  intros Hdata s Hs. rewrite tidy_taxonomies_in_unfold.
  destruct (cache_get data (tidy_cache s)) as [processed|] eqn:E.
  - split; [|done]. apply cache_get_Some in E.
    unfold cache_sound in Hs. rewrite Forall_forall in Hs. by apply (Hs _ E).
  - destruct (tidy_loop_shape data Hdata s Hs) as [Hshape Hs1].
    cbv zeta. cbn [fst snd]. split; [done|].
    unfold cache_sound. cbn [tidy_cache]. by apply Forall_cons.
Qed.

Lemma tidy_taxonomy_shape value : keeps_the_shape value.
Proof.
  induction value as [category vocabulary subcategories IH]
    using yaml_nested_ind.
  intros s Hs. rewrite tidy_taxonomy_unfold, yaml_words_unfold,
    yaml_categorised_unfold. cbv zeta.
  destruct subcategories as [data|]; cbn [default id] in *.
  - destruct (tidy_taxonomies_in_shape_from data IH
                (TidyState (tidy_cache s)
                   (draw_vocabulary vocabulary
                      (draw_category category (tidy_next s)).2).2) Hs)
      as ((_ & Hws & Hcs) & Hs1).
    cbn [fst snd]. rewrite words_of_unfold, categorised_unfold. cbn [default id].
    by rewrite draw_vocabulary_names, Hws, draw_category_is_Some, Hcs.
  - cbn [fst snd]. rewrite words_of_unfold, categorised_unfold. cbn [default id].
    rewrite draw_vocabulary_names, draw_category_is_Some.
    split; [done|]. split; [|done]. by rewrite !Forall_nil.
Qed.

Lemma tidy_taxonomies_in_shape data s :
  cache_sound s →
  shape_of data (tidy_taxonomies_in data s).1 ∧
  cache_sound (tidy_taxonomies_in data s).2.
Proof.
  apply tidy_taxonomies_in_shape_from, Forall_forall.
  intros value _. apply tidy_taxonomy_shape.
Qed.

Lemma yaml_words_list_tidy data : Forall tidy_word (yaml_words_list data).
Proof.
  induction data as [|value data IH]; [constructor|]. simpl.
  apply Forall_app. split; [|done]. clear IH.
  induction value as [category vocabulary subcategories IH]
    using yaml_nested_ind.
  rewrite yaml_words_unfold. apply Forall_app. split.
  - apply vocabulary_words_tidy.
  - induction IH as [|value l Hvalue _ IHl]; [constructor|]. simpl.
    by apply Forall_app.
Qed.

(** X14. [tidy_taxonomies] keeps the shape of its argument, whatever
    the cache holds from calls before (as long as it holds lists of
    the shape of their arguments, which the call again leaves so): it
    returns as many entries as it is given; the vocabulary words of its
    result are, in the order of the file, the words that the phrases of
    the file are made into; and every entry of the result has a
    category exactly when every entry of the file has one. *)
Theorem tidy_taxonomies_keeps_the_shape (data : list yaml) (s : tidy_state) :
  cache_sound s →
  length (tidy_taxonomies_in data s).1 = length data ∧
  words_of_list (tidy_taxonomies_in data s).1 = yaml_words_list data ∧
  (Forall categorised (tidy_taxonomies_in data s).1 ↔
   Forall yaml_categorised data) ∧
  cache_sound (tidy_taxonomies_in data s).2.
Proof.
  intros Hs. destruct (tidy_taxonomies_in_shape data s Hs) as [(? & ? & ?) ?].
  done.
Qed.

Lemma tidy_taxonomies_keeps_the_shape_witness :
  length (tidy_taxonomies shared_yaml) = 2 ∧
  words_of_list (tidy_taxonomies shared_yaml) = ["misc"; "misc"] ∧
  (Forall categorised (tidy_taxonomies shared_yaml) ↔
   Forall yaml_categorised shared_yaml) ∧
  cache_sound (tidy_taxonomies_in shared_yaml (TidyState [] 0)).2.
Proof.
  apply (tidy_taxonomies_keeps_the_shape shared_yaml (TidyState [] 0)).
  apply Forall_nil_2.
Defined.

(** X15. For every taxonomy input, every vocabulary word that
    [tidy_taxonomies] produces, at any depth and also in an entry that
    comes from the cache, is in lower case, has no asterisk, is none of
    the stop-words "and", "&", "or", and is a single word (it has no
    white space).  On a small file, a phrase of several words gives one
    entry for each word. *)
Theorem tidy_taxonomies_normalises_the_words (data : list yaml) :
  Forall tidy_word (words_of_list (tidy_taxonomies data)) ∧
  tidy_taxonomies vaccines_yaml =
    [ Taxonomy (Some (Term "vaccines" 0))
        (Some [ Term "vaccine" 1; Term "jabs" 2; Term "side" 3;
                Term "effects" 4; Term "harm" 5; Term "5g" 6; Term "chips" 7 ])
        (Some [ Taxonomy (Some (Term "brands" 8))
                  (Some [ Term "pfizer" 9 ]) None ]) ].
Proof.
  split; [|by vm_compute]. unfold tidy_taxonomies.
  destruct (tidy_taxonomies_in_shape data (TidyState [] 0))
    as [(_ & -> & _) _]; [apply Forall_nil_2|].
  apply yaml_words_list_tidy.
Qed.

(** X16. When no two lists of entries of the taxonomy are equal (the
    list of the file and the [subcategories] at every depth), every
    category and every vocabulary word has an identifier of its own:
    the identifiers are pairwise distinct, being the draws 0, 1, 2, ...
    in the order of the file. *)
Theorem tidy_taxonomies_distinct_identifiers (data : list yaml) :
  NoDup (calls_of data) →
  NoDup (uuids_of_list (tidy_taxonomies data)) ∧
  uuids_of_list (tidy_taxonomies data) =
    seq 0 (length (uuids_of_list (tidy_taxonomies data))).
Proof.
  intros Hcalls. rewrite (tidy_taxonomies_runs_the_body data Hcalls).
  destruct (body_taxonomies_spec data 0) as (_ & Hu & _). split.
  - rewrite Hu. apply NoDup_seq.
  - rewrite Hu at 1. by rewrite Hu, length_seq.
Qed.

Lemma tidy_taxonomies_distinct_identifiers_witness :
  NoDup (uuids_of_list (tidy_taxonomies vaccines_yaml)) ∧
  uuids_of_list (tidy_taxonomies vaccines_yaml) =
    seq 0 (length (uuids_of_list (tidy_taxonomies vaccines_yaml))).
Proof.
  apply tidy_taxonomies_distinct_identifiers.
  let l := eval vm_compute in (calls_of vaccines_yaml) in
  change (calls_of vaccines_yaml) with l.
  apply NoDup_cons. split; [|apply NoDup_singleton].
  rewrite list_elem_of_singleton. by intros [=].
Defined.
